(** * Ankita PubSub: the broker core, embedded and verified

    A shallow embedding of the message queue (src/pubsub/queue.ts), the topic
    manager (src/pubsub/topic.ts), the consumer-group manager
    (src/pubsub/consumer-group.ts) and the broker (src/pubsub/broker.ts).

    Conventions of the embedding
    - A JavaScript [Map<string, V>] that is only read by key is a
      [gmap string V]; a [Set<string>] that is iterated is a duplicate-free
      list in insertion order.
    - Every method takes the state it works on and returns the new state;
      a method that may throw returns an [outcome], which carries the state
      at the return or at the throw.
    - [Date.now()] is the argument [now] of the operation (one reading per
      call); identifiers made by [generateId()] are arguments too.
    - Numbers that the code uses as times or limits are [Z]; counters that
      start at 0 and are only incremented are [nat]. *)

From Stdlib Require Import ZArith Lia Bool Ascii String List.
From stdpp Require Import base gmap strings list fin_maps.

Local Open Scope string_scope.
Local Open Scope list_scope.

(** ** Types (src/pubsub/types.ts) *)

(** [payload: unknown]: an object with string-valued properties, or any other
    value (kept as an opaque text). *)
Inductive Payload : Type :=
  | PayloadObject (fields : list (string * string))
  | PayloadOther (raw : string).

Record Message : Type := mkMessage {
  msg_id : string;
  msg_topic : string;
  msg_payload : Payload;
  msg_timestamp : Z;
  msg_publisherId : string;
  msg_headers : option (list (string * string));
  msg_replyTo : option string;
  msg_correlationId : option string;
  msg_ttl : option Z;
  msg_retryCount : option Z
}.

(** [QueuedMessage extends Message]: [qm_base] holds the inherited
    properties (the object itself is flat: [{...message, subscriberId, ...}]). *)
Record QueuedMessage : Type := mkQueuedMessage {
  qm_base : Message;
  qm_subscriberId : string;
  qm_queuedAt : Z;
  qm_attempts : nat;
  qm_maxRetries : Z;
  qm_nextRetryAt : option Z
}.

(** [DeadLetterMessage extends QueuedMessage], flat as well. *)
Record DeadLetterMessage : Type := mkDeadLetterMessage {
  dl_base : QueuedMessage;
  dl_failureReason : string;
  dl_failedAt : Z;
  dl_originalTopic : string
}.

Definition qm_id (m : QueuedMessage) : string := msg_id (qm_base m).
Definition dl_id (d : DeadLetterMessage) : string := qm_id (dl_base d).

(** ** Array helpers *)

(** [Array.prototype.findIndex]; [None] stands for -1. *)
Fixpoint findIndex {A : Type} (p : A → bool) (l : list A) : option nat :=
  match l with
  | [] => None
  | x :: r => if p x then Some 0 else S <$> findIndex p r
  end.

(** [const i = l.findIndex(p)] followed by the read [l[i]]: the index and the
    element there. *)
Fixpoint findEntry {A : Type} (p : A → bool) (l : list A) : option (nat * A) :=
  match l with
  | [] => None
  | x :: r => if p x then Some (0, x) else prod_map S id <$> findEntry p r
  end.

(** ** MessageQueue (src/pubsub/queue.ts) *)

Record MessageQueue : Type := mkMessageQueue {
  mq_queues : gmap string (list QueuedMessage);
  mq_deadLetterQueue : list DeadLetterMessage;
  mq_maxQueueSize : Z;
  mq_maxDeadLetterSize : Z
}.

(** [new MessageQueue(maxQueueSize = 10000, maxDeadLetterSize = 1000)] *)
Definition newMessageQueue (maxQueueSize maxDeadLetterSize : Z) : MessageQueue :=
  mkMessageQueue ∅ [] maxQueueSize maxDeadLetterSize.

Definition defaultMessageQueue : MessageQueue := newMessageQueue 10000 1000.

Definition set_queue (q : MessageQueue) (subscriberId : string)
    (queue : list QueuedMessage) : MessageQueue :=
  mkMessageQueue (<[subscriberId := queue]> (mq_queues q)) (mq_deadLetterQueue q)
                 (mq_maxQueueSize q) (mq_maxDeadLetterSize q).

Definition set_deadLetterQueue (q : MessageQueue)
    (dlq : list DeadLetterMessage) : MessageQueue :=
  mkMessageQueue (mq_queues q) dlq (mq_maxQueueSize q) (mq_maxDeadLetterSize q).

(** [moveToDeadLetter]: push, then drop the oldest entry when the dead-letter
    queue is longer than its maximum. *)
Definition moveToDeadLetter (now : Z) (message : QueuedMessage) (reason : string)
    (q : MessageQueue) : MessageQueue :=
  let dlqMessage := mkDeadLetterMessage message reason now (msg_topic (qm_base message)) in
  let pushed := mq_deadLetterQueue q ++ [dlqMessage] in
  set_deadLetterQueue q
    (if (mq_maxDeadLetterSize q <? Z.of_nat (length pushed))%Z then tail pushed else pushed).

Definition overflowReason : string := "Queue overflow - message evicted".

(** [enqueue]: always returns true, so only the new state is returned. *)
Definition enqueue (now : Z) (subscriberId : string) (message : QueuedMessage)
    (q : MessageQueue) : MessageQueue :=
  let queue := default [] (mq_queues q !! subscriberId) in
  if (mq_maxQueueSize q <=? Z.of_nat (length queue))%Z then
    match queue with
    | evicted :: rest =>
        set_queue (moveToDeadLetter now evicted overflowReason q) subscriberId (rest ++ [message])
    | [] => set_queue q subscriberId [message]
    end
  else set_queue q subscriberId (queue ++ [message]).

(** [!msg.nextRetryAt || msg.nextRetryAt <= now]; the number 0 is falsy. *)
Definition isReady (now : Z) (msg : QueuedMessage) : bool :=
  match qm_nextRetryAt msg with
  | None => true
  | Some t => (t =? 0)%Z || (t <=? now)%Z
  end.

Definition dequeue (now : Z) (subscriberId : string) (q : MessageQueue)
    : option QueuedMessage * MessageQueue :=
  match mq_queues q !! subscriberId with
  | None => (None, q)
  | Some queue =>
      if bool_decide (length queue = 0) then (None, q)
      else match findEntry (isReady now) queue with
           | None => (None, q)
           | Some (readyIndex, msg) =>
               (Some msg, set_queue q subscriberId (delete readyIndex queue))
           end
  end.

Definition peek (now : Z) (subscriberId : string) (q : MessageQueue) : option QueuedMessage :=
  match mq_queues q !! subscriberId with
  | None => None
  | Some queue => find (isReady now) queue
  end.

Definition getAll (subscriberId : string) (q : MessageQueue) : list QueuedMessage :=
  default [] (mq_queues q !! subscriberId).

Definition getQueueDepth (subscriberId : string) (q : MessageQueue) : nat :=
  length (default [] (mq_queues q !! subscriberId)).


Definition hasId (messageId : string) (msg : QueuedMessage) : bool :=
  bool_decide (qm_id msg = messageId).

Definition ack (subscriberId messageId : string) (q : MessageQueue) : bool * MessageQueue :=
  match mq_queues q !! subscriberId with
  | None => (false, q)
  | Some queue =>
      match findIndex (hasId messageId) queue with
      | None => (false, q)
      | Some index => (true, set_queue q subscriberId (delete index queue))
      end
  end.

(** [Math.min(1000 * Math.pow(2, attempts), 60000)] *)
Definition backoffMs (attempts : nat) : Z := Z.min (1000 * 2 ^ Z.of_nat attempts) 60000.

Definition incr_attempts (m : QueuedMessage) : QueuedMessage :=
  mkQueuedMessage (qm_base m) (qm_subscriberId m) (qm_queuedAt m)
                  (S (qm_attempts m)) (qm_maxRetries m) (qm_nextRetryAt m).

Definition set_nextRetryAt (m : QueuedMessage) (t : option Z) : QueuedMessage :=
  mkQueuedMessage (qm_base m) (qm_subscriberId m) (qm_queuedAt m)
                  (qm_attempts m) (qm_maxRetries m) t.

Definition nack (now : Z) (subscriberId messageId reason : string) (q : MessageQueue)
    : bool * MessageQueue :=
  match mq_queues q !! subscriberId with
  | None => (false, q)
  | Some queue =>
      match findEntry (hasId messageId) queue with
      | None => (false, q)
      | Some (index, message0) =>
          let message := incr_attempts message0 in
          if (qm_maxRetries message <=? Z.of_nat (qm_attempts message))%Z then
            (true, moveToDeadLetter now message reason
                     (set_queue q subscriberId (delete index queue)))
          else
            let backoff := backoffMs (qm_attempts message) in
            (true, set_queue q subscriberId
                     (<[index := set_nextRetryAt message (Some (now + backoff)%Z)]> queue))
      end
  end.

Definition set_attempts0 (d : DeadLetterMessage) : DeadLetterMessage :=
  let m := dl_base d in
  mkDeadLetterMessage
    (mkQueuedMessage (qm_base m) (qm_subscriberId m) (qm_queuedAt m) 0 (qm_maxRetries m) None)
    (dl_failureReason d) (dl_failedAt d) (dl_originalTopic d).

Definition retryFromDeadLetter (messageId : string) (q : MessageQueue)
    : option DeadLetterMessage * MessageQueue :=
  match findEntry (λ d, bool_decide (dl_id d = messageId)) (mq_deadLetterQueue q) with
  | None => (None, q)
  | Some (index, message) =>
      (Some (set_attempts0 message),
       set_deadLetterQueue q (delete index (mq_deadLetterQueue q)))
  end.

Definition removeFromDeadLetter (messageId : string) (q : MessageQueue) : bool * MessageQueue :=
  match findIndex (λ d, bool_decide (dl_id d = messageId)) (mq_deadLetterQueue q) with
  | None => (false, q)
  | Some index => (true, set_deadLetterQueue q (delete index (mq_deadLetterQueue q)))
  end.


(** ** Outcomes of methods that may throw

    [Returned a s]: the method returned [a] and left the state [s];
    [Thrown e s]: it threw [e], and [s] is the state at the throw. *)

Inductive Error : Type :=
  | AlreadyExists      (* topic.ts: Topic '...' already exists *)
  | InvalidName        (* topic.ts: Topic name must contain only ... *)
  | GroupAlreadyExists (* consumer-group.ts: Consumer group '...' already exists *)
  | GroupNotFound.     (* consumer-group.ts: Consumer group '...' not found *)

Inductive outcome (S A : Type) : Type :=
  | Returned (a : A) (s : S)
  | Thrown (e : Error) (s : S).
Arguments Returned {S A} a s.
Arguments Thrown {S A} e s.

Definition state_of {S A : Type} (o : outcome S A) : S :=
  match o with Returned _ s => s | Thrown _ s => s end.

(** ** TopicManager (src/pubsub/topic.ts) *)

Record TopicConfig : Type := mkTopicConfig {
  cfg_maxQueueSize : Z;
  cfg_messageRetention : Z;
  cfg_maxRetries : Z;
  cfg_retryDelay : Z;
  cfg_requireAck : bool
}.

(** [Partial<TopicConfig>]: [None] is a property that is not given. *)
Record PartialTopicConfig : Type := mkPartialTopicConfig {
  pcfg_maxQueueSize : option Z;
  pcfg_messageRetention : option Z;
  pcfg_maxRetries : option Z;
  pcfg_retryDelay : option Z;
  pcfg_requireAck : option bool
}.

Definition noOverrides : PartialTopicConfig := mkPartialTopicConfig None None None None None.

Definition defaultConfig : TopicConfig := mkTopicConfig 1000 3600000 3 5000 false.

(** [{ ...defaultConfig, ...config }] *)
Definition overlay (base : TopicConfig) (config : PartialTopicConfig) : TopicConfig :=
  mkTopicConfig
    (default (cfg_maxQueueSize base) (pcfg_maxQueueSize config))
    (default (cfg_messageRetention base) (pcfg_messageRetention config))
    (default (cfg_maxRetries base) (pcfg_maxRetries config))
    (default (cfg_retryDelay base) (pcfg_retryDelay config))
    (default (cfg_requireAck base) (pcfg_requireAck config)).

Record Topic : Type := mkTopic {
  topic_name : string;
  topic_createdAt : Z;
  topic_createdBy : string;
  topic_messageCount : nat;
  topic_subscriberCount : nat;
  topic_config : TopicConfig
}.

Record TopicManager : Type := mkTopicManager {
  tm_topics : gmap string Topic;
  tm_messageHistory : gmap string (list Message);
  tm_topicSubscribers : gmap string (list string)
}.

Definition newTopicManager : TopicManager := mkTopicManager ∅ ∅ ∅.

(** One character of the class [[a-zA-Z0-9._#*-]]. *)
Definition isTopicChar (c : ascii) : bool :=
  let n := nat_of_ascii c in
  ((97 <=? n) && (n <=? 122) || (65 <=? n) && (n <=? 90) || (48 <=? n) && (n <=? 57))%nat
  || bool_decide (c ∈ ["."; "_"; "#"; "*"; "-"]%char).

(** [/^[a-zA-Z0-9._#*-]+$/.test(name)]: one character or more, all of the class. *)
Definition validTopicName (name : string) : bool :=
  match list_ascii_of_string name with
  | [] => false
  | cs => forallb isTopicChar cs
  end.

Definition hasTopic (name : string) (tm : TopicManager) : bool :=
  bool_decide (is_Some (tm_topics tm !! name)).

Definition getTopic (name : string) (tm : TopicManager) : option Topic := tm_topics tm !! name.

Definition createTopic (now : Z) (name createdBy : string) (config : PartialTopicConfig)
    (tm : TopicManager) : outcome TopicManager Topic :=
  if hasTopic name tm then Thrown AlreadyExists tm
  else if negb (validTopicName name) then Thrown InvalidName tm
  else
    let topic := mkTopic name now createdBy 0 0 (overlay defaultConfig config) in
    Returned topic
      (mkTopicManager (<[name := topic]> (tm_topics tm))
                      (<[name := []]> (tm_messageHistory tm))
                      (<[name := []]> (tm_topicSubscribers tm))).

Definition deleteTopic (name : string) (tm : TopicManager) : bool * TopicManager :=
  if hasTopic name tm then
    (true, mkTopicManager (delete name (tm_topics tm)) (delete name (tm_messageHistory tm))
                          (delete name (tm_topicSubscribers tm)))
  else (false, tm).

Definition set_subscriberCount (n : nat) (t : Topic) : Topic :=
  mkTopic (topic_name t) (topic_createdAt t) (topic_createdBy t) (topic_messageCount t) n
          (topic_config t).

Definition addSubscriber (topicName subscriberId : string) (tm : TopicManager)
    : bool * TopicManager :=
  match tm_topicSubscribers tm !! topicName with
  | None => (false, tm)
  | Some subscribers =>
      if bool_decide (subscriberId ∈ subscribers) then (true, tm)
      else
        let subscribers' := subscribers ++ [subscriberId] in
        (true, mkTopicManager
                 (alter (set_subscriberCount (length subscribers')) topicName (tm_topics tm))
                 (tm_messageHistory tm)
                 (<[topicName := subscribers']> (tm_topicSubscribers tm)))
  end.

Definition removeSubscriber (topicName subscriberId : string) (tm : TopicManager)
    : bool * TopicManager :=
  match tm_topicSubscribers tm !! topicName with
  | None => (false, tm)
  | Some subscribers =>
      if bool_decide (subscriberId ∈ subscribers) then
        let subscribers' := filter (λ s, s ≠ subscriberId) subscribers in
        (true, mkTopicManager
                 (alter (set_subscriberCount (length subscribers')) topicName (tm_topics tm))
                 (tm_messageHistory tm)
                 (<[topicName := subscribers']> (tm_topicSubscribers tm)))
      else (false, tm)
  end.

Definition getSubscribers (topicName : string) (tm : TopicManager) : list string :=
  default [] (tm_topicSubscribers tm !! topicName).

(** [while (history.length > 0 && history[0].timestamp < cutoff) history.shift()] *)
Fixpoint trimOlder (cutoff : Z) (history : list Message) : list Message :=
  match history with
  | [] => []
  | m :: rest => if (msg_timestamp m <? cutoff)%Z then trimOlder cutoff rest else history
  end.

(** [while (history.length > maxHistory) history.shift()] *)
Fixpoint trimToMax (maxHistory : nat) (history : list Message) : list Message :=
  match history with
  | [] => []
  | _ :: rest => if (maxHistory <? length history)%nat then trimToMax maxHistory rest else history
  end.

Definition maxHistory : nat := 1000.

Definition incr_messageCount (t : Topic) : Topic :=
  mkTopic (topic_name t) (topic_createdAt t) (topic_createdBy t) (S (topic_messageCount t))
          (topic_subscriberCount t) (topic_config t).

Definition recordMessage (now : Z) (message : Message) (tm : TopicManager) : TopicManager :=
  match tm_topics tm !! msg_topic message with
  | None => tm
  | Some topic =>
      let history := default [] (tm_messageHistory tm !! msg_topic message) ++ [message] in
      let retention := cfg_messageRetention (topic_config topic) in
      let cutoff := (now - retention)%Z in
      mkTopicManager
        (<[msg_topic message := incr_messageCount topic]> (tm_topics tm))
        (<[msg_topic message := trimToMax maxHistory (trimOlder cutoff history)]>
           (tm_messageHistory tm))
        (tm_topicSubscribers tm)
  end.

(** [history.slice(-limit)]: the last [limit] messages; [slice(-0)] is the
    whole array. *)
Definition getMessageHistory (topicName : string) (limit : nat) (tm : TopicManager)
    : list Message :=
  match tm_messageHistory tm !! topicName with
  | None => []
  | Some history =>
      if bool_decide (limit = 0) then history else drop (length history - limit) history
  end.

(** ** ConsumerGroupManager (src/pubsub/consumer-group.ts) *)

Inductive LoadBalanceStrategy : Type := RoundRobin | Sticky | Broadcast | Random.

Record ConsumerGroupMember : Type := mkMember {
  mem_subscriberId : string;
  mem_clientId : string;
  mem_joinedAt : Z;
  mem_lastHeartbeat : Z;
  mem_assignedPartitions : list nat;
  mem_messagesProcessed : nat;
  mem_isLeader : bool
}.

Record ConsumerGroup : Type := mkGroup {
  grp_name : string;
  grp_topic : string;
  grp_strategy : LoadBalanceStrategy;
  grp_members : list ConsumerGroupMember;
  grp_createdAt : Z;
  grp_currentOffset : Z;
  grp_committedOffset : Z
}.

Record ConsumerGroupManager : Type := mkGroupManager {
  cgm_groups : gmap string ConsumerGroup;
  cgm_memberToGroup : gmap string string;
  cgm_roundRobinIndex : gmap string nat;
  cgm_stickyAssignments : gmap string string
}.

(** The manager as its constructor leaves it when the database holds no group. *)
Definition newGroupManager : ConsumerGroupManager := mkGroupManager ∅ ∅ ∅ ∅.

Definition set_members (g : ConsumerGroup) (ms : list ConsumerGroupMember) : ConsumerGroup :=
  mkGroup (grp_name g) (grp_topic g) (grp_strategy g) ms (grp_createdAt g)
          (grp_currentOffset g) (grp_committedOffset g).

Definition set_group (m : ConsumerGroupManager) (name : string) (g : ConsumerGroup)
    : ConsumerGroupManager :=
  mkGroupManager (<[name := g]> (cgm_groups m)) (cgm_memberToGroup m)
                 (cgm_roundRobinIndex m) (cgm_stickyAssignments m).

Definition set_memberToGroup (m : ConsumerGroupManager) (mtg : gmap string string)
    : ConsumerGroupManager :=
  mkGroupManager (cgm_groups m) mtg (cgm_roundRobinIndex m) (cgm_stickyAssignments m).

Definition createGroup (now : Z) (name topic : string) (strategy : LoadBalanceStrategy)
    (m : ConsumerGroupManager) : outcome ConsumerGroupManager ConsumerGroup :=
  match cgm_groups m !! name with
  | Some _ => Thrown GroupAlreadyExists m
  | None =>
      let group := mkGroup name topic strategy [] now 0 0 in
      Returned group (set_group m name group)
  end.

Definition numPartitions : nat := 16.

Definition set_partitions (mem : ConsumerGroupMember) (ps : list nat) : ConsumerGroupMember :=
  mkMember (mem_subscriberId mem) (mem_clientId mem) (mem_joinedAt mem) (mem_lastHeartbeat mem)
           ps (mem_messagesProcessed mem) (mem_isLeader mem).

(** The loop of [rebalance]: member [i] gets [count] consecutive partitions
    starting at [partitionIndex]. *)
Fixpoint assignPartitions (partitionsPerMember remainder i partitionIndex : nat)
    (members : list ConsumerGroupMember) : list ConsumerGroupMember :=
  match members with
  | [] => []
  | mem :: rest =>
      let extra := if (i <? remainder)%nat then 1 else 0 in
      let count := partitionsPerMember + extra in
      set_partitions mem (seq partitionIndex count)
        :: assignPartitions partitionsPerMember remainder (S i) (partitionIndex + count) rest
  end.

Definition rebalance (groupName : string) (m : ConsumerGroupManager) : ConsumerGroupManager :=
  match cgm_groups m !! groupName with
  | None => m
  | Some group =>
      let numMembers := length (grp_members group) in
      if bool_decide (numMembers = 0) then m
      else
        set_group m groupName
          (set_members group
             (assignPartitions (numPartitions / numMembers) (numPartitions mod numMembers) 0 0
                               (grp_members group)))
  end.

Definition set_lastHeartbeat (now : Z) (mem : ConsumerGroupMember) : ConsumerGroupMember :=
  mkMember (mem_subscriberId mem) (mem_clientId mem) (mem_joinedAt mem) now
           (mem_assignedPartitions mem) (mem_messagesProcessed mem) (mem_isLeader mem).

Definition set_isLeader (mem : ConsumerGroupMember) : ConsumerGroupMember :=
  mkMember (mem_subscriberId mem) (mem_clientId mem) (mem_joinedAt mem) (mem_lastHeartbeat mem)
           (mem_assignedPartitions mem) (mem_messagesProcessed mem) true.

Definition isMember (subscriberId : string) (mem : ConsumerGroupMember) : bool :=
  bool_decide (mem_subscriberId mem = subscriberId).

(** The member that [joinGroup] returns is the one of the group's list: it is
    read again from the new state, after [rebalance]. *)
Definition joinGroup (now : Z) (groupName subscriberId clientId : string)
    (m : ConsumerGroupManager) : outcome ConsumerGroupManager ConsumerGroupMember :=
  match cgm_groups m !! groupName with
  | None => Thrown GroupNotFound m
  | Some group =>
      match findEntry (isMember subscriberId) (grp_members group) with
      | Some (index, member) =>
          let member' := set_lastHeartbeat now member in
          Returned member'
            (set_group m groupName (set_members group (<[index := member']> (grp_members group))))
      | None =>
          let member :=
            mkMember subscriberId clientId now now [] 0
                     (bool_decide (length (grp_members group) = 0)) in
          let m1 := set_group m groupName (set_members group (grp_members group ++ [member])) in
          let m2 := set_memberToGroup m1 (<[subscriberId := groupName]> (cgm_memberToGroup m1)) in
          let m3 := rebalance groupName m2 in
          let joined := default member
                          (g ← cgm_groups m3 !! groupName;
                           find (isMember subscriberId) (grp_members g)) in
          Returned joined m3
      end
  end.

(** [group.members[0].isLeader = true] *)
Definition electHead (members : list ConsumerGroupMember) : list ConsumerGroupMember :=
  match members with
  | [] => []
  | head :: rest => set_isLeader head :: rest
  end.

(** [leaveGroup]. The guard [if (!groupName) return] also returns for a
    subscriber that is mapped to the group named with the empty string. *)
Definition leaveGroup (subscriberId : string) (m : ConsumerGroupManager) : ConsumerGroupManager :=
  match cgm_memberToGroup m !! subscriberId with
  | None => m
  | Some groupName =>
      if bool_decide (groupName = "") then m
      else
      match cgm_groups m !! groupName with
      | None => m
      | Some group =>
          match findEntry (isMember subscriberId) (grp_members group) with
          | None => m
          | Some (memberIndex, member) =>
              let wasLeader := mem_isLeader member in
              let members1 := delete memberIndex (grp_members group) in
              let members2 :=
                if wasLeader && negb (bool_decide (length members1 = 0))
                then electHead members1 else members1 in
              let m1 := set_group m groupName (set_members group members2) in
              let m2 := set_memberToGroup m1 (delete subscriberId (cgm_memberToGroup m1)) in
              rebalance groupName m2
          end
      end
  end.

(** Property lookup on an object given as a list of entries. *)
Fixpoint prop (key : string) (entries : list (string * string)) : option string :=
  match entries with
  | [] => None
  | (k, v) :: rest => if bool_decide (k = key) then Some v else prop key rest
  end.

(** A property of [payload as any]; a payload that is not an object has none. *)
Definition payloadProp (key : string) (p : Payload) : option string :=
  match p with
  | PayloadObject fields => prop key fields
  | PayloadOther _ => None
  end.

(** A string is truthy when it is defined and not empty. *)
Definition truthy (o : option string) : bool :=
  match o with
  | Some s => negb (bool_decide (s = ""))
  | None => false
  end.

Definition getStickyKey (message : Message) : string :=
  let payload := msg_payload message in
  if truthy (payloadProp "userId" payload)
  then String.append "user:" (default "" (payloadProp "userId" payload))
  else if truthy (payloadProp "orderId" payload)
  then String.append "order:" (default "" (payloadProp "orderId" payload))
  else if truthy (payloadProp "sessionId" payload)
  then String.append "session:" (default "" (payloadProp "sessionId" payload))
  else if truthy (msg_correlationId message)
  then String.append "correlation:" (default "" (msg_correlationId message))
  else String.append "publisher:" (msg_publisherId message).

(** [ToInt32]: the result of a bit operation, in [-2^31, 2^31). *)
Definition toInt32 (z : Z) : Z :=
  let r := (z mod 4294967296)%Z in
  if (2147483648 <=? r)%Z then (r - 4294967296)%Z else r.

(** [hash = ((hash << 5) - hash) + char; hash = hash & hash] for each character. *)
Fixpoint hashFrom (hash : Z) (str : string) : Z :=
  match str with
  | EmptyString => hash
  | String c rest =>
      hashFrom (toInt32 (toInt32 (Z.shiftl hash 5) - hash + Z.of_nat (nat_of_ascii c))) rest
  end.

Definition hashCode (str : string) : Z := hashFrom 0 str.

Definition roundRobinSelect (group : ConsumerGroup) (m : ConsumerGroupManager)
    : option string * ConsumerGroupManager :=
  let index := default 0 (cgm_roundRobinIndex m !! grp_name group) in
  let member := grp_members group !! (index mod length (grp_members group)) in
  (mem_subscriberId <$> member,
   mkGroupManager (cgm_groups m) (cgm_memberToGroup m)
                  (<[grp_name group := index + 1]> (cgm_roundRobinIndex m))
                  (cgm_stickyAssignments m)).

Definition stickySelect (group : ConsumerGroup) (message : Message) (m : ConsumerGroupManager)
    : option string * ConsumerGroupManager :=
  let stickyKey := getStickyKey message in
  let assigned := cgm_stickyAssignments m !! stickyKey in
  if truthy assigned
     && existsb (λ mem, bool_decide (Some (mem_subscriberId mem) = assigned)) (grp_members group)
  then (assigned, m)
  else
    let hash := hashCode stickyKey in
    let memberIndex := Z.to_nat (Z.abs hash mod Z.of_nat (length (grp_members group))) in
    match grp_members group !! memberIndex with
    | None => (None, m)
    | Some mem =>
        (Some (mem_subscriberId mem),
         mkGroupManager (cgm_groups m) (cgm_memberToGroup m) (cgm_roundRobinIndex m)
                        (<[stickyKey := mem_subscriberId mem]> (cgm_stickyAssignments m)))
    end.

(** [random] is the value of [Math.floor(Math.random() * group.members.length)]. *)
Definition randomSelect (random : nat) (group : ConsumerGroup) : option string :=
  mem_subscriberId <$> grp_members group !! random.

Definition getNextSubscriber (random : nat) (groupName : string) (message : Message)
    (m : ConsumerGroupManager) : option string * ConsumerGroupManager :=
  match cgm_groups m !! groupName with
  | None => (None, m)
  | Some group =>
      if bool_decide (length (grp_members group) = 0) then (None, m)
      else match grp_strategy group with
           | RoundRobin => roundRobinSelect group m
           | Sticky => stickySelect group message m
           | Random => (randomSelect random group, m)
           | Broadcast => (None, m)
           end
  end.

Definition getAllSubscribers (groupName : string) (m : ConsumerGroupManager) : list string :=
  match cgm_groups m !! groupName with
  | None => []
  | Some group => mem_subscriberId <$> grp_members group
  end.

(** ** MessageBroker (src/pubsub/broker.ts)

    The request/reply promises and the event handlers are not part of the
    embedding: event handlers only observe, and their exceptions are caught. *)

(** A header pattern of a filter: a string, or a [RegExp] given by its [test]. *)
Inductive HeaderPattern : Type :=
  | PatString (s : string)
  | PatRegExp (test : string → bool).

Record MessageFilter : Type := mkFilter {
  flt_headers : option (list (string * HeaderPattern));
  flt_payload : option (list (string * string))
}.

Record Subscriber : Type := mkSubscriber {
  sub_id : string;
  sub_clientId : string;
  sub_topics : list string;
  sub_createdAt : Z;
  sub_lastActivity : Z;
  sub_isOnline : bool;
  sub_pendingMessages : nat;
  sub_deliveredMessages : nat;
  sub_filter : option MessageFilter
}.

Record Publisher : Type := mkPublisher {
  pub_id : string;
  pub_clientId : string;
  pub_createdAt : Z;
  pub_lastActivity : Z;
  pub_publishedMessages : nat;
  pub_topics : list string
}.

(** A subscriber's callback (its sink) is a function that tells whether the
    call returns ([true]) or throws ([false]); [sinkCalls] is the trace of
    the calls made, oldest first: the subscriber id and the message passed. *)
Record MessageBroker : Type := mkBroker {
  topicManager : TopicManager;
  messageQueue : MessageQueue;
  subscribers : gmap string Subscriber;
  publishers : gmap string Publisher;
  messageCallbacks : gmap string (Message → bool);
  totalMessages : nat;
  messagesLastMinute : list Z;
  sinkCalls : list (string * Message)
}.

(** [new MessageBroker()]: the queue is built with its default limits. *)
Definition newMessageBroker : MessageBroker :=
  mkBroker newTopicManager defaultMessageQueue ∅ ∅ ∅ 0 [] [].

Definition set_topicManager (b : MessageBroker) (tm : TopicManager) : MessageBroker :=
  mkBroker tm (messageQueue b) (subscribers b) (publishers b) (messageCallbacks b)
           (totalMessages b) (messagesLastMinute b) (sinkCalls b).

Definition set_messageQueue (b : MessageBroker) (q : MessageQueue) : MessageBroker :=
  mkBroker (topicManager b) q (subscribers b) (publishers b) (messageCallbacks b)
           (totalMessages b) (messagesLastMinute b) (sinkCalls b).

Definition set_subscribers (b : MessageBroker) (ss : gmap string Subscriber) : MessageBroker :=
  mkBroker (topicManager b) (messageQueue b) ss (publishers b) (messageCallbacks b)
           (totalMessages b) (messagesLastMinute b) (sinkCalls b).

Definition log_sinkCall (b : MessageBroker) (subscriberId : string) (message : Message)
    : MessageBroker :=
  mkBroker (topicManager b) (messageQueue b) (subscribers b) (publishers b) (messageCallbacks b)
           (totalMessages b) (messagesLastMinute b) (sinkCalls b ++ [(subscriberId, message)]).

(** [Set.prototype.add] and [new Set(array)], in insertion order. *)
Definition setAdd (s : list string) (x : string) : list string :=
  if bool_decide (x ∈ s) then s else s ++ [x].

Definition newSet (l : list string) : list string := foldl setAdd [] l.

Definition brokerCreateTopic (now : Z) (name createdBy : string) (config : PartialTopicConfig)
    (b : MessageBroker) : outcome MessageBroker Topic :=
  match createTopic now name createdBy config (topicManager b) with
  | Returned topic tm => Returned topic (set_topicManager b tm)
  | Thrown e tm => Thrown e (set_topicManager b tm)
  end.


Definition headerMatches (message : Message) (entry : string * HeaderPattern) : bool :=
  let '(key, pattern) := entry in
  let value := h ← msg_headers message; prop key h in
  if negb (truthy value) then false
  else match pattern with
       | PatRegExp test => test (default "" value)
       | PatString s => bool_decide (value = Some s)
       end.

Definition payloadMatches (fields : list (string * string)) (entry : string * string) : bool :=
  let '(key, expected) := entry in bool_decide (prop key fields = Some expected).

Definition matchesFilter (message : Message) (filter : MessageFilter) : bool :=
  match flt_headers filter with
  | Some hs => forallb (headerMatches message) hs
  | None => true
  end
  &&
  match flt_payload filter, msg_payload message with
  | Some ps, PayloadObject fields => forallb (payloadMatches fields) ps
  | _, _ => true
  end.

Definition set_pendingMessages (n : nat) (s : Subscriber) : Subscriber :=
  mkSubscriber (sub_id s) (sub_clientId s) (sub_topics s) (sub_createdAt s) (sub_lastActivity s)
               (sub_isOnline s) n (sub_deliveredMessages s) (sub_filter s).

Definition delivered (now : Z) (s : Subscriber) : Subscriber :=
  mkSubscriber (sub_id s) (sub_clientId s) (sub_topics s) (sub_createdAt s) now
               (sub_isOnline s) (sub_pendingMessages s) (S (sub_deliveredMessages s))
               (sub_filter s).

Definition set_online (now : Z) (online : bool) (s : Subscriber) : Subscriber :=
  mkSubscriber (sub_id s) (sub_clientId s) (sub_topics s) (sub_createdAt s) now
               online (sub_pendingMessages s) (sub_deliveredMessages s) (sub_filter s).

(** [config?.maxRetries || 3]: 3 when the topic is gone or the setting is 0. *)
Definition maxRetriesFor (topic : option Topic) : Z :=
  match topic with
  | Some t => if (cfg_maxRetries (topic_config t) =? 0)%Z then 3%Z
              else cfg_maxRetries (topic_config t)
  | None => 3%Z
  end.

(** [queueMessage]. The queued object is [{...message, subscriberId, queuedAt,
    attempts: 0, maxRetries}]: when [message] is itself a queued message (as
    in [drainQueue]) the spread keeps its [nextRetryAt], passed here as
    [nextRetryAt]; a published message has none. *)
Definition queueMessage (now : Z) (subscriberId : string) (message : Message)
    (nextRetryAt : option Z) (b : MessageBroker) : MessageBroker :=
  let topic := getTopic (msg_topic message) (topicManager b) in
  let queuedMessage :=
    mkQueuedMessage message subscriberId now 0 (maxRetriesFor topic) nextRetryAt in
  let q := enqueue now subscriberId queuedMessage (messageQueue b) in
  set_subscribers (set_messageQueue b q)
    (alter (set_pendingMessages (getQueueDepth subscriberId q)) subscriberId (subscribers b)).

Definition deliverMessage (now : Z) (subscriberId : string) (message : Message)
    (nextRetryAt : option Z) (b : MessageBroker) : MessageBroker :=
  match (messageCallbacks b !! subscriberId : option (Message → bool)) with
  | None => b
  | Some callback =>
      let b1 := log_sinkCall b subscriberId message in
      if callback message
      then set_subscribers b1 (alter (delivered now) subscriberId (subscribers b1))
      else queueMessage now subscriberId message nextRetryAt b1
  end.

(** The body of the loop of [routeMessage], for one subscriber id. *)
Definition routeTo (now : Z) (message : Message) (b : MessageBroker) (subscriberId : string)
    : MessageBroker :=
  match subscribers b !! subscriberId with
  | None => b
  | Some subscriber =>
      match sub_filter subscriber with
      | Some filter =>
          if negb (matchesFilter message filter) then b
          else if sub_isOnline subscriber then deliverMessage now subscriberId message None b
          else queueMessage now subscriberId message None b
      | None =>
          if sub_isOnline subscriber then deliverMessage now subscriberId message None b
          else queueMessage now subscriberId message None b
      end
  end.

Definition routeMessage (now : Z) (message : Message) (b : MessageBroker) : MessageBroker :=
  let subscriberIds := getSubscribers (msg_topic message) (topicManager b) in
  let wildcardSubscriberIds := getSubscribers "#" (topicManager b) in
  let allSubscriberIds := newSet (subscriberIds ++ wildcardSubscriberIds) in
  foldl (routeTo now message) b allSubscriberIds.

Definition trackPublisher (now : Z) (publisherId topic : string) (b : MessageBroker)
    : MessageBroker :=
  let publisher :=
    default (mkPublisher publisherId publisherId now now 0 []) (publishers b !! publisherId) in
  let publisher' :=
    mkPublisher (pub_id publisher) (pub_clientId publisher) (pub_createdAt publisher) now
                (S (pub_publishedMessages publisher)) (setAdd (pub_topics publisher) topic) in
  mkBroker (topicManager b) (messageQueue b) (subscribers b)
           (<[publisherId := publisher']> (publishers b)) (messageCallbacks b)
           (totalMessages b) (messagesLastMinute b) (sinkCalls b).

Record PublishOptions : Type := mkPublishOptions {
  opt_headers : option (list (string * string));
  opt_ttl : option Z;
  opt_correlationId : option string;
  opt_replyTo : option string
}.

Definition noOptions : PublishOptions := mkPublishOptions None None None None.

Definition count_published (now : Z) (b : MessageBroker) : MessageBroker :=
  mkBroker (topicManager b) (messageQueue b) (subscribers b) (publishers b) (messageCallbacks b)
           (S (totalMessages b)) (messagesLastMinute b ++ [now]) (sinkCalls b).

(** [publish]; [newId] is the identifier that [generateId()] makes. *)
Definition publish (now : Z) (newId topic : string) (payload : Payload) (publisherId : string)
    (options : PublishOptions) (b : MessageBroker) : outcome MessageBroker Message :=
  let created : outcome TopicManager unit :=
    if hasTopic topic (topicManager b) then Returned tt (topicManager b)
    else match createTopic now topic publisherId noOverrides (topicManager b) with
         | Returned _ tm => Returned tt tm
         | Thrown e tm => Thrown e tm
         end in
  match created with
  | Thrown e tm => Thrown e (set_topicManager b tm)
  | Returned _ tm =>
      let message :=
        mkMessage newId topic payload now publisherId (opt_headers options)
                  (opt_replyTo options) (opt_correlationId options) (opt_ttl options) None in
      let b1 := set_topicManager b (recordMessage now message tm) in
      let b2 := trackPublisher now publisherId topic b1 in
      let b3 := routeMessage now message b2 in
      Returned message (count_published now b3)
  end.

(** The loop of [drainQueue]: [while ((message = dequeue(subscriberId)))
    deliverMessage(subscriberId, message)]. A callback that throws puts the
    message back in the queue, so the loop need not end: [fuel] bounds the
    number of iterations and [None] is a loop that did not end within it. *)
Fixpoint drainLoop (fuel : nat) (now : Z) (subscriberId : string) (b : MessageBroker)
    : option MessageBroker :=
  match fuel with
  | 0 => None
  | S fuel' =>
      match dequeue now subscriberId (messageQueue b) with
      | (None, _) => Some b
      | (Some message, q) =>
          drainLoop fuel' now subscriberId
            (deliverMessage now subscriberId (qm_base message) (qm_nextRetryAt message)
                            (set_messageQueue b q))
      end
  end.

Definition drainQueue (fuel : nat) (now : Z) (subscriberId : string) (b : MessageBroker)
    : option MessageBroker :=
  b' ← drainLoop fuel now subscriberId b;
  Some (set_subscribers b'
          (alter (set_pendingMessages (getQueueDepth subscriberId (messageQueue b')))
                 subscriberId (subscribers b'))).

(** The loop of [subscribe] over the topics: create the missing ones, then add
    the subscriber. *)
Fixpoint subscribeTopics (now : Z) (clientId subscriberId : string) (topics : list string)
    (tm : TopicManager) : outcome TopicManager unit :=
  match topics with
  | [] => Returned tt tm
  | topic :: rest =>
      let created : outcome TopicManager unit :=
        if hasTopic topic tm then Returned tt tm
        else match createTopic now topic clientId noOverrides tm with
             | Returned _ tm' => Returned tt tm'
             | Thrown e tm' => Thrown e tm'
             end in
      match created with
      | Thrown e tm' => Thrown e tm'
      | Returned _ tm' =>
          subscribeTopics now clientId subscriberId rest
                          (snd (addSubscriber topic subscriberId tm'))
      end
  end.

Definition subscriberIdFor (clientId newId : string) : string :=
  String.append "sub_" (String.append clientId (String.append "_" newId)).

(** [subscribe]; [newId] is the identifier that [generateId()] makes. The
    subscriber returned is the object of the map, read after [drainQueue]. *)
Definition subscribe (fuel : nat) (now : Z) (newId clientId : string) (topics : list string)
    (callback : Message → bool) (filter : option MessageFilter) (b : MessageBroker)
    : option (outcome MessageBroker Subscriber) :=
  let subscriberId := subscriberIdFor clientId newId in
  let subscriber := mkSubscriber subscriberId clientId (newSet topics) now now true 0 0 filter in
  let b1 :=
    mkBroker (topicManager b) (messageQueue b) (<[subscriberId := subscriber]> (subscribers b))
             (publishers b) (<[subscriberId := callback]> (messageCallbacks b))
             (totalMessages b) (messagesLastMinute b) (sinkCalls b) in
  match subscribeTopics now clientId subscriberId topics (topicManager b1) with
  | Thrown e tm => Some (Thrown e (set_topicManager b1 tm))
  | Returned _ tm =>
      b2 ← drainQueue fuel now subscriberId (set_topicManager b1 tm);
      Some (Returned (default subscriber (subscribers b2 !! subscriberId)) b2)
  end.

Definition setSubscriberOnline (fuel : nat) (now : Z) (subscriberId : string) (online : bool)
    (b : MessageBroker) : option MessageBroker :=
  match subscribers b !! subscriberId with
  | None => Some b
  | Some subscriber =>
      let b1 := set_subscribers b (<[subscriberId := set_online now online subscriber]>
                                     (subscribers b)) in
      if online then drainQueue fuel now subscriberId b1 else Some b1
  end.

Definition brokerAck (subscriberId messageId : string) (b : MessageBroker)
    : bool * MessageBroker :=
  let '(found, q) := ack subscriberId messageId (messageQueue b) in (found, set_messageQueue b q).

Definition brokerNack (now : Z) (subscriberId messageId reason : string) (b : MessageBroker)
    : bool * MessageBroker :=
  let '(found, q) := nack now subscriberId messageId reason (messageQueue b) in
  (found, set_messageQueue b q).

(** [getDeadLetterQueue]: a copy of the array; the entries are the same objects. *)
Definition getDeadLetterQueue (q : MessageQueue) : list DeadLetterMessage :=
  mq_deadLetterQueue q.

(** The read [item.message] in [retryDeadLetter] and [retryAllDeadLetters].
    [DeadLetterMessage] declares no property [message], and
    [moveToDeadLetter], the only place that makes entries, spreads the
    queued message into the entry and sets no such property: the read gives
    undefined for every entry. *)
Definition dl_message (item : DeadLetterMessage) : option Message := None.

Definition retryDeadLetter (now : Z) (messageId : string) (b : MessageBroker)
    : bool * MessageBroker :=
  let dlq := getDeadLetterQueue (messageQueue b) in
  match find (λ m, bool_decide (dl_id m = messageId)) dlq with
  | Some item =>
      match dl_message item with
      | Some message =>
          let b1 := routeMessage now message b in
          (true, set_messageQueue b1 (snd (removeFromDeadLetter messageId (messageQueue b1))))
      | None => (false, b)
      end
  | None => (false, b)
  end.

Definition deleteDeadLetter (messageId : string) (b : MessageBroker) : bool * MessageBroker :=
  let '(found, q) := removeFromDeadLetter messageId (messageQueue b) in
  (found, set_messageQueue b q).

(** * Runs and specification-level predicates *)

(** A queued message is due at [now] when its [nextRetryAt] is unset or at
    most [now]; it is waiting otherwise. *)
Definition due (now : Z) (m : QueuedMessage) : Prop :=
  match qm_nextRetryAt m with
  | None => True
  | Some t => (t ≤ now)%Z
  end.

Definition waiting (now : Z) (m : QueuedMessage) : Prop :=
  ∃ t, qm_nextRetryAt m = Some t ∧ (now < t)%Z.

(** Consecutive calls of [nack] for one message, one per reading of the clock. *)
Fixpoint nackTimes (times : list Z) (subscriberId messageId reason : string)
    (q : MessageQueue) : MessageQueue :=
  match times with
  | [] => q
  | now :: rest =>
      nackTimes rest subscriberId messageId reason
                (snd (nack now subscriberId messageId reason q))
  end.

(** A sequence of calls of [enqueue]: the time, the subscriber and the message
    of each. *)
Definition enqueueAll (calls : list (Z * string * QueuedMessage)) (q : MessageQueue)
    : MessageQueue :=
  foldl (λ q c, enqueue c.1.1 c.1.2 c.2 q) q calls.

(** The queued message [m] with its attempts counter and retry time replaced. *)
Definition rescheduled (m : QueuedMessage) (attempts : nat) (nextRetryAt : option Z)
    : QueuedMessage :=
  mkQueuedMessage (qm_base m) (qm_subscriberId m) (qm_queuedAt m) attempts (qm_maxRetries m)
                  nextRetryAt.

(** The dead-letter entry that [moveToDeadLetter] makes of a queued message. *)
Definition deadLetterOf (now : Z) (m : QueuedMessage) (reason : string) : DeadLetterMessage :=
  mkDeadLetterMessage m reason now (msg_topic (qm_base m)).

(** The state after a step of a scenario, when the step returned. *)
Definition returned {S A : Type} (o : outcome S A) : option S :=
  match o with
  | Returned _ s => Some s
  | Thrown _ _ => None
  end.

Definition samplePayload (i : string) : Payload := PayloadObject [("i", i)].

(** A sink that accepts every message. *)
Definition acceptAll : Message → bool := λ _, true.

Definition sampleQueued (messageId : string) : QueuedMessage :=
  mkQueuedMessage (mkMessage messageId "t" (samplePayload messageId) 0 "pub" None None None None None)
                  "s" 0 0 3 None.

(** Scenario: a topic created with maxQueueSize = 2, one subscriber that goes
    offline, then three messages published to the topic. *)
Definition overflowScenario : option MessageBroker :=
  b1 ← returned (brokerCreateTopic 0 "t" "admin"
                   (mkPartialTopicConfig (Some 2%Z) None None None None) newMessageBroker);
  o ← subscribe 1 1 "x1" "cli" ["t"] acceptAll None b1;
  b2 ← returned o;
  b3 ← setSubscriberOnline 1 2 (subscriberIdFor "cli" "x1") false b2;
  b4 ← returned (publish 3 "m1" "t" (samplePayload "0") "pub" noOptions b3);
  b5 ← returned (publish 4 "m2" "t" (samplePayload "1") "pub" noOptions b4);
  returned (publish 5 "m3" "t" (samplePayload "2") "pub" noOptions b5).

(** The characters that a topic name may hold: alphanumerics and [. - _ * #]. *)
Definition allowedChars : list ascii :=
  list_ascii_of_string "abcdefghijklmnopqrstuvwxyzABCDEFGHIJKLMNOPQRSTUVWXYZ0123456789.-_*#".

(** A history is chronological when timestamps never decrease along it. *)
Definition chronological (history : list Message) : Prop :=
  ∀ (i j : nat) a b, (i ≤ j)%nat → history !! i = Some a → history !! j = Some b →
             (msg_timestamp a ≤ msg_timestamp b)%Z.

Definition sampleMessage (messageId : string) (timestamp : Z) : Message :=
  mkMessage messageId "t" (samplePayload messageId) timestamp "pub" None None None None None.

(** Scenario: a topic that keeps messages for 50 ms; at time 100 a message
    stamped 100 is recorded, then one stamped 10. *)
Definition staleScenario : option TopicManager :=
  tm1 ← returned (createTopic 100 "t" "admin"
                    (mkPartialTopicConfig None (Some 50%Z) None None None) newTopicManager);
  Some (recordMessage 100 (sampleMessage "m2" 10)
          (recordMessage 100 (sampleMessage "m1" 100) tm1)).







(** The messages passed to the sink of a subscriber, oldest first. *)
Definition sinkCallsFor (subscriberId : string) (b : MessageBroker) : list Message :=
  snd <$> List.filter (λ c, bool_decide (c.1 = subscriberId)) (sinkCalls b).

(** What routing reads of a subscriber: the online flag and the filter. *)
Definition routingView (s : Subscriber) : bool * option MessageFilter :=
  (sub_isOnline s, sub_filter s).

(** Two broker states that route alike: same topics and subscriber sets, same
    callbacks, and the same online flag and filter for every subscriber. *)
Definition sameRouting (b b' : MessageBroker) : Prop :=
  topicManager b' = topicManager b
  ∧ messageCallbacks b' = messageCallbacks b
  ∧ ∀ sid, routingView <$> subscribers b' !! sid = routingView <$> subscribers b !! sid.

(** The subscriber is known, online, has a callback, and its filter (if any)
    lets the message through. *)
Definition accepts (subscriberId : string) (message : Message) (b : MessageBroker) : Prop :=
  ∃ s cb,
    subscribers b !! subscriberId = Some s
    ∧ sub_isOnline s = true
    ∧ (∀ f, sub_filter s = Some f → matchesFilter message f = true)
    ∧ messageCallbacks b !! subscriberId = Some cb.


(** Every topic of the manager has its set of subscribers. *)
Definition tmConsistent (tm : TopicManager) : Prop :=
  ∀ t, is_Some (tm_topics tm !! t) → is_Some (tm_topicSubscribers tm !! t).

(** The topic exists and the subscriber is in its set. *)
Definition subscribedTo (subscriberId topic : string) (tm : TopicManager) : Prop :=
  is_Some (tm_topics tm !! topic) ∧ subscriberId ∈ getSubscribers topic tm.

(** The message that [publish] builds. *)
Definition publishedMessage (now : Z) (newId topic : string) (payload : Payload)
    (publisherId : string) (options : PublishOptions) : Message :=
  mkMessage newId topic payload now publisherId (opt_headers options) (opt_replyTo options)
            (opt_correlationId options) (opt_ttl options) None.



(** A run of [getNextSubscriber], one call per message: the members chosen. *)
Fixpoint selectEach (random : nat) (groupName : string) (messages : list Message)
    (m : ConsumerGroupManager) : list (option string) :=
  match messages with
  | [] => []
  | message :: rest =>
      let '(chosen, m') := getNextSubscriber random groupName message m in
      chosen :: selectEach random groupName rest m'
  end.

Definition advanceRoundRobin (m : ConsumerGroupManager) (groupName : string)
    : ConsumerGroupManager :=
  mkGroupManager (cgm_groups m) (cgm_memberToGroup m)
                 (<[groupName := default 0 (cgm_roundRobinIndex m !! groupName) + 1]>
                    (cgm_roundRobinIndex m))
                 (cgm_stickyAssignments m).

(** A run of [publish] to one topic: the time and the identifier of each call. *)
Fixpoint publishEach (calls : list (Z * string)) (topic : string) (b : MessageBroker)
    : option MessageBroker :=
  match calls with
  | [] => Some b
  | (now, newId) :: rest =>
      b' ← returned (publish now newId topic (samplePayload newId) "pub" noOptions b);
      publishEach rest topic b'
  end.

Definition s1 : string := subscriberIdFor "s1" "x1".
Definition s2 : string := subscriberIdFor "s2" "x2".
Definition s3 : string := subscriberIdFor "s3" "x3".

(** Scenario: a round-robin group "g" on topic "t" that s1, s2 and s3 join in
    that order. *)
Definition groupScenario : option ConsumerGroupManager :=
  m1 ← returned (createGroup 0 "g" "t" RoundRobin newGroupManager);
  m2 ← returned (joinGroup 1 "g" s1 "s1" m1);
  m3 ← returned (joinGroup 2 "g" s2 "s2" m2);
  returned (joinGroup 3 "g" s3 "s3" m3).

Definition sixCalls : list (Z * string) :=
  [(4%Z, "m1"); (5%Z, "m2"); (6%Z, "m3"); (7%Z, "m4"); (8%Z, "m5"); (9%Z, "m6")].

(** Scenario: the three members subscribe to "t" and six messages are
    published to it. *)
Definition sixPublishes : option MessageBroker :=
  o1 ← subscribe 1 1 "x1" "s1" ["t"] acceptAll None newMessageBroker;
  b1 ← returned o1;
  o2 ← subscribe 1 2 "x2" "s2" ["t"] acceptAll None b1;
  b2 ← returned o2;
  o3 ← subscribe 1 3 "x3" "s3" ["t"] acceptAll None b2;
  b3 ← returned o3;
  publishEach sixCalls "t" b3.

(** Scenario: one subscriber that goes offline, a message "m1" published to
    its topic, then three nacks: the message is in the dead-letter queue. *)
Definition deadLetterScenario : option MessageBroker :=
  o ← subscribe 1 1 "x1" "cli" ["t"] acceptAll None newMessageBroker;
  b1 ← returned o;
  b2 ← setSubscriberOnline 1 2 (subscriberIdFor "cli" "x1") false b1;
  b3 ← returned (publish 3 "m1" "t" (samplePayload "0") "pub" noOptions b2);
  let b4 := snd (brokerNack 4 (subscriberIdFor "cli" "x1") "m1" "failed" b3) in
  let b5 := snd (brokerNack 5 (subscriberIdFor "cli" "x1") "m1" "failed" b4) in
  Some (snd (brokerNack 6 (subscriberIdFor "cli" "x1") "m1" "failed" b5)).

(** Sample states for the theorems' instances. *)

Definition waitingMessage : QueuedMessage :=
  mkQueuedMessage (sampleMessage "w1" 0) "s" 0 1 3 (Some 2005%Z).

Definition sampleQueue : MessageQueue :=
  mkMessageQueue {[ "s" := [waitingMessage; sampleQueued "m1"] ]} [] 10 10.

Definition fullQueue : MessageQueue :=
  mkMessageQueue {[ "s" := [sampleQueued "m1"; sampleQueued "m2"] ]} [] 2 1000.

Definition sampleTopic : Topic := mkTopic "t" 0 "admin" 0 0 defaultConfig.

Definition sampleTopicManager : TopicManager :=
  mkTopicManager {[ "t" := sampleTopic ]} {[ "t" := [] ]} {[ "t" := [] ]}.

Definition sampleGroup : ConsumerGroup :=
  mkGroup "g" "t" RoundRobin
          [mkMember s1 "s1" 1 1 (seq 0 8) 0 true; mkMember s2 "s2" 2 2 (seq 8 8) 0 false] 0 0 0.

Definition sampleGroupManager : ConsumerGroupManager :=
  mkGroupManager {[ "g" := sampleGroup ]} {[ s1 := "g"; s2 := "g" ]} ∅ ∅.

Definition sampleSubscriber (subscriberId clientId : string) (topics : list string)
    : Subscriber :=
  mkSubscriber subscriberId clientId topics 1 1 true 0 0 None.

(** A broker in which s1 is an online subscriber of "t". *)
Definition sampleBroker : MessageBroker :=
  mkBroker (mkTopicManager {[ "t" := sampleTopic ]} {[ "t" := [] ]} {[ "t" := [s1] ]})
           defaultMessageQueue {[ s1 := sampleSubscriber s1 "s1" ["t"] ]} ∅
           {[ s1 := acceptAll ]} 0 [] [].


(** * More of the message queue (src/pubsub/queue.ts) *)








(** Consecutive calls of [dequeue] for one subscriber: the results, in order. *)
Fixpoint dequeueTimes (n : nat) (now : Z) (subscriberId : string) (q : MessageQueue)
    : list (option QueuedMessage) * MessageQueue :=
  match n with
  | 0 => ([], q)
  | S n' =>
      let '(result, q') := dequeue now subscriberId q in
      let '(results, q'') := dequeueTimes n' now subscriberId q' in
      (result :: results, q'')
  end.

(** Consecutive calls of [enqueue] for one subscriber. *)
Definition enqueueFor (subscriberId : string) (calls : list (Z * QueuedMessage))
    (q : MessageQueue) : MessageQueue :=
  foldl (λ q c, enqueue c.1 subscriberId c.2 q) q calls.


(** * More of the topic manager (src/pubsub/topic.ts) *)

(** [removeSubscriberFromAll]: the subscriber leaves every set that holds it,
    and the subscriber count of each such topic is set to the new size. The
    array of names returned is given as a set: its order is that of the
    JavaScript map. *)
Definition removeSubscriberFromAll (subscriberId : string) (tm : TopicManager)
    : gset string * TopicManager :=
  (dom (filter (λ entry, subscriberId ∈ entry.2) (tm_topicSubscribers tm)),
   mkTopicManager
     (map_imap (λ topicName topic,
                  Some (match tm_topicSubscribers tm !! topicName with
                        | Some subscribers =>
                            if bool_decide (subscriberId ∈ subscribers)
                            then set_subscriberCount
                                   (length (filter (λ s, s ≠ subscriberId) subscribers)) topic
                            else topic
                        | None => topic
                        end))
               (tm_topics tm))
     (tm_messageHistory tm)
     (filter (λ s, s ≠ subscriberId) <$> tm_topicSubscribers tm)).

(** [purgeOldMessages]: the history of every topic that exists is trimmed
    from the front as in [recordMessage]; the result is the number of
    messages dropped. *)
Definition purgedHistory (now : Z) (tm : TopicManager) (topicName : string)
    (history : list Message) : list Message :=
  match tm_topics tm !! topicName with
  | Some topic => trimOlder (now - cfg_messageRetention (topic_config topic)) history
  | None => history
  end.

Definition purgeOldMessages (now : Z) (tm : TopicManager) : nat * TopicManager :=
  (map_fold (λ topicName history purged,
               purged + (length history - length (purgedHistory now tm topicName history)))
            0 (tm_messageHistory tm),
   mkTopicManager (tm_topics tm)
                  (map_imap (λ topicName history, Some (purgedHistory now tm topicName history))
                            (tm_messageHistory tm))
                  (tm_topicSubscribers tm)).

(** The operations of the topic manager, and a run of them. *)
Inductive TopicOp : Type :=
  | TCreate (now : Z) (name createdBy : string) (config : PartialTopicConfig)
  | TDelete (name : string)
  | TAddSubscriber (topicName subscriberId : string)
  | TRemoveSubscriber (topicName subscriberId : string)
  | TRemoveSubscriberFromAll (subscriberId : string)
  | TRecordMessage (now : Z) (message : Message)
  | TPurgeOldMessages (now : Z).

Definition applyTopicOp (tm : TopicManager) (op : TopicOp) : TopicManager :=
  match op with
  | TCreate now name createdBy config => state_of (createTopic now name createdBy config tm)
  | TDelete name => snd (deleteTopic name tm)
  | TAddSubscriber topicName subscriberId => snd (addSubscriber topicName subscriberId tm)
  | TRemoveSubscriber topicName subscriberId => snd (removeSubscriber topicName subscriberId tm)
  | TRemoveSubscriberFromAll subscriberId => snd (removeSubscriberFromAll subscriberId tm)
  | TRecordMessage now message => recordMessage now message tm
  | TPurgeOldMessages now => snd (purgeOldMessages now tm)
  end.

Definition runTopicOps (ops : list TopicOp) (tm : TopicManager) : TopicManager :=
  foldl applyTopicOp tm ops.

(** Every topic has its set of subscribers, without duplicates, and its
    subscriber count is the size of that set. *)
Definition countsInSync (tm : TopicManager) : Prop :=
  ∀ t topic, tm_topics tm !! t = Some topic →
             ∃ subscribers,
               tm_topicSubscribers tm !! t = Some subscribers
               ∧ NoDup subscribers
               ∧ topic_subscriberCount topic = length subscribers.

(** * More of the consumer-group manager (src/pubsub/consumer-group.ts) *)

Definition set_messagesProcessed (mem : ConsumerGroupMember) : ConsumerGroupMember :=
  mkMember (mem_subscriberId mem) (mem_clientId mem) (mem_joinedAt mem) (mem_lastHeartbeat mem)
           (mem_assignedPartitions mem) (S (mem_messagesProcessed mem)) (mem_isLeader mem).

(** [heartbeat] and [recordProcessed]: one field of the member found in the
    group that the subscriber is mapped to. The guard [if (!groupName) return]
    also returns when that group is named with the empty string. *)
Definition updateMember (f : ConsumerGroupMember → ConsumerGroupMember)
    (subscriberId : string) (m : ConsumerGroupManager) : ConsumerGroupManager :=
  match cgm_memberToGroup m !! subscriberId with
  | None => m
  | Some groupName =>
      if bool_decide (groupName = "") then m
      else
      match cgm_groups m !! groupName with
      | None => m
      | Some group =>
          match findEntry (isMember subscriberId) (grp_members group) with
          | Some (index, member) =>
              set_group m groupName
                (set_members group (<[index := f member]> (grp_members group)))
          | None => m
          end
      end
  end.

Definition heartbeat (now : Z) (subscriberId : string) (m : ConsumerGroupManager)
    : ConsumerGroupManager :=
  updateMember (set_lastHeartbeat now) subscriberId m.

Definition recordProcessed (subscriberId : string) (m : ConsumerGroupManager)
    : ConsumerGroupManager :=
  updateMember set_messagesProcessed subscriberId m.

(** [commitOffset]; the call to the database is outside the embedding. *)
Definition commitOffset (groupName : string) (offset : Z) (m : ConsumerGroupManager)
    : ConsumerGroupManager :=
  match cgm_groups m !! groupName with
  | None => m
  | Some group =>
      set_group m groupName
        (mkGroup (grp_name group) (grp_topic group) (grp_strategy group) (grp_members group)
                 (grp_createdAt group) (grp_currentOffset group) offset)
  end.

(** [groupName ? this.groups.get(groupName) : undefined]: the empty string is
    falsy, so a subscriber of the group named with it gets [undefined]. *)
Definition getGroupForSubscriber (subscriberId : string) (m : ConsumerGroupManager)
    : option ConsumerGroup :=
  groupName ← cgm_memberToGroup m !! subscriberId;
  if bool_decide (groupName = "") then None else cgm_groups m !! groupName.

(** [deleteGroup]: the mappings of the group's members, the group and its
    round-robin cursor are deleted. *)
Definition deleteGroup (name : string) (m : ConsumerGroupManager)
    : bool * ConsumerGroupManager :=
  match cgm_groups m !! name with
  | None => (false, m)
  | Some group =>
      (true,
       mkGroupManager (delete name (cgm_groups m))
                      (foldl (λ mtg member, delete (mem_subscriberId member) mtg)
                             (cgm_memberToGroup m) (grp_members group))
                      (delete name (cgm_roundRobinIndex m))
                      (cgm_stickyAssignments m))
  end.

(** The calls of the consumer-group manager, and a run of them. *)
Inductive GroupCall : Type :=
  | CallCreateGroup (now : Z) (name topic : string) (strategy : LoadBalanceStrategy)
  | CallJoinGroup (now : Z) (groupName subscriberId clientId : string)
  | CallLeaveGroup (subscriberId : string)
  | CallDeleteGroup (name : string)
  | CallHeartbeat (now : Z) (subscriberId : string)
  | CallRecordProcessed (subscriberId : string)
  | CallCommitOffset (groupName : string) (offset : Z)
  | CallGetNextSubscriber (random : nat) (groupName : string) (message : Message).

Definition applyGroupCall (m : ConsumerGroupManager) (call : GroupCall)
    : ConsumerGroupManager :=
  match call with
  | CallCreateGroup now name topic strategy => state_of (createGroup now name topic strategy m)
  | CallJoinGroup now groupName subscriberId clientId =>
      state_of (joinGroup now groupName subscriberId clientId m)
  | CallLeaveGroup subscriberId => leaveGroup subscriberId m
  | CallDeleteGroup name => snd (deleteGroup name m)
  | CallHeartbeat now subscriberId => heartbeat now subscriberId m
  | CallRecordProcessed subscriberId => recordProcessed subscriberId m
  | CallCommitOffset groupName offset => commitOffset groupName offset m
  | CallGetNextSubscriber random groupName message =>
      snd (getNextSubscriber random groupName message m)
  end.

Definition runGroupCalls (calls : list GroupCall) (m : ConsumerGroupManager)
    : ConsumerGroupManager :=
  foldl applyGroupCall m calls.

Definition memberIds (group : ConsumerGroup) : list string :=
  mem_subscriberId <$> grp_members group.

(** No group lists a subscriber twice, and a subscriber is mapped only to a
    group that exists and lists it. *)
Definition membersConsistent (m : ConsumerGroupManager) : Prop :=
  (∀ g group, cgm_groups m !! g = Some group → NoDup (memberIds group))
  ∧ (∀ sid g, cgm_memberToGroup m !! sid = Some g →
              ∃ group, cgm_groups m !! g = Some group ∧ sid ∈ memberIds group).

(** * More of the broker (src/pubsub/broker.ts) *)

Definition set_topics (topics : list string) (s : Subscriber) : Subscriber :=
  mkSubscriber (sub_id s) (sub_clientId s) topics (sub_createdAt s) (sub_lastActivity s)
               (sub_isOnline s) (sub_pendingMessages s) (sub_deliveredMessages s)
               (sub_filter s).

(** [unsubscribe(subscriberId, topics?)]: with topics, the subscriber leaves
    these; without, it leaves every topic and is forgotten, with its
    callback. [None] is the argument left out (an array, even an empty one,
    is truthy). *)
Definition unsubscribe (subscriberId : string) (topics : option (list string))
    (b : MessageBroker) : bool * MessageBroker :=
  match subscribers b !! subscriberId with
  | None => (false, b)
  | Some subscriber =>
      match topics with
      | Some ts =>
          let tm := foldl (λ tm topic, snd (removeSubscriber topic subscriberId tm))
                          (topicManager b) ts in
          let subscriber' :=
            set_topics (foldl (λ set topic, filter (λ t, t ≠ topic) set)
                              (sub_topics subscriber) ts) subscriber in
          (true, set_subscribers (set_topicManager b tm)
                   (<[subscriberId := subscriber']> (subscribers b)))
      | None =>
          let tm := snd (removeSubscriberFromAll subscriberId (topicManager b)) in
          (true, mkBroker tm (messageQueue b) (delete subscriberId (subscribers b))
                          (publishers b) (delete subscriberId (messageCallbacks b))
                          (totalMessages b) (messagesLastMinute b) (sinkCalls b))
      end
  end.


(** What routing a message to the other subscribers leaves alone: the topics,
    the callbacks, the limit of the queues and, of the subscriber itself,
    its record, its queue and the calls of its sink. *)
Definition untouched (subscriberId : string) (b b' : MessageBroker) : Prop :=
  topicManager b' = topicManager b
  ∧ messageCallbacks b' = messageCallbacks b
  ∧ mq_maxQueueSize (messageQueue b') = mq_maxQueueSize (messageQueue b)
  ∧ subscribers b' !! subscriberId = subscribers b !! subscriberId
  ∧ mq_queues (messageQueue b') !! subscriberId
    = mq_queues (messageQueue b) !! subscriberId
  ∧ sinkCallsFor subscriberId b' = sinkCallsFor subscriberId b.


(** * Sample states for the further properties *)

(** A sink that throws on every message. *)
Definition rejectAll : Message → bool := λ _, false.

(** A queued message that has one attempt left. *)
Definition lastChance : QueuedMessage :=
  mkQueuedMessage (sampleMessage "m9" 0) "s" 0 2 3 None.

Definition lastChanceQueue : MessageQueue :=
  mkMessageQueue {[ "s" := [waitingMessage; lastChance] ]} [] 10 10.

(** A broker with one entry in the dead-letter queue. *)
Definition deadLetterBroker : MessageBroker :=
  set_messageQueue newMessageBroker
    (mkMessageQueue ∅ [deadLetterOf 4 (sampleQueued "m1") "failed"] 10 10).

(** A topic that keeps messages for 50 ms, with a history of two messages. *)
Definition historyTopic : Topic :=
  mkTopic "t" 0 "admin" 2 0 (mkTopicConfig 1000 50 3 5000 false).

Definition historyTopicManager : TopicManager :=
  mkTopicManager {[ "t" := historyTopic ]}
                 {[ "t" := [sampleMessage "m1" 10; sampleMessage "m2" 100] ]}
                 {[ "t" := [] ]}.

Definition topicRun : list TopicOp :=
  [TCreate 0 "t" "admin" noOverrides; TAddSubscriber "t" s1; TAddSubscriber "t" s2;
   TRemoveSubscriber "t" s1].

Definition stickyGroup : ConsumerGroup :=
  mkGroup "g" "t" Sticky (grp_members sampleGroup) 0 0 0.

Definition stickyGroupManager : ConsumerGroupManager :=
  mkGroupManager {[ "g" := stickyGroup ]} {[ s1 := "g"; s2 := "g" ]} ∅ ∅.

(** The sample broker with s1 offline, and with a sink that throws. *)
Definition offlineBroker : MessageBroker :=
  set_subscribers sampleBroker {[ s1 := set_online 1 false (sampleSubscriber s1 "s1" ["t"]) ]}.

Definition throwingBroker : MessageBroker :=
  mkBroker (topicManager sampleBroker) (messageQueue sampleBroker) (subscribers sampleBroker)
           (publishers sampleBroker) {[ s1 := rejectAll ]} 0 [] [].

(** Two messages wait in the queue of s1. *)
Definition waitingQueue : MessageQueue :=
  mkMessageQueue {[ s1 := [sampleQueued "m1"; sampleQueued "m2"] ]} [] 10000 1000.

Definition backlogBroker : MessageBroker := set_messageQueue offlineBroker waitingQueue.

Definition stuckBroker : MessageBroker := set_messageQueue throwingBroker waitingQueue.

(** * Properties *)

(** ** Arrays *)

Section FindEntry.
Context {A : Type} (p : A → bool).

Lemma findEntry_Some (l : list A) (i : nat) (x : A) :
  findEntry p l = Some (i, x) →
  ∃ before after,
    l = before ++ x :: after ∧ length before = i ∧ p x = true ∧
    Forall (λ y, p y = false) before.
Proof.
  revert i. induction l as [|y r IH]; intros i H; simpl in H; [done|].
  destruct (p y) eqn:Hy.
  - injection H as <- <-. by exists [], r.
  - destruct (findEntry p r) as [[j z]|] eqn:Hr; simpl in H; [|done].
    injection H as <- <-.
    destruct (IH j eq_refl) as (before & after & -> & <- & Hx & Hall).
    exists (y :: before), after. repeat split; auto.
Qed.

Lemma findEntry_first (before after : list A) (x : A) :
  Forall (λ y, p y = false) before → p x = true →
  findEntry p (before ++ x :: after) = Some (length before, x).
Proof.
  intros Hall Hx. induction Hall as [|y r Hy _ IH]; simpl.
  - by rewrite Hx.
  - by rewrite Hy, IH.
Qed.

Lemma findEntry_None (l : list A) :
  findEntry p l = None ↔ Forall (λ y, p y = false) l.
Proof.
  induction l as [|y r IH]; simpl; [by split|].
  destruct (p y) eqn:Hy.
  - split; [done|]. intros H. inversion H; congruence.
  - destruct (findEntry p r) as [[j z]|]; simpl.
    + split; [done|]. intros H. inversion H as [|? ? _ Hr]. by apply IH in Hr.
    + split; [|done]. intros _. constructor; [done|]. by apply IH.
Qed.

Lemma findIndex_findEntry (l : list A) : findIndex p l = fst <$> findEntry p l.
Proof.
  induction l as [|y r IH]; simpl; [done|].
  destruct (p y); [done|]. rewrite IH. by destruct (findEntry p r) as [[j z]|].
Qed.
End FindEntry.

Lemma delete_middle {A : Type} (before after : list A) (x : A) :
  delete (length before) (before ++ x :: after) = before ++ after.
Proof. induction before as [|y r IH]; simpl; [done|]. by rewrite IH. Qed.

Lemma insert_middle {A : Type} (before after : list A) (x y : A) :
  <[length before := y]> (before ++ x :: after) = before ++ y :: after.
Proof. induction before as [|z r IH]; simpl; [done|]. by rewrite IH. Qed.

(** ** MessageQueue *)

Lemma hasId_false (messageId : string) (m : QueuedMessage) :
  hasId messageId m = false ↔ qm_id m ≠ messageId.
Proof. unfold hasId. by rewrite bool_decide_eq_false. Qed.

Lemma hasId_true (messageId : string) (m : QueuedMessage) :
  hasId messageId m = true ↔ qm_id m = messageId.
Proof. unfold hasId. by rewrite bool_decide_eq_true. Qed.

Lemma set_messageQueue_same (b : MessageBroker) : set_messageQueue b (messageQueue b) = b.
Proof. by destruct b. Qed.

(** [C10] Error atomicity of [ack] and [nack]: when the subscriber has no
    queue, or its queue holds no message with the given id, both return
    false and the whole queue state (every subscriber queue and the
    dead-letter queue) is the one before the call; the same holds at the
    broker's [ack] and [nack]. *)
Theorem ack_nack_missing_unchanged
    (b : MessageBroker) (now : Z) (subscriberId messageId reason : string) :
  (mq_queues (messageQueue b) !! subscriberId = None
   ∨ ∃ queue, mq_queues (messageQueue b) !! subscriberId = Some queue
              ∧ ∀ m, m ∈ queue → qm_id m ≠ messageId) →
  ack subscriberId messageId (messageQueue b) = (false, messageQueue b)
  ∧ nack now subscriberId messageId reason (messageQueue b) = (false, messageQueue b)
  ∧ brokerAck subscriberId messageId b = (false, b)
  ∧ brokerNack now subscriberId messageId reason b = (false, b).
Proof.
  intros H.
  assert (ack subscriberId messageId (messageQueue b) = (false, messageQueue b)
          ∧ nack now subscriberId messageId reason (messageQueue b) = (false, messageQueue b))
    as [Hack Hnack].
  { unfold ack, nack. destruct H as [-> | (queue & -> & Hno)]; [done|].
    assert (findEntry (hasId messageId) queue = None) as Hnone.
    { apply findEntry_None, Forall_forall. intros m Hm. by apply hasId_false, Hno. }
    by rewrite findIndex_findEntry, Hnone. }
  unfold brokerAck, brokerNack. rewrite Hack, Hnack, set_messageQueue_same. done.
Qed.

Lemma isReady_due (now : Z) (m : QueuedMessage) :
  (0 ≤ now)%Z → isReady now m = true ↔ due now m.
Proof.
  intros Hnow. unfold isReady, due. destruct (qm_nextRetryAt m) as [t|]; [|done].
  rewrite orb_true_iff, Z.eqb_eq, Z.leb_le. lia.
Qed.

Lemma isReady_waiting (now : Z) (m : QueuedMessage) :
  (0 ≤ now)%Z → isReady now m = false ↔ waiting now m.
Proof.
  intros Hnow. unfold isReady, waiting. destruct (qm_nextRetryAt m) as [t|].
  - rewrite orb_false_iff, Z.eqb_neq, Z.leb_gt. split.
    + intros [_ H]. by exists t.
    + intros (t' & [= <-] & H). lia.
  - split; [done|]. by intros (t & ? & _).
Qed.

(** [C7] [dequeue] returns and removes the first message of the subscriber's
    queue that is due (its nextRetryAt unset or at most now): the messages
    before it, all waiting, and the messages after it stay in their order,
    and nothing else changes. It returns none, and leaves the state as it
    was, when the subscriber has no queue or every message of the queue (if
    any) is waiting. The clock reads a time that is not negative. *)
Theorem dequeue_first_due (q : MessageQueue) (now : Z) (subscriberId : string) :
  (0 ≤ now)%Z →
  (∀ before m after,
      mq_queues q !! subscriberId = Some (before ++ m :: after) →
      Forall (waiting now) before → due now m →
      dequeue now subscriberId q = (Some m, set_queue q subscriberId (before ++ after)))
  ∧ ((mq_queues q !! subscriberId = None
      ∨ ∃ queue, mq_queues q !! subscriberId = Some queue ∧ Forall (waiting now) queue) →
     dequeue now subscriberId q = (None, q))
  ∧ (∀ m q', dequeue now subscriberId q = (Some m, q') →
      ∃ before after,
        mq_queues q !! subscriberId = Some (before ++ m :: after)
        ∧ Forall (waiting now) before ∧ due now m
        ∧ mq_queues q' = <[subscriberId := before ++ after]> (mq_queues q)
        ∧ mq_deadLetterQueue q' = mq_deadLetterQueue q).
Proof.
  intros Hnow. split; [|split].
  - intros before m after Hq Hbefore Hm. unfold dequeue. rewrite Hq.
    rewrite bool_decide_eq_false_2 by (rewrite length_app; simpl; lia).
    rewrite (findEntry_first (isReady now) before after m).
    + by rewrite delete_middle.
    + eapply Forall_impl; [exact Hbefore|]. intros x Hx. by apply isReady_waiting.
    + by apply isReady_due.
  - intros H. unfold dequeue. destruct H as [-> | (queue & -> & Hall)]; [done|].
    case_bool_decide; [done|].
    assert (findEntry (isReady now) queue = None) as ->; [|done].
    apply findEntry_None. eapply Forall_impl; [exact Hall|].
    intros x Hx. by apply isReady_waiting.
  - intros m q' H. unfold dequeue in H.
    destruct (mq_queues q !! subscriberId) as [queue|] eqn:Hq; [|done].
    case_bool_decide; [done|].
    destruct (findEntry (isReady now) queue) as [[i x]|] eqn:Hfind; [|done].
    injection H as <- <-.
    destruct (findEntry_Some _ _ _ _ Hfind) as (before & after & -> & <- & Hx & Hall).
    exists before, after. rewrite delete_middle. repeat split; auto.
    + eapply Forall_impl; [exact Hall|]. intros y Hy. by apply isReady_waiting.
    + by apply isReady_due.
Qed.

Lemma moveToDeadLetter_queues (now : Z) (m : QueuedMessage) (reason : string)
    (q : MessageQueue) :
  mq_queues (moveToDeadLetter now m reason q) = mq_queues q
  ∧ mq_maxQueueSize (moveToDeadLetter now m reason q) = mq_maxQueueSize q
  ∧ mq_maxDeadLetterSize (moveToDeadLetter now m reason q) = mq_maxDeadLetterSize q.
Proof. done. Qed.

Lemma last_tail_snoc {A : Type} (l : list A) (x : A) :
  1 < length (l ++ [x]) → last (tail (l ++ [x])) = Some x.
Proof.
  destruct l as [|y l]; simpl; [lia|]. intros _. apply last_snoc.
Qed.

(** The entry pushed by [moveToDeadLetter] is the newest of the dead-letter
    queue, as long as that queue may hold one entry. *)
Lemma moveToDeadLetter_last (now : Z) (m : QueuedMessage) (reason : string)
    (q : MessageQueue) :
  (1 ≤ mq_maxDeadLetterSize q)%Z →
  last (mq_deadLetterQueue (moveToDeadLetter now m reason q))
  = Some (deadLetterOf now m reason).
Proof.
  intros Hmax. unfold moveToDeadLetter, deadLetterOf. simpl.
  destruct (Z.ltb_spec (mq_maxDeadLetterSize q)
              (Z.of_nat (length (mq_deadLetterQueue q ++
                 [mkDeadLetterMessage m reason now (msg_topic (qm_base m))])))) as [Hlt|Hge].
  - apply last_tail_snoc. lia.
  - apply last_snoc.
Qed.

Lemma nack_found (q : MessageQueue) (now : Z) (subscriberId messageId reason : string)
    (before after : list QueuedMessage) (m : QueuedMessage) :
  mq_queues q !! subscriberId = Some (before ++ m :: after) →
  Forall (λ x, qm_id x ≠ messageId) before → qm_id m = messageId →
  nack now subscriberId messageId reason q =
    (true,
     if (qm_maxRetries m <=? Z.of_nat (S (qm_attempts m)))%Z
     then moveToDeadLetter now (rescheduled m (S (qm_attempts m)) (qm_nextRetryAt m)) reason
            (set_queue q subscriberId (before ++ after))
     else set_queue q subscriberId
            (before ++ rescheduled m (S (qm_attempts m))
                         (Some (now + backoffMs (S (qm_attempts m)))%Z) :: after)).
Proof.
  intros Hq Hbefore Hm. unfold nack. rewrite Hq.
  rewrite (findEntry_first (hasId messageId) before after m).
  - simpl. destruct (qm_maxRetries m <=? Z.of_nat (S (qm_attempts m)))%Z.
    + by rewrite delete_middle.
    + by rewrite insert_middle.
  - eapply Forall_impl; [exact Hbefore|]. intros x Hx. by apply hasId_false.
  - by apply hasId_true.
Qed.

Lemma nackTimes_attempts (times : list Z) (lastNow : Z) :
  ∀ (q : MessageQueue) (subscriberId messageId reason : string)
    (before after : list QueuedMessage) (m : QueuedMessage),
  mq_queues q !! subscriberId = Some (before ++ m :: after) →
  Forall (λ x, qm_id x ≠ messageId) before → qm_id m = messageId →
  (Z.of_nat (qm_attempts m + length (times ++ [lastNow])) < qm_maxRetries m)%Z →
  mq_queues (nackTimes (times ++ [lastNow]) subscriberId messageId reason q) !! subscriberId
  = Some (before
          ++ rescheduled m (qm_attempts m + length (times ++ [lastNow]))
               (Some (lastNow + backoffMs (qm_attempts m + length (times ++ [lastNow])))%Z)
          :: after).
Proof.
  induction times as [|now times IH]; intros q subscriberId messageId reason before after m
    Hq Hbefore Hm Hlt; simpl in *.
  - rewrite (nack_found q lastNow subscriberId messageId reason before after m) by done.
    simpl. rewrite (proj2 (Z.leb_gt _ _)) by lia. simpl.
    rewrite lookup_insert_eq. by replace (qm_attempts m + 1) with (S (qm_attempts m)) by lia.
  - rewrite (nack_found q now subscriberId messageId reason before after m) by done.
    simpl. rewrite (proj2 (Z.leb_gt _ _)) by lia.
    erewrite IH; [| simpl; apply lookup_insert_eq | done | done | simpl; lia ].
    unfold rescheduled. simpl.
    by replace (qm_attempts m + S (length (times ++ [lastNow])))
      with (S (qm_attempts m + length (times ++ [lastNow]))) by lia.
Qed.

(** [C4] [nack] on a message of the subscriber's queue (the first one with
    the given id) increments its attempts counter and returns true. When the
    incremented counter reaches maxRetries the message leaves the queue and
    is moved to the dead-letter queue, where it is the newest entry;
    otherwise it stays in place with nextRetryAt = now + min(1000 * 2^attempts,
    60000) for the incremented attempts. So k consecutive nacks (k at least
    1 and below maxRetries) of a message queued with attempts 0 leave it
    with attempts k and a retry time min(1000 * 2^k, 60000) after the time
    of the last nack. *)
Theorem nack_backoff_or_dead_letter
    (q : MessageQueue) (now : Z) (subscriberId messageId reason : string)
    (before after : list QueuedMessage) (m : QueuedMessage) :
  mq_queues q !! subscriberId = Some (before ++ m :: after) →
  Forall (λ x, qm_id x ≠ messageId) before → qm_id m = messageId →
  let attempts := S (qm_attempts m) in
  let q' := snd (nack now subscriberId messageId reason q) in
  fst (nack now subscriberId messageId reason q) = true
  ∧ ((qm_maxRetries m ≤ Z.of_nat attempts)%Z →
       mq_queues q' = <[subscriberId := before ++ after]> (mq_queues q)
       ∧ ((1 ≤ mq_maxDeadLetterSize q)%Z →
          last (mq_deadLetterQueue q')
          = Some (deadLetterOf now (rescheduled m attempts (qm_nextRetryAt m)) reason)))
  ∧ ((Z.of_nat attempts < qm_maxRetries m)%Z →
       mq_queues q' =
         <[subscriberId :=
             before ++ rescheduled m attempts
                         (Some (now + Z.min (1000 * 2 ^ Z.of_nat attempts) 60000)%Z)
                    :: after]> (mq_queues q)
       ∧ mq_deadLetterQueue q' = mq_deadLetterQueue q)
  ∧ (∀ (times : list Z) (lastNow : Z),
       let k := length (times ++ [lastNow]) in
       qm_attempts m = 0 → (Z.of_nat k < qm_maxRetries m)%Z →
       mq_queues (nackTimes (times ++ [lastNow]) subscriberId messageId reason q)
         !! subscriberId
       = Some (before
               ++ rescheduled m k (Some (lastNow + Z.min (1000 * 2 ^ Z.of_nat k) 60000)%Z)
               :: after)).
Proof.
  intros Hq Hbefore Hm attempts q'. subst attempts q'.
  rewrite (nack_found q now subscriberId messageId reason before after m) by done.
  simpl. split; [done|]. split; [|split].
  - intros Hge. rewrite (proj2 (Z.leb_le _ _)) by lia. split; [done|].
    intros Hmax. by apply moveToDeadLetter_last.
  - intros Hlt. by rewrite (proj2 (Z.leb_gt _ _)) by lia.
  - intros times lastNow H0 Hk.
    rewrite (nackTimes_attempts times lastNow q subscriberId messageId reason before after m)
      by (try done; rewrite H0; simpl; lia).
    by rewrite H0.
Qed.

Lemma enqueue_limits (now : Z) (subscriberId : string) (message : QueuedMessage)
    (q : MessageQueue) :
  mq_maxQueueSize (enqueue now subscriberId message q) = mq_maxQueueSize q
  ∧ mq_maxDeadLetterSize (enqueue now subscriberId message q) = mq_maxDeadLetterSize q.
Proof.
  unfold enqueue. destruct (_ <=? _)%Z; [|done].
  by destruct (default [] (mq_queues q !! subscriberId)).
Qed.

(** One [enqueue] keeps every queue within the limit of the message queue
    (a limit below 1 still lets one message in). *)
Lemma enqueue_depth_bound (now : Z) (subscriberId : string) (message : QueuedMessage)
    (q : MessageQueue) :
  (∀ s, (Z.of_nat (getQueueDepth s q) ≤ Z.max 1 (mq_maxQueueSize q))%Z) →
  ∀ s, (Z.of_nat (getQueueDepth s (enqueue now subscriberId message q))
        ≤ Z.max 1 (mq_maxQueueSize (enqueue now subscriberId message q)))%Z.
Proof.
  intros Hq s. rewrite (proj1 (enqueue_limits now subscriberId message q)).
  specialize (Hq s) as Hs. specialize (Hq subscriberId) as Hsub.
  unfold getQueueDepth in *. unfold enqueue.
  destruct (Z.leb_spec (mq_maxQueueSize q)
              (Z.of_nat (length (default [] (mq_queues q !! subscriberId))))) as [Hfull|Hroom].
  - destruct (default [] (mq_queues q !! subscriberId)) as [|evicted rest] eqn:Hqueue; simpl.
    + destruct (decide (subscriberId = s)) as [->|Hne].
      * rewrite lookup_insert_eq. simpl. lia.
      * by rewrite lookup_insert_ne.
    + destruct (decide (subscriberId = s)) as [->|Hne].
      * rewrite lookup_insert_eq. simpl in *. rewrite length_app. simpl. lia.
      * by rewrite lookup_insert_ne.
  - simpl. destruct (decide (subscriberId = s)) as [->|Hne].
    + rewrite lookup_insert_eq. simpl. rewrite length_app. simpl. lia.
    + by rewrite lookup_insert_ne.
Qed.

Lemma enqueueAll_depth_bound (calls : list (Z * string * QueuedMessage)) (q : MessageQueue) :
  (∀ s, (Z.of_nat (getQueueDepth s q) ≤ Z.max 1 (mq_maxQueueSize q))%Z) →
  ∀ s, (Z.of_nat (getQueueDepth s (enqueueAll calls q))
        ≤ Z.max 1 (mq_maxQueueSize (enqueueAll calls q)))%Z.
Proof.
  unfold enqueueAll. revert q.
  induction calls as [|[[now sub] m] calls IH]; intros q Hq; simpl; [done|].
  apply IH. by apply enqueue_depth_bound.
Qed.

Lemma enqueueAll_maxQueueSize (calls : list (Z * string * QueuedMessage)) (q : MessageQueue) :
  mq_maxQueueSize (enqueueAll calls q) = mq_maxQueueSize q.
Proof.
  unfold enqueueAll. revert q.
  induction calls as [|[[now sub] m] calls IH]; intros q; simpl; [done|].
  rewrite IH. apply enqueue_limits.
Qed.

(** The limit that [enqueue] keeps is the maxQueueSize of the message queue
    itself (10000 as the broker builds it): after any sequence of [enqueue]
    calls on a new message queue, every subscriber's queue holds at most that
    many messages (one, when the limit is below 1). An [enqueue] that finds the
    queue at the limit evicts the oldest message, which becomes the newest
    dead-letter entry with reason 'Queue overflow - message evicted'. With a
    limit of 2, three messages enqueued for one subscriber leave a queue of
    depth 2 and one dead-letter entry, for the first message. *)
Theorem enqueue_bounded_by_queue_limit
    (maxQueueSize maxDeadLetterSize : Z) (calls : list (Z * string * QueuedMessage))
    (q : MessageQueue) (now : Z) (subscriberId : string)
    (oldest message : QueuedMessage) (rest : list QueuedMessage) :
  mq_queues q !! subscriberId = Some (oldest :: rest) →
  (mq_maxQueueSize q ≤ Z.of_nat (length (oldest :: rest)))%Z →
  (1 ≤ mq_maxDeadLetterSize q)%Z →
  (∀ s, (Z.of_nat (getQueueDepth s
                     (enqueueAll calls (newMessageQueue maxQueueSize maxDeadLetterSize)))
         ≤ Z.max 1 maxQueueSize)%Z)
  ∧ (mq_queues (enqueue now subscriberId message q) !! subscriberId = Some (rest ++ [message])
     ∧ last (mq_deadLetterQueue (enqueue now subscriberId message q))
       = Some (deadLetterOf now oldest overflowReason))
  ∧ (let q3 := enqueueAll [(1%Z, "s", sampleQueued "m1"); (2%Z, "s", sampleQueued "m2");
                           (3%Z, "s", sampleQueued "m3")] (newMessageQueue 2 1000) in
     getQueueDepth "s" q3 = 2
     ∧ mq_deadLetterQueue q3 = [deadLetterOf 3 (sampleQueued "m1") overflowReason]).
Proof.
  intros Hq Hfull Hdead. split; [|split].
  - intros s.
    pose proof (enqueueAll_depth_bound calls (newMessageQueue maxQueueSize maxDeadLetterSize))
      as H.
    rewrite enqueueAll_maxQueueSize in H. apply H.
    intros s'. unfold getQueueDepth. simpl. rewrite lookup_empty. simpl. lia.
  - unfold enqueue. rewrite Hq. simpl default.
    rewrite (proj2 (Z.leb_le _ _)) by exact Hfull.
    split.
    + simpl. apply lookup_insert_eq.
    + change (mq_deadLetterQueue (set_queue ?x _ _)) with (mq_deadLetterQueue x).
      by apply moveToDeadLetter_last.
  - by vm_compute.
Qed.

(** [C2] fails on the code. The topic's maxQueueSize, which types.ts
    documents as the maximum number of messages to queue per subscriber, is
    read by nothing: the broker builds its message queue with the default
    limit of 10000 and [enqueue] compares against that. With the topic's
    maxQueueSize set to 2 and the subscriber offline, three published
    messages are all in the subscriber's queue and the dead-letter queue is
    empty. *)
Lemma topic_maxQueueSize_not_enforced :
  ∃ b topic,
    overflowScenario = Some b
    ∧ getTopic "t" (topicManager b) = Some topic
    ∧ cfg_maxQueueSize (topic_config topic) = 2%Z
    ∧ mq_maxQueueSize (messageQueue b) = 10000%Z
    ∧ getQueueDepth (subscriberIdFor "cli" "x1") (messageQueue b) = 3
    ∧ ¬ (Z.of_nat (getQueueDepth (subscriberIdFor "cli" "x1") (messageQueue b))
         ≤ cfg_maxQueueSize (topic_config topic))%Z
    ∧ getDeadLetterQueue (messageQueue b) = [].
Proof.
  eexists _, _.
  split; [vm_compute; reflexivity|].
  split; [vm_compute; reflexivity|].
  split; [vm_compute; reflexivity|].
  split; [vm_compute; reflexivity|].
  split; [vm_compute; reflexivity|].
  split; [|vm_compute; reflexivity].
  vm_compute. intros H. by apply H.
Qed.

(** ** TopicManager *)

Lemma isTopicChar_allowed (c : ascii) : isTopicChar c = bool_decide (c ∈ allowedChars).
Proof. destruct c as [[] [] [] [] [] [] [] []]; vm_compute; reflexivity. Qed.

Lemma validTopicName_spec (name : string) :
  validTopicName name = true ↔
  name ≠ "" ∧ ∀ c, c ∈ list_ascii_of_string name → c ∈ allowedChars.
Proof.
  unfold validTopicName. destruct name as [|c0 rest].
  - simpl. split; [done|]. by intros [H _].
  - change (list_ascii_of_string (String c0 rest)) with (c0 :: list_ascii_of_string rest).
    rewrite forallb_forall. split.
    + intros H. split; [done|]. intros c Hc.
      apply list_elem_of_In, H in Hc. rewrite isTopicChar_allowed in Hc.
      by apply bool_decide_eq_true in Hc.
    + intros [_ H] c Hc. rewrite isTopicChar_allowed. apply bool_decide_eq_true, H.
      by apply list_elem_of_In.
Qed.

Lemma hasTopic_true (name : string) (tm : TopicManager) :
  hasTopic name tm = true ↔ is_Some (tm_topics tm !! name).
Proof. unfold hasTopic. by rewrite bool_decide_eq_true. Qed.

Lemma hasTopic_false (name : string) (tm : TopicManager) :
  hasTopic name tm = false ↔ tm_topics tm !! name = None.
Proof. unfold hasTopic. by rewrite bool_decide_eq_false, eq_None_not_Some. Qed.

(** [C6], as the code has it. [createTopic] fails with AlreadyExists when a
    topic of that name exists; otherwise it fails with InvalidName when the
    name is empty or holds a character outside alphanumerics and . - _ * #;
    otherwise it returns (and stores) a topic named as asked, with both
    counters 0, whose configuration is the defaults maxQueueSize = 1000,
    messageRetention = 3600000, maxRetries = 3, retryDelay = 5000,
    requireAck = false overlaid with the overrides given. A failure leaves
    the topic manager as it was. *)
Theorem createTopic_outcomes
    (tm : TopicManager) (now : Z) (name createdBy : string) (config : PartialTopicConfig) :
  (is_Some (tm_topics tm !! name) →
     createTopic now name createdBy config tm = Thrown AlreadyExists tm)
  ∧ (tm_topics tm !! name = None →
     (name = "" ∨ ∃ c, c ∈ list_ascii_of_string name ∧ c ∉ allowedChars) →
     createTopic now name createdBy config tm = Thrown InvalidName tm)
  ∧ (tm_topics tm !! name = None →
     name ≠ "" → (∀ c, c ∈ list_ascii_of_string name → c ∈ allowedChars) →
     ∃ topic tm',
       createTopic now name createdBy config tm = Returned topic tm'
       ∧ topic = mkTopic name now createdBy 0 0
                   (mkTopicConfig (default 1000%Z (pcfg_maxQueueSize config))
                                  (default 3600000%Z (pcfg_messageRetention config))
                                  (default 3%Z (pcfg_maxRetries config))
                                  (default 5000%Z (pcfg_retryDelay config))
                                  (default false (pcfg_requireAck config)))
       ∧ tm_topics tm' = <[name := topic]> (tm_topics tm)
       ∧ tm_messageHistory tm' = <[name := []]> (tm_messageHistory tm)
       ∧ tm_topicSubscribers tm' = <[name := []]> (tm_topicSubscribers tm)).
Proof.
  unfold createTopic. split; [|split].
  - intros H. by rewrite (proj2 (hasTopic_true name tm) H).
  - intros Hnew Hbad. rewrite (proj2 (hasTopic_false name tm) Hnew).
    destruct (validTopicName name) eqn:Hvalid; [|done].
    apply validTopicName_spec in Hvalid as [Hne Hall].
    destruct Hbad as [->|(c & Hc & Hout)]; [done|]. by apply Hall in Hc.
  - intros Hnew Hne Hall. rewrite (proj2 (hasTopic_false name tm) Hnew).
    rewrite (proj2 (validTopicName_spec name)) by done. simpl.
    eexists _, _. by repeat split.
Qed.

(** [C6], as stated, fails for the empty name: it holds no character at all,
    so none outside the allowed ones, and no topic has that name, yet
    [createTopic] fails with InvalidName. *)
Lemma createTopic_empty_name_invalid :
  tm_topics newTopicManager !! "" = None
  ∧ (∀ c, c ∈ list_ascii_of_string "" → c ∈ allowedChars)
  ∧ createTopic 0 "" "admin" noOverrides newTopicManager = Thrown InvalidName newTopicManager
  ∧ ¬ ∃ topic tm', createTopic 0 "" "admin" noOverrides newTopicManager = Returned topic tm'.
Proof.
  split; [done|]. split; [by intros c Hc; apply elem_of_nil in Hc|].
  split; [done|]. by intros (topic & tm' & H).
Qed.

(** [trimOlder] drops a prefix of messages older than the cutoff and stops
    at the first message that is not. *)
Lemma trimOlder_drop (cutoff : Z) (history : list Message) :
  ∃ n : nat,
    trimOlder cutoff history = drop n history
    ∧ Forall (λ m, (msg_timestamp m < cutoff)%Z) (take n history)
    ∧ ∀ m, history !! n = Some m → (cutoff ≤ msg_timestamp m)%Z.
Proof.
  induction history as [|m rest IH]; simpl.
  - exists 0%nat. by repeat split.
  - destruct (Z.ltb_spec (msg_timestamp m) cutoff) as [Hold|Hnew].
    + destruct IH as (n & Heq & Hpre & Hhead). exists (S n). simpl.
      split; [done|]. split; [by constructor|done].
    + exists 0%nat. simpl. split; [done|]. split; [constructor|].
      intros m' [= <-]. done.
Qed.

Lemma trimToMax_drop (k : nat) (history : list Message) :
  trimToMax k history = drop (length history - k) history.
Proof.
  induction history as [|m rest IH]; [done|].
  cbn [trimToMax]. destruct (Nat.ltb_spec k (length (m :: rest))) as [Hlt|Hge].
  - rewrite IH. simpl in Hlt. simpl length.
    by replace (S (length rest) - k)%nat with (S (length rest - k)) by lia.
  - by replace (length (m :: rest) - k)%nat with 0%nat by lia.
Qed.

Lemma recent_when_chronological (cutoff : Z) (history : list Message) (n k : nat) :
  chronological history →
  (∀ m, history !! n = Some m → (cutoff ≤ msg_timestamp m)%Z) →
  ∀ m, m ∈ drop k (drop n history) → (cutoff ≤ msg_timestamp m)%Z.
Proof.
  intros Hchron Hhead m Hm.
  apply list_elem_of_lookup in Hm as [i Hi].
  rewrite !lookup_drop in Hi.
  assert (n < length history)%nat as Hn by (apply lookup_lt_Some in Hi; lia).
  apply lookup_lt_is_Some in Hn as [h Hh].
  specialize (Hhead h Hh).
  assert (msg_timestamp h ≤ msg_timestamp m)%Z; [|lia].
  apply (Hchron n (n + (k + i))%nat); [lia|done|done].
Qed.

(** [C5], as the code has it. [recordMessage] on an existing topic
    increments the topic's message counter, appends the message, drops from
    the front the messages older than now - messageRetention up to the
    first one that is not, then drops from the front what exceeds 1000
    messages. The history left has at most 1000 messages; it holds no
    message older than now - messageRetention when the history with the new
    message appended is chronological (the trim stops at the first message
    that is recent enough, so an older message behind it stays). *)
Theorem recordMessage_history_bounds (tm : TopicManager) (now : Z) (message : Message)
    (topic : Topic) :
  tm_topics tm !! msg_topic message = Some topic →
  let appended := default [] (tm_messageHistory tm !! msg_topic message) ++ [message] in
  let cutoff := (now - cfg_messageRetention (topic_config topic))%Z in
  let tm' := recordMessage now message tm in
  ∃ (history : list Message) (n : nat),
    tm_messageHistory tm' !! msg_topic message = Some history
    ∧ (length history ≤ 1000)%nat
    ∧ (chronological appended → ∀ m, m ∈ history → (cutoff ≤ msg_timestamp m)%Z)
    ∧ topic_messageCount <$> tm_topics tm' !! msg_topic message
      = Some (S (topic_messageCount topic))
    ∧ Forall (λ m, (msg_timestamp m < cutoff)%Z) (take n appended)
    ∧ (∀ m, appended !! n = Some m → (cutoff ≤ msg_timestamp m)%Z)
    ∧ history = drop (length (drop n appended) - 1000) (drop n appended).
Proof.
  intros Htopic appended cutoff tm'. subst tm'. unfold recordMessage. rewrite Htopic.
  fold appended. fold cutoff. simpl.
  destruct (trimOlder_drop cutoff appended) as (n & Heq & Hpre & Hhead).
  exists (trimToMax maxHistory (trimOlder cutoff appended)), n.
  rewrite !lookup_insert_eq. rewrite trimToMax_drop, Heq. unfold maxHistory.
  repeat split; auto.
  - rewrite length_drop. lia.
  - intros Hchron m Hm. by eapply recent_when_chronological.
Qed.

(** [C5], as stated, fails when a message older than the head of the history
    is recorded: the head is recent enough, the trim stops there, and the
    older message stays in the history. *)
Lemma recordMessage_keeps_stale_message :
  ∃ tm topic history m,
    staleScenario = Some tm
    ∧ tm_topics tm !! "t" = Some topic
    ∧ cfg_messageRetention (topic_config topic) = 50%Z
    ∧ tm_messageHistory tm !! "t" = Some history
    ∧ m ∈ history
    ∧ (msg_timestamp m < 100 - cfg_messageRetention (topic_config topic))%Z.
Proof.
  eexists _, _, _, (sampleMessage "m2" 10).
  split; [vm_compute; reflexivity|].
  split; [vm_compute; reflexivity|].
  split; [vm_compute; reflexivity|].
  split; [vm_compute; reflexivity|].
  split; [|vm_compute; reflexivity].
  apply list_elem_of_further, list_elem_of_here.
Qed.

(** ** ConsumerGroupManager *)



Lemma assignPartitions_leaders (perMember remainder : nat) (members : list ConsumerGroupMember) :
  ∀ i partitionIndex,
    mem_isLeader <$> assignPartitions perMember remainder i partitionIndex members
    = mem_isLeader <$> members
    ∧ mem_subscriberId <$> assignPartitions perMember remainder i partitionIndex members
      = mem_subscriberId <$> members.
Proof.
  induction members as [|x rest IH]; intros i partitionIndex; [done|]. split.
  - exact (f_equal (cons (mem_isLeader x)) (proj1 (IH _ _))).
  - exact (f_equal (cons (mem_subscriberId x)) (proj2 (IH _ _))).
Qed.


Lemma rebalance_groups (groupName g : string) (m : ConsumerGroupManager) :
  (λ grp, (mem_isLeader <$> grp_members grp, mem_subscriberId <$> grp_members grp))
    <$> cgm_groups (rebalance groupName m) !! g
  = (λ grp, (mem_isLeader <$> grp_members grp, mem_subscriberId <$> grp_members grp))
    <$> cgm_groups m !! g.
Proof.
  unfold rebalance. destruct (cgm_groups m !! groupName) as [group|] eqn:Hg; [|done].
  case_bool_decide; [done|]. simpl.
  destruct (decide (groupName = g)) as [<-|Hne].
  - rewrite lookup_insert_eq, Hg. simpl.
    by destruct (assignPartitions_leaders (numPartitions / length (grp_members group))
                   (numPartitions mod length (grp_members group)) (grp_members group) 0 0)
      as [-> ->].
  - by rewrite lookup_insert_ne.
Qed.







Lemma isMember_true (subscriberId : string) (mem : ConsumerGroupMember) :
  isMember subscriberId mem = true ↔ mem_subscriberId mem = subscriberId.
Proof. unfold isMember. by rewrite bool_decide_eq_true. Qed.

Lemma isMember_false (subscriberId : string) (mem : ConsumerGroupMember) :
  isMember subscriberId mem = false ↔ mem_subscriberId mem ≠ subscriberId.
Proof. unfold isMember. by rewrite bool_decide_eq_false. Qed.




(** ** MessageBroker: routing *)

Lemma setAdd_spec (s : list string) (x y : string) :
  y ∈ setAdd s x ↔ y ∈ s ∨ y = x.
Proof.
  unfold setAdd. case_bool_decide as Hx.
  - split; [by left|]. intros [H|H]; [done|by subst].
  - rewrite elem_of_app, list_elem_of_singleton. done.
Qed.

Lemma setAdd_NoDup (s : list string) (x : string) : NoDup s → NoDup (setAdd s x).
Proof.
  intros Hs. unfold setAdd. case_bool_decide as Hx; [done|].
  apply NoDup_app. split; [done|]. split; [|apply NoDup_singleton].
  intros y Hy Hyx. apply list_elem_of_singleton in Hyx as ->. done.
Qed.

Lemma foldl_setAdd (l acc : list string) :
  NoDup acc →
  NoDup (foldl setAdd acc l) ∧ ∀ y, y ∈ foldl setAdd acc l ↔ y ∈ acc ∨ y ∈ l.
Proof.
  revert acc. induction l as [|x l IH]; intros acc Hacc; simpl.
  - split; [done|]. intros y. rewrite elem_of_nil. tauto.
  - destruct (IH (setAdd acc x) (setAdd_NoDup acc x Hacc)) as [Hnd Hin].
    split; [done|]. intros y. rewrite Hin, setAdd_spec, elem_of_cons. tauto.
Qed.

Lemma newSet_NoDup (l : list string) : NoDup (newSet l).
Proof. apply foldl_setAdd, NoDup_nil_2. Qed.

Lemma newSet_elem (l : list string) (y : string) : y ∈ newSet l ↔ y ∈ l.
Proof.
  unfold newSet. rewrite (proj2 (foldl_setAdd l [] (NoDup_nil_2))). rewrite elem_of_nil. tauto.
Qed.

Lemma sameRouting_refl (b : MessageBroker) : sameRouting b b.
Proof. by repeat split. Qed.

Lemma sameRouting_trans (b1 b2 b3 : MessageBroker) :
  sameRouting b1 b2 → sameRouting b2 b3 → sameRouting b1 b3.
Proof.
  intros (Ht & Hc & Hs) (Ht' & Hc' & Hs'). repeat split.
  - by rewrite Ht'.
  - by rewrite Hc'.
  - intros sid. by rewrite Hs'.
Qed.

Lemma alter_routingView (f : Subscriber → Subscriber) (k sid : string)
    (ss : gmap string Subscriber) :
  (∀ s, routingView (f s) = routingView s) →
  routingView <$> alter f k ss !! sid = routingView <$> ss !! sid.
Proof.
  intros Hf. rewrite lookup_alter. case_decide; [subst k|done].
  destruct (ss !! sid) as [s|]; simpl; [|done]. by rewrite Hf.
Qed.

Lemma queueMessage_routing (now : Z) (sid : string) (m : Message) (next : option Z)
    (b : MessageBroker) :
  sameRouting b (queueMessage now sid m next b)
  ∧ sinkCalls (queueMessage now sid m next b) = sinkCalls b.
Proof.
  unfold queueMessage, sameRouting. simpl. repeat split.
  intros sid'. by apply alter_routingView.
Qed.

Lemma sinkCallsFor_log (b : MessageBroker) (sid sid' : string) (m : Message) :
  sinkCallsFor sid (log_sinkCall b sid' m)
  = if decide (sid' = sid) then sinkCallsFor sid b ++ [m] else sinkCallsFor sid b.
Proof.
  unfold sinkCallsFor, log_sinkCall. simpl. rewrite List.filter_app, fmap_app. simpl.
  case_decide.
  - by rewrite bool_decide_eq_true_2.
  - rewrite bool_decide_eq_false_2 by done. simpl. by rewrite app_nil_r.
Qed.

Lemma deliverMessage_routing (now : Z) (sid : string) (m : Message) (next : option Z)
    (b : MessageBroker) :
  sameRouting b (deliverMessage now sid m next b).
Proof.
  unfold deliverMessage.
  destruct (messageCallbacks b !! sid : option (Message → bool)) as [cb|];
    [|apply sameRouting_refl].
  destruct (cb m).
  - unfold sameRouting. simpl. repeat split. intros sid'. by apply alter_routingView.
  - eapply sameRouting_trans; [|apply queueMessage_routing]. by repeat split.
Qed.

Lemma deliverMessage_calls (now : Z) (sid sid' : string) (m : Message) (next : option Z)
    (b : MessageBroker) :
  sinkCallsFor sid (deliverMessage now sid' m next b)
  = match messageCallbacks b !! sid' : option (Message → bool) with
    | Some _ => if decide (sid' = sid) then sinkCallsFor sid b ++ [m] else sinkCallsFor sid b
    | None => sinkCallsFor sid b
    end.
Proof.
  unfold deliverMessage.
  destruct (messageCallbacks b !! sid' : option (Message → bool)) as [cb|]; [|done].
  rewrite <- sinkCallsFor_log. destruct (cb m); [done|].
  unfold sinkCallsFor. by rewrite (proj2 (queueMessage_routing now sid' m next _)).
Qed.

Lemma queueMessage_calls (now : Z) (sid sid' : string) (m : Message) (next : option Z)
    (b : MessageBroker) :
  sinkCallsFor sid (queueMessage now sid' m next b) = sinkCallsFor sid b.
Proof. unfold sinkCallsFor. by rewrite (proj2 (queueMessage_routing now sid' m next b)). Qed.

Lemma routeTo_routing (now : Z) (m : Message) (b : MessageBroker) (sid : string) :
  sameRouting b (routeTo now m b sid).
Proof.
  unfold routeTo. destruct (subscribers b !! sid) as [s|]; [|apply sameRouting_refl].
  destruct (sub_filter s) as [f|].
  - destruct (negb (matchesFilter m f)); [apply sameRouting_refl|].
    destruct (sub_isOnline s); [apply deliverMessage_routing|apply queueMessage_routing].
  - destruct (sub_isOnline s); [apply deliverMessage_routing|apply queueMessage_routing].
Qed.

Lemma routeTo_other (now : Z) (m : Message) (b : MessageBroker) (sid sid' : string) :
  sid' ≠ sid → sinkCallsFor sid (routeTo now m b sid') = sinkCallsFor sid b.
Proof.
  intros Hne. unfold routeTo. destruct (subscribers b !! sid') as [s|]; [|done].
  assert (sinkCallsFor sid (deliverMessage now sid' m None b) = sinkCallsFor sid b) as Hd.
  { rewrite deliverMessage_calls.
    destruct (messageCallbacks b !! sid' : option (Message → bool)); [|done].
    by rewrite decide_False. }
  destruct (sub_filter s) as [f|].
  - destruct (negb (matchesFilter m f)); [done|].
    destruct (sub_isOnline s); [done|apply queueMessage_calls].
  - destruct (sub_isOnline s); [done|apply queueMessage_calls].
Qed.

Lemma routeTo_self (now : Z) (m : Message) (b : MessageBroker) (sid : string) :
  accepts sid m b → sinkCallsFor sid (routeTo now m b sid) = sinkCallsFor sid b ++ [m].
Proof.
  intros (s & cb & Hs & Honline & Hfilter & Hcb). unfold routeTo. rewrite Hs, Honline.
  assert (sinkCallsFor sid (deliverMessage now sid m None b) = sinkCallsFor sid b ++ [m]) as Hd.
  { rewrite deliverMessage_calls, Hcb. by rewrite decide_True. }
  destruct (sub_filter s) as [f|]; [|done]. by rewrite (Hfilter f eq_refl).
Qed.

Lemma accepts_sameRouting (sid : string) (m : Message) (b b' : MessageBroker) :
  sameRouting b b' → accepts sid m b → accepts sid m b'.
Proof.
  intros (_ & Hc & Hs) (s & cb & Hsub & Honline & Hfilter & Hcb).
  specialize (Hs sid). rewrite Hsub in Hs.
  destruct (subscribers b' !! sid) as [s'|] eqn:Hs'; [|done].
  simpl in Hs. injection Hs as Ho Hf.
  exists s', cb. rewrite Hc. split; [done|]. split; [congruence|]. split; [|done].
  intros f Hs'f. apply Hfilter. congruence.
Qed.


Lemma route_fold_absent (now : Z) (m : Message) (l : list string) (b : MessageBroker)
    (sid : string) :
  sid ∉ l → sinkCallsFor sid (foldl (routeTo now m) b l) = sinkCallsFor sid b.
Proof.
  revert b. induction l as [|x l IH]; intros b Hnot; simpl; [done|].
  apply not_elem_of_cons in Hnot as [Hne Hnot].
  rewrite IH by done. by apply routeTo_other.
Qed.

Lemma route_fold_once (now : Z) (m : Message) (l : list string) (b : MessageBroker)
    (sid : string) :
  NoDup l → sid ∈ l → accepts sid m b →
  sinkCallsFor sid (foldl (routeTo now m) b l) = sinkCallsFor sid b ++ [m].
Proof.
  revert b. induction l as [|x l IH]; intros b Hnd Hin Hacc; simpl.
  - by apply elem_of_nil in Hin.
  - apply NoDup_cons in Hnd as [Hx Hnd].
    destruct (decide (x = sid)) as [->|Hne].
    + rewrite route_fold_absent by done. by apply routeTo_self.
    + apply elem_of_cons in Hin as [->|Hin]; [done|].
      rewrite IH; [|done|done|].
      * by rewrite routeTo_other.
      * eapply accepts_sameRouting; [apply routeTo_routing|done].
Qed.

(** Routing calls the sink of each accepting subscriber of the topic, or of
    the topic "#", exactly once, whatever else the subscriber belongs to. *)
Lemma routeMessage_once (now : Z) (m : Message) (b : MessageBroker) (sid : string) :
  sid ∈ getSubscribers (msg_topic m) (topicManager b) ++ getSubscribers "#" (topicManager b) →
  accepts sid m b →
  sinkCallsFor sid (routeMessage now m b) = sinkCallsFor sid b ++ [m].
Proof.
  intros Hin Hacc. unfold routeMessage.
  apply route_fold_once; [apply newSet_NoDup| by apply newSet_elem |done].
Qed.


(** ** MessageBroker: publish and subscribe *)



Lemma createTopic_returned (now : Z) (name createdBy : string) (config : PartialTopicConfig)
    (tm tm' : TopicManager) (topic : Topic) :
  createTopic now name createdBy config tm = Returned topic tm' →
  tm_topics tm !! name = None
  ∧ tm_topics tm' = <[name := topic]> (tm_topics tm)
  ∧ tm_topicSubscribers tm' = <[name := []]> (tm_topicSubscribers tm).
Proof.
  unfold createTopic. destruct (hasTopic name tm) eqn:Hhas; [done|].
  destruct (validTopicName name); [|done]. simpl. intros [= <- <-].
  by apply hasTopic_false in Hhas.
Qed.

Lemma createTopic_subscribedTo (now : Z) (name createdBy : string)
    (config : PartialTopicConfig) (tm tm' : TopicManager) (topic : Topic) (sid t : string) :
  createTopic now name createdBy config tm = Returned topic tm' →
  (tmConsistent tm → tmConsistent tm')
  ∧ is_Some (tm_topics tm' !! name)
  ∧ (subscribedTo sid t tm → subscribedTo sid t tm').
Proof.
  intros H. apply createTopic_returned in H as (Hnew & Htopics & Hsubs).
  split; [|split].
  - intros Hc t'. rewrite Htopics, Hsubs. destruct (decide (name = t')) as [<-|Hne].
    + by rewrite !lookup_insert_eq.
    + rewrite !lookup_insert_ne by done. apply Hc.
  - rewrite Htopics, lookup_insert_eq. by eexists.
  - intros [Ht Hin]. unfold subscribedTo, getSubscribers. rewrite Htopics, Hsubs.
    destruct (decide (name = t)) as [<-|Hne].
    + rewrite Hnew in Ht. by destruct Ht.
    + by rewrite !lookup_insert_ne.
Qed.

Lemma addSubscriber_subscribedTo (topicName sid t : string) (tm : TopicManager) :
  (tmConsistent tm → tmConsistent (snd (addSubscriber topicName sid tm)))
  ∧ (tmConsistent tm → is_Some (tm_topics tm !! topicName) →
     subscribedTo sid topicName (snd (addSubscriber topicName sid tm)))
  ∧ (subscribedTo sid t tm → subscribedTo sid t (snd (addSubscriber topicName sid tm))).
Proof.
  unfold addSubscriber.
  destruct (tm_topicSubscribers tm !! topicName) as [subs|] eqn:Hsubs.
  - case_bool_decide as Hin; simpl.
    + split; [done|]. split; [|done]. intros _ Ht. split; [done|].
      unfold getSubscribers. by rewrite Hsubs.
    + split; [|split].
      * intros Hc t'. simpl. intros Ht'.
        assert (is_Some (tm_topics tm !! t')) as Ht0.
        { rewrite lookup_alter in Ht'. case_decide; [subst|done].
          by apply fmap_is_Some in Ht'. }
        destruct (decide (topicName = t')) as [<-|Hne].
        -- rewrite lookup_insert_eq. by eexists.
        -- rewrite lookup_insert_ne by done. by apply Hc.
      * intros _ Ht. unfold subscribedTo, getSubscribers. simpl. split.
        -- rewrite lookup_alter, decide_True by done. by apply fmap_is_Some.
        -- rewrite lookup_insert_eq. simpl. apply elem_of_app. right.
           by apply list_elem_of_singleton.
      * intros [Ht Hsid]. unfold subscribedTo, getSubscribers in *. simpl. split.
        -- rewrite lookup_alter. case_decide; [subst|done]. by apply fmap_is_Some.
        -- destruct (decide (topicName = t)) as [<-|Hne].
           ++ rewrite lookup_insert_eq. simpl. rewrite Hsubs in Hsid. simpl in Hsid.
              apply elem_of_app. by left.
           ++ by rewrite lookup_insert_ne.
  - simpl. split; [done|]. split; [|done]. intros Hc Ht. apply Hc in Ht.
    rewrite Hsubs in Ht. by destruct Ht.
Qed.

Lemma subscribeTopics_subscribedTo (now : Z) (clientId sid : string) (topics : list string) :
  ∀ (tm tm' : TopicManager) (t : string),
    subscribeTopics now clientId sid topics tm = Returned tt tm' →
    tmConsistent tm →
    tmConsistent tm'
    ∧ (subscribedTo sid t tm → subscribedTo sid t tm')
    ∧ (t ∈ topics → subscribedTo sid t tm').
Proof.
  induction topics as [|topic rest IH]; intros tm tm' t H Hc; simpl in H.
  - injection H as <-. split; [done|]. split; [done|]. intros Hin. by apply elem_of_nil in Hin.
  - assert (∃ tm1, subscribeTopics now clientId sid rest (snd (addSubscriber topic sid tm1))
                   = Returned tt tm'
                   ∧ tmConsistent tm1 ∧ is_Some (tm_topics tm1 !! topic)
                   ∧ (subscribedTo sid t tm → subscribedTo sid t tm1))
      as (tm1 & Hrest & Hc1 & Htopic & Hkeep).
    { destruct (hasTopic topic tm) eqn:Hhas.
      - exists tm. split; [exact H|]. split; [done|]. split; [|done].
        by apply hasTopic_true.
      - destruct (createTopic now topic clientId noOverrides tm) as [tp tm1|] eqn:Hcreate;
          [|done].
        destruct (createTopic_subscribedTo _ _ _ _ _ _ _ sid t Hcreate) as (Hc1 & Ht1 & Hk1).
        exists tm1. split; [exact H|]. split; [by apply Hc1|]. by split. }
    destruct (addSubscriber_subscribedTo topic sid t tm1) as (Hc2 & Hadd & Hkeep2).
    destruct (IH _ _ t Hrest (Hc2 Hc1)) as (Hc' & Hkeep' & Hin').
    split; [done|]. split; [by auto|].
    intros Hin. apply elem_of_cons in Hin as [->|Hin]; [|by auto].
    apply Hkeep'. destruct (addSubscriber_subscribedTo topic sid topic tm1) as (_ & Hadd' & _).
    by apply Hadd'.
Qed.

Lemma drainLoop_routing (fuel : nat) (now : Z) (sid : string) :
  ∀ b b', drainLoop fuel now sid b = Some b' → sameRouting b b'.
Proof.
  induction fuel as [|fuel IH]; intros b b' H; simpl in H; [done|].
  destruct (dequeue now sid (messageQueue b)) as [[message|] q].
  - apply IH in H. eapply sameRouting_trans; [|exact H].
    eapply sameRouting_trans; [|apply deliverMessage_routing]. by repeat split.
  - injection H as <-. apply sameRouting_refl.
Qed.

Lemma drainQueue_routing (fuel : nat) (now : Z) (sid : string) (b b' : MessageBroker) :
  drainQueue fuel now sid b = Some b' → sameRouting b b'.
Proof.
  unfold drainQueue. destruct (drainLoop fuel now sid b) as [b1|] eqn:Hloop; [|done].
  simpl. intros [= <-]. apply drainLoop_routing in Hloop.
  eapply sameRouting_trans; [exact Hloop|]. unfold sameRouting. simpl. repeat split.
  intros sid'. by apply alter_routingView.
Qed.


Lemma recordMessage_subscribedTo (now : Z) (message : Message) (tm : TopicManager)
    (sid t : string) :
  subscribedTo sid t tm → subscribedTo sid t (recordMessage now message tm).
Proof.
  intros [Ht Hin]. unfold recordMessage.
  destruct (tm_topics tm !! msg_topic message) as [topic|] eqn:Htopic; [|done].
  split; [|done]. simpl. destruct (decide (msg_topic message = t)) as [<-|Hne].
  - rewrite lookup_insert_eq. by eexists.
  - by rewrite lookup_insert_ne.
Qed.




(** ** Consumer groups and routing *)

Lemma getNextSubscriber_roundRobin (random : nat) (groupName : string) (message : Message)
    (m : ConsumerGroupManager) (group : ConsumerGroup) :
  cgm_groups m !! groupName = Some group →
  grp_name group = groupName →
  grp_strategy group = RoundRobin →
  grp_members group ≠ [] →
  getNextSubscriber random groupName message m
  = (mem_subscriberId
       <$> grp_members group
           !! (default 0 (cgm_roundRobinIndex m !! groupName) mod length (grp_members group)),
     advanceRoundRobin m groupName).
Proof.
  intros Hgroup Hname Hstrategy Hmembers. unfold getNextSubscriber.
  rewrite Hgroup, Hstrategy.
  rewrite bool_decide_eq_false_2 by (by destruct (grp_members group)).
  unfold roundRobinSelect, advanceRoundRobin. by rewrite Hname.
Qed.

(** [C3] fails on the code. s1, s2 and s3 are the members of the round-robin
    group "g" bound to "t", and six selections of [getNextSubscriber] give
    s1, s2, s3, s1, s2, s3, the order expected. But [routeMessage] never
    consults the consumer groups: each of six messages published to "t" is
    delivered to all three subscribers, six messages each and not two. *)
Lemma routing_ignores_consumer_groups :
  ∃ m3 group b6,
    groupScenario = Some m3
    ∧ cgm_groups m3 !! "g" = Some group
    ∧ grp_topic group = "t"
    ∧ grp_strategy group = RoundRobin
    ∧ mem_subscriberId <$> grp_members group = [s1; s2; s3]
    ∧ selectEach 0 "g" ((λ i, sampleMessage i 0) <$> ["m1"; "m2"; "m3"; "m4"; "m5"; "m6"]) m3
      = [Some s1; Some s2; Some s3; Some s1; Some s2; Some s3]
    ∧ sixPublishes = Some b6
    ∧ length (sinkCallsFor s1 b6) = 6
    ∧ length (sinkCallsFor s2 b6) = 6
    ∧ length (sinkCallsFor s3 b6) = 6
    ∧ fst <$> sinkCalls b6 ≠ [s1; s2; s3; s1; s2; s3].
Proof.
  eexists _, _, _.
  split; [vm_compute; reflexivity|].
  split; [vm_compute; reflexivity|].
  split; [vm_compute; reflexivity|].
  split; [vm_compute; reflexivity|].
  split; [vm_compute; reflexivity|].
  split; [vm_compute; reflexivity|].
  split; [vm_compute; reflexivity|].
  split; [vm_compute; reflexivity|].
  split; [vm_compute; reflexivity|].
  split; [vm_compute; reflexivity|].
  vm_compute. intros H. discriminate H.
Qed.

(** ** Dead letters *)

Lemma retryDeadLetter_no_effect (now : Z) (messageId : string) (b : MessageBroker) :
  retryDeadLetter now messageId b = (false, b).
Proof.
  unfold retryDeadLetter.
  by destruct (find _ (getDeadLetterQueue (messageQueue b))).
Qed.

(** [C1] fails on the code. After a message "m1" was nacked up to its retry
    limit, the dead-letter queue holds one entry with that id; yet
    [retryDeadLetter] of "m1" returns false, routes nothing and leaves the
    entry where it is, because it reads a property [message] that no entry
    has. [retryFromDeadLetter] of the queue, which nothing calls, would take
    the entry out with attempts reset to 0. *)
Theorem retryDeadLetter_leaves_present_entry :
  ∃ b entry,
    deadLetterScenario = Some b
    ∧ getDeadLetterQueue (messageQueue b) = [entry]
    ∧ dl_id entry = "m1"
    ∧ retryDeadLetter 10 "m1" b = (false, b)
    ∧ ∃ retried q,
        retryFromDeadLetter "m1" (messageQueue b) = (Some retried, q)
        ∧ qm_attempts (dl_base retried) = 0
        ∧ getDeadLetterQueue q = [].
Proof.
  eexists _, _.
  split; [vm_compute; reflexivity|].
  split; [vm_compute; reflexivity|].
  split; [vm_compute; reflexivity|].
  split; [apply retryDeadLetter_no_effect|].
  eexists _, _. split; [vm_compute; reflexivity|]. split; vm_compute; reflexivity.
Qed.

(** * Further properties of the message queue *)






(** [ack] of a message that is queued removes the first message with that id,
    keeps the others in their order, touches nothing else and returns true. *)
Theorem ack_removes_first_match (q : MessageQueue) (subscriberId messageId : string)
    (before after : list QueuedMessage) (m : QueuedMessage) :
  mq_queues q !! subscriberId = Some (before ++ m :: after) →
  Forall (λ x, qm_id x ≠ messageId) before → qm_id m = messageId →
  ack subscriberId messageId q = (true, set_queue q subscriberId (before ++ after)).
Proof.
  intros Hq Hbefore Hm. unfold ack. rewrite Hq, findIndex_findEntry.
  rewrite (findEntry_first (hasId messageId) before after m).
  - simpl. by rewrite delete_middle.
  - eapply Forall_impl; [exact Hbefore|]. intros x Hx. by apply hasId_false.
  - by apply hasId_true.
Qed.

Lemma find_findEntry {A : Type} (p : A → bool) (l : list A) :
  find p l = snd <$> findEntry p l.
Proof.
  induction l as [|x l IH]; simpl; [done|].
  destruct (p x); [done|]. rewrite IH. by destruct (findEntry p l) as [[i y]|].
Qed.

(** [peek] returns the message that [dequeue] would return at the same time. *)
Theorem peek_is_next_dequeue (q : MessageQueue) (now : Z) (subscriberId : string) :
  peek now subscriberId q = fst (dequeue now subscriberId q).
Proof.
  unfold peek, dequeue. destruct (mq_queues q !! subscriberId) as [queue|]; [|done].
  rewrite find_findEntry. case_bool_decide as Hlen.
  - by destruct queue.
  - by destruct (findEntry (isReady now) queue) as [[i x]|].
Qed.

Lemma enqueueFor_appends (subscriberId : string) (calls : list (Z * QueuedMessage)) :
  ∀ (q : MessageQueue),
    (Z.of_nat (getQueueDepth subscriberId q + length calls) ≤ mq_maxQueueSize q)%Z →
    mq_queues (enqueueFor subscriberId calls q)
    = <[subscriberId := getAll subscriberId q ++ calls.*2]> (mq_queues q)
      ∨ (calls = [] ∧ enqueueFor subscriberId calls q = q).
Proof.
  unfold enqueueFor.
  induction calls as [|[now m] calls IH]; intros q Hroom; simpl; [by right|]. left.
  assert (enqueue now subscriberId m q
          = set_queue q subscriberId (getAll subscriberId q ++ [m])) as Henq.
  { unfold enqueue, getAll. unfold getQueueDepth in Hroom. simpl in Hroom.
    by rewrite (proj2 (Z.leb_gt _ _)) by lia. }
  rewrite Henq.
  destruct (IH (set_queue q subscriberId (getAll subscriberId q ++ [m]))) as [Hq|[-> Hq]].
  - unfold getQueueDepth in *. simpl. rewrite lookup_insert_eq. simpl.
    rewrite length_app. simpl. unfold getAll. simpl in Hroom. lia.
  - rewrite Hq. unfold getAll at 1. simpl. rewrite lookup_insert_eq. simpl.
    rewrite insert_insert_eq. by rewrite <- app_assoc.
  - simpl. done.
Qed.

Lemma dequeueTimes_ready (now : Z) (subscriberId : string) (ms : list QueuedMessage) :
  ∀ (q : MessageQueue),
    mq_queues q !! subscriberId = Some ms →
    Forall (λ m, isReady now m = true) ms →
    dequeueTimes (length ms) now subscriberId q
    = (Some <$> ms, set_queue q subscriberId []).
Proof.
  induction ms as [|m ms IH]; intros q Hq Hready; simpl.
  - unfold set_queue. destruct q as [queues dlq mx md]. simpl in *.
    by rewrite insert_id.
  - apply Forall_cons in Hready as [Hm Hms].
    unfold dequeue. rewrite Hq. simpl. rewrite Hm. simpl.
    rewrite (IH (set_queue q subscriberId ms)); [|apply lookup_insert_eq|done].
    unfold set_queue. simpl. by rewrite insert_insert_eq.
Qed.

(** The queue of a subscriber is first in, first out: messages enqueued
    into an empty queue that has room for them, none of them waiting for a
    retry, come out of as many [dequeue] calls in the order they went in,
    and the queue is empty again. *)
Theorem enqueue_dequeue_fifo (q : MessageQueue) (now : Z) (subscriberId : string)
    (calls : list (Z * QueuedMessage)) :
  getAll subscriberId q = [] →
  (Z.of_nat (length calls) ≤ mq_maxQueueSize q)%Z →
  Forall (λ c, isReady now c.2 = true) calls →
  fst (dequeueTimes (length calls) now subscriberId (enqueueFor subscriberId calls q))
  = Some <$> calls.*2
  ∧ getAll subscriberId
      (snd (dequeueTimes (length calls) now subscriberId (enqueueFor subscriberId calls q)))
    = []
  ∧ mq_deadLetterQueue
      (snd (dequeueTimes (length calls) now subscriberId (enqueueFor subscriberId calls q)))
    = mq_deadLetterQueue (enqueueFor subscriberId calls q).
Proof.
  intros Hempty Hroom Hready.
  destruct (decide (calls = [])) as [->|Hne]; [by repeat split|].
  destruct (enqueueFor_appends subscriberId calls q) as [Hq|[-> _]]; [|idtac|done].
  { unfold getQueueDepth. unfold getAll in Hempty. rewrite Hempty. simpl. lia. }
  rewrite Hempty in Hq. simpl in Hq.
  assert (mq_queues (enqueueFor subscriberId calls q) !! subscriberId = Some calls.*2) as Hs.
  { rewrite Hq. apply lookup_insert_eq. }
  assert (length calls = length calls.*2) as Hlen by (by rewrite length_fmap).
  rewrite Hlen.
  rewrite (dequeueTimes_ready now subscriberId calls.*2 _ Hs).
  - simpl. split; [done|]. split; [|done]. unfold getAll. simpl.
    by rewrite lookup_insert_eq.
  - apply Forall_fmap. eapply Forall_impl; [exact Hready|]. by intros [t m].
Qed.




Lemma dlHasId_false (messageId : string) (d : DeadLetterMessage) :
  bool_decide (dl_id d = messageId) = false ↔ dl_id d ≠ messageId.
Proof. by rewrite bool_decide_eq_false. Qed.

(** A message that [nack] moved to the dead-letter queue comes back from
    [retryFromDeadLetter] with attempts 0 and no retry time, and the
    dead-letter queue is as before the nack (the queue had room and held no
    entry with that id). *)
Theorem nack_then_retryFromDeadLetter
    (q : MessageQueue) (now : Z) (subscriberId messageId reason : string)
    (before after : list QueuedMessage) (m : QueuedMessage) :
  mq_queues q !! subscriberId = Some (before ++ m :: after) →
  Forall (λ x, qm_id x ≠ messageId) before → qm_id m = messageId →
  (qm_maxRetries m ≤ Z.of_nat (S (qm_attempts m)))%Z →
  Forall (λ d, dl_id d ≠ messageId) (mq_deadLetterQueue q) →
  (Z.of_nat (length (mq_deadLetterQueue q)) < mq_maxDeadLetterSize q)%Z →
  retryFromDeadLetter messageId (snd (nack now subscriberId messageId reason q))
  = (Some (deadLetterOf now (rescheduled m 0 None) reason),
     set_queue q subscriberId (before ++ after)).
Proof.
  intros Hq Hbefore Hm Hlimit Hfresh Hroom.
  rewrite (nack_found q now subscriberId messageId reason before after m) by done.
  simpl. rewrite (proj2 (Z.leb_le _ _)) by lia.
  unfold retryFromDeadLetter, moveToDeadLetter. simpl.
  rewrite (proj2 (Z.ltb_ge _ _)) by (rewrite length_app; simpl; lia).
  rewrite (findEntry_first (λ d, bool_decide (dl_id d = messageId))
             (mq_deadLetterQueue q) []).
  - by rewrite delete_middle, app_nil_r.
  - eapply Forall_impl; [exact Hfresh|]. intros d Hd. by apply dlHasId_false.
  - apply bool_decide_eq_true. exact Hm.
Qed.

(** [removeFromDeadLetter] removes the first dead-letter entry with the
    given id and returns true; when no entry has that id it returns false
    and changes nothing, and so does [retryFromDeadLetter], which then
    returns no entry. The broker's [deleteDeadLetter] does the same. *)
Theorem removeFromDeadLetter_first_match (b : MessageBroker) (messageId : string) :
  (∀ before d after,
     mq_deadLetterQueue (messageQueue b) = before ++ d :: after →
     Forall (λ x, dl_id x ≠ messageId) before → dl_id d = messageId →
     removeFromDeadLetter messageId (messageQueue b)
     = (true, set_deadLetterQueue (messageQueue b) (before ++ after))
     ∧ deleteDeadLetter messageId b
       = (true, set_messageQueue b (set_deadLetterQueue (messageQueue b) (before ++ after))))
  ∧ (Forall (λ x, dl_id x ≠ messageId) (mq_deadLetterQueue (messageQueue b)) →
     removeFromDeadLetter messageId (messageQueue b) = (false, messageQueue b)
     ∧ retryFromDeadLetter messageId (messageQueue b) = (None, messageQueue b)
     ∧ deleteDeadLetter messageId b = (false, b)).
Proof.
  split.
  - intros before d after Hdlq Hbefore Hd.
    assert (removeFromDeadLetter messageId (messageQueue b)
            = (true, set_deadLetterQueue (messageQueue b) (before ++ after))) as Hremove.
    { unfold removeFromDeadLetter. rewrite findIndex_findEntry, Hdlq.
      rewrite (findEntry_first (λ x, bool_decide (dl_id x = messageId)) before after d).
      - simpl. by rewrite delete_middle.
      - eapply Forall_impl; [exact Hbefore|]. intros x Hx. by apply dlHasId_false.
      - by apply bool_decide_eq_true. }
    split; [done|]. unfold deleteDeadLetter. by rewrite Hremove.
  - intros Hnone.
    assert (findEntry (λ x, bool_decide (dl_id x = messageId))
              (mq_deadLetterQueue (messageQueue b)) = None) as Hfind.
    { apply findEntry_None. eapply Forall_impl; [exact Hnone|].
      intros x Hx. by apply dlHasId_false. }
    assert (removeFromDeadLetter messageId (messageQueue b) = (false, messageQueue b))
      as Hremove.
    { unfold removeFromDeadLetter. by rewrite findIndex_findEntry, Hfind. }
    split; [done|]. split.
    + unfold retryFromDeadLetter. by rewrite Hfind.
    + unfold deleteDeadLetter. by rewrite Hremove, set_messageQueue_same.
Qed.


(** * Further properties of the topic manager *)

Lemma filter_absent (sid : string) (l : list string) :
  sid ∉ l → filter (λ s, s ≠ sid) l = l.
Proof.
  induction l as [|x l IH]; intros Hnot; [done|].
  apply not_elem_of_cons in Hnot as [Hne Hnot].
  rewrite filter_cons_True by done. by rewrite IH.
Qed.

Lemma createTopic_inSync (now : Z) (name createdBy : string) (config : PartialTopicConfig)
    (tm : TopicManager) :
  countsInSync tm → countsInSync (state_of (createTopic now name createdBy config tm)).
Proof.
  intros Htm. unfold createTopic. destruct (hasTopic name tm); [done|].
  destruct (negb (validTopicName name)); [done|]. simpl.
  intros t topic. simpl. destruct (decide (name = t)) as [<-|Hne].
  - rewrite !lookup_insert_eq. intros [= <-]. exists []. split; [done|].
    split; [apply NoDup_nil_2|done].
  - rewrite !lookup_insert_ne by done. apply Htm.
Qed.

Lemma deleteTopic_inSync (name : string) (tm : TopicManager) :
  countsInSync tm → countsInSync (snd (deleteTopic name tm)).
Proof.
  intros Htm. unfold deleteTopic. destruct (hasTopic name tm); [|done]. simpl.
  intros t topic. simpl. destruct (decide (name = t)) as [<-|Hne].
  - by rewrite lookup_delete_eq.
  - rewrite !lookup_delete_ne by done. apply Htm.
Qed.

Lemma addSubscriber_inSync (topicName sid : string) (tm : TopicManager) :
  countsInSync tm → countsInSync (snd (addSubscriber topicName sid tm)).
Proof.
  intros Htm. unfold addSubscriber.
  destruct (tm_topicSubscribers tm !! topicName) as [subs|] eqn:Hsubs; [|done].
  case_bool_decide as Hin; [done|]. simpl. intros t topic. simpl.
  destruct (decide (topicName = t)) as [<-|Hne].
  - rewrite lookup_alter_eq, lookup_insert_eq.
    destruct (tm_topics tm !! topicName) as [topic0|] eqn:Htopic; [|done].
    simpl. intros [= <-]. destruct (Htm topicName topic0 Htopic) as (subs0 & Hs & Hnd & _).
    rewrite Hsubs in Hs. injection Hs as <-.
    exists (subs ++ [sid]). split; [done|]. split; [|done].
    apply NoDup_app. split; [done|]. split; [|apply NoDup_singleton].
    intros x Hx Hx'. apply list_elem_of_singleton in Hx' as ->. done.
  - rewrite lookup_alter_ne, lookup_insert_ne by done. apply Htm.
Qed.

Lemma removeSubscriber_inSync (topicName sid : string) (tm : TopicManager) :
  countsInSync tm → countsInSync (snd (removeSubscriber topicName sid tm)).
Proof.
  intros Htm. unfold removeSubscriber.
  destruct (tm_topicSubscribers tm !! topicName) as [subs|] eqn:Hsubs; [|done].
  case_bool_decide as Hin; [|done]. simpl. intros t topic. simpl.
  destruct (decide (topicName = t)) as [<-|Hne].
  - rewrite lookup_alter_eq, lookup_insert_eq.
    destruct (tm_topics tm !! topicName) as [topic0|] eqn:Htopic; [|done].
    simpl. intros [= <-]. destruct (Htm topicName topic0 Htopic) as (subs0 & Hs & Hnd & _).
    rewrite Hsubs in Hs. injection Hs as <-.
    eexists. split; [done|]. split; [by apply NoDup_filter|done].
  - rewrite lookup_alter_ne, lookup_insert_ne by done. apply Htm.
Qed.

Lemma removeSubscriberFromAll_inSync (sid : string) (tm : TopicManager) :
  countsInSync tm → countsInSync (snd (removeSubscriberFromAll sid tm)).
Proof.
  intros Htm t topic. simpl. rewrite map_lookup_imap, lookup_fmap.
  destruct (tm_topics tm !! t) as [topic0|] eqn:Htopic; [|done]. simpl.
  destruct (Htm t topic0 Htopic) as (subs & Hs & Hnd & Hcount). rewrite Hs. simpl.
  intros [= <-]. eexists. split; [done|]. split; [by apply NoDup_filter|].
  case_bool_decide as Hin; [done|]. by rewrite filter_absent.
Qed.

Lemma recordMessage_inSync (now : Z) (message : Message) (tm : TopicManager) :
  countsInSync tm → countsInSync (recordMessage now message tm).
Proof.
  intros Htm. unfold recordMessage.
  destruct (tm_topics tm !! msg_topic message) as [topic0|] eqn:Htopic; [|done].
  intros t topic. simpl. destruct (decide (msg_topic message = t)) as [<-|Hne].
  - rewrite lookup_insert_eq. intros [= <-].
    destruct (Htm _ _ Htopic) as (subs & Hs & Hnd & Hcount). by exists subs.
  - rewrite lookup_insert_ne by done. apply Htm.
Qed.

(** The subscriber count of a topic is a cache of the size of its set of
    subscribers, and it is never stale: after any run of topic-manager
    operations on a new manager, every topic has a duplicate-free set of
    subscribers whose size is the topic's subscriberCount. *)
Theorem subscriberCount_in_sync (ops : list TopicOp) :
  ∀ t topic,
    tm_topics (runTopicOps ops newTopicManager) !! t = Some topic →
    ∃ subscribers,
      tm_topicSubscribers (runTopicOps ops newTopicManager) !! t = Some subscribers
      ∧ NoDup subscribers
      ∧ topic_subscriberCount topic = length subscribers
      ∧ getSubscribers t (runTopicOps ops newTopicManager) = subscribers.
Proof.
  assert (∀ tm, countsInSync tm → countsInSync (runTopicOps ops tm)) as Hrun.
  { unfold runTopicOps. induction ops as [|op ops IH]; intros tm Htm; simpl; [done|].
    apply IH. destruct op; simpl.
    - by apply createTopic_inSync.
    - by apply deleteTopic_inSync.
    - by apply addSubscriber_inSync.
    - by apply removeSubscriber_inSync.
    - by apply removeSubscriberFromAll_inSync.
    - by apply recordMessage_inSync.
    - done. }
  intros t topic Ht.
  destruct (Hrun newTopicManager) with (t := t) (topic := topic)
    as (subs & Hs & Hnd & Hcount); [|done|].
  { intros t' topic' H. simpl in H. by rewrite lookup_empty in H. }
  exists subs. unfold getSubscribers. rewrite Hs. by repeat split.
Qed.

(** [deleteTopic] tells whether the topic existed. Afterwards the topic, its
    history and its subscriber set are gone, the other topics are as they
    were, and deleting again returns false and changes nothing. *)
Theorem deleteTopic_idempotent (tm : TopicManager) (name : string) :
  fst (deleteTopic name tm) = hasTopic name tm
  ∧ deleteTopic name (snd (deleteTopic name tm)) = (false, snd (deleteTopic name tm))
  ∧ (hasTopic name tm = true →
     getTopic name (snd (deleteTopic name tm)) = None
     ∧ getSubscribers name (snd (deleteTopic name tm)) = []
     ∧ ∀ limit, getMessageHistory name limit (snd (deleteTopic name tm)) = [])
  ∧ (hasTopic name tm = false → snd (deleteTopic name tm) = tm)
  ∧ (∀ other, other ≠ name →
     getTopic other (snd (deleteTopic name tm)) = getTopic other tm
     ∧ getSubscribers other (snd (deleteTopic name tm)) = getSubscribers other tm
     ∧ ∀ limit, getMessageHistory other limit (snd (deleteTopic name tm))
                = getMessageHistory other limit tm).
Proof.
  unfold deleteTopic. destruct (hasTopic name tm) eqn:Hhas; simpl.
  - split; [done|]. split; [|split; [|split]].
    + unfold hasTopic. simpl. rewrite lookup_delete_eq.
      by rewrite bool_decide_eq_false_2 by (by intros [x Hx]).
    + intros _. unfold getTopic, getSubscribers, getMessageHistory. simpl.
      by rewrite !lookup_delete_eq.
    + done.
    + intros other Hne. unfold getTopic, getSubscribers, getMessageHistory. simpl.
      by rewrite !lookup_delete_ne.
  - rewrite Hhas. by repeat split.
Qed.

(** Creating a topic under a name that nothing is stored for, and deleting
    it, gives back the topic manager as it was. *)
Theorem createTopic_then_deleteTopic (tm tm' : TopicManager) (now : Z)
    (name createdBy : string) (config : PartialTopicConfig) (topic : Topic) :
  tm_messageHistory tm !! name = None →
  tm_topicSubscribers tm !! name = None →
  createTopic now name createdBy config tm = Returned topic tm' →
  deleteTopic name tm' = (true, tm).
Proof.
  intros Hhistory Hsubs Hcreate. unfold createTopic in Hcreate.
  destruct (hasTopic name tm) eqn:Hhas; [done|].
  destruct (negb (validTopicName name)); [done|]. injection Hcreate as _ <-.
  apply hasTopic_false in Hhas. unfold deleteTopic, hasTopic. simpl.
  rewrite lookup_insert_eq. rewrite bool_decide_eq_true_2 by (by eexists).
  rewrite !delete_insert_id by done. by destruct tm.
Qed.

(** Within a manager whose counts are in sync, [addSubscriber] of a new
    subscriber to an existing topic followed by [removeSubscriber] gives
    back the manager as it was; adding a subscriber that is already in the
    set changes nothing. *)
Theorem addSubscriber_then_removeSubscriber (tm : TopicManager) (topicName sid : string)
    (topic : Topic) :
  countsInSync tm →
  tm_topics tm !! topicName = Some topic →
  (sid ∉ getSubscribers topicName tm →
   fst (addSubscriber topicName sid tm) = true
   ∧ getSubscribers topicName (snd (addSubscriber topicName sid tm))
     = getSubscribers topicName tm ++ [sid]
   ∧ removeSubscriber topicName sid (snd (addSubscriber topicName sid tm)) = (true, tm))
  ∧ (sid ∈ getSubscribers topicName tm → addSubscriber topicName sid tm = (true, tm)).
Proof.
  intros Htm Htopic. destruct (Htm topicName topic Htopic) as (subs & Hs & Hnd & Hcount).
  unfold getSubscribers. rewrite Hs. simpl. split.
  - intros Hnot. unfold addSubscriber. rewrite Hs.
    rewrite bool_decide_eq_false_2 by done. simpl. rewrite lookup_insert_eq. simpl.
    split; [done|]. split; [done|].
    unfold removeSubscriber. simpl. rewrite lookup_insert_eq.
    rewrite bool_decide_eq_true_2
      by (apply elem_of_app; right; by apply list_elem_of_singleton).
    rewrite filter_app, (filter_absent sid subs Hnot).
    rewrite filter_cons_False by (intros H; by apply H).
    rewrite filter_nil, app_nil_r, insert_insert_eq, (insert_id _ _ _ Hs).
    f_equal. destruct tm as [topics history subscribers]. simpl in *. f_equal.
    apply map_eq. intros t. destruct (decide (topicName = t)) as [<-|Hne].
    + rewrite !lookup_alter_eq, Htopic. simpl. f_equal.
      destruct topic. simpl in *. by rewrite Hcount.
    + by rewrite !lookup_alter_ne.
  - intros Hin. unfold addSubscriber. rewrite Hs. by rewrite bool_decide_eq_true_2.
Qed.

Lemma last_drop_snoc {A : Type} (l : list A) (x : A) (n : nat) :
  (n ≤ length l)%nat → last (drop n (l ++ [x])) = Some x.
Proof. intros Hn. rewrite drop_app_le by done. apply last_snoc. Qed.

(** A message recorded for an existing topic is the newest of the topic's
    history, unless it is itself older than the retention cutoff:
    [getMessageHistory] with a limit of 1 or more ends with it. *)
Theorem recordMessage_then_getMessageHistory (tm : TopicManager) (now : Z)
    (message : Message) (topic : Topic) (limit : nat) :
  tm_topics tm !! msg_topic message = Some topic →
  (now - cfg_messageRetention (topic_config topic) ≤ msg_timestamp message)%Z →
  limit ≠ 0 →
  last (getMessageHistory (msg_topic message) limit (recordMessage now message tm))
  = Some message.
Proof.
  intros Htopic Hrecent Hlimit. unfold getMessageHistory, recordMessage.
  rewrite Htopic. simpl. rewrite lookup_insert_eq.
  rewrite bool_decide_eq_false_2 by done.
  set (history := default [] (tm_messageHistory tm !! msg_topic message)).
  destruct (trimOlder_drop (now - cfg_messageRetention (topic_config topic))
              (history ++ [message])) as (n & -> & Hpre & _).
  assert (n ≤ length history)%nat as Hn.
  { destruct (decide (n ≤ length history)%nat) as [?|Hgt]; [done|].
    rewrite take_ge in Hpre by (rewrite length_app; simpl; lia).
    apply Forall_app in Hpre as [_ Hm]. apply Forall_inv in Hm. simpl in Hm. lia. }
  rewrite trimToMax_drop, !drop_drop.
  apply last_drop_snoc.
  rewrite !length_drop, length_app. simpl. unfold maxHistory. lia.
Qed.

(** [purgeOldMessages] leaves, in the chronological history of every topic
    that exists, no message older than now minus the topic's
    messageRetention, and what it keeps of a history is its newest part;
    topics, subscriber sets and histories without topic are not touched. *)
Theorem purgeOldMessages_trims (tm : TopicManager) (now : Z) (name : string)
    (history : list Message) :
  tm_messageHistory tm !! name = Some history →
  tm_topics (snd (purgeOldMessages now tm)) = tm_topics tm
  ∧ tm_topicSubscribers (snd (purgeOldMessages now tm)) = tm_topicSubscribers tm
  ∧ (tm_topics tm !! name = None →
     tm_messageHistory (snd (purgeOldMessages now tm)) !! name = Some history)
  ∧ (∀ topic, tm_topics tm !! name = Some topic →
       ∃ kept older,
         tm_messageHistory (snd (purgeOldMessages now tm)) !! name = Some kept
         ∧ history = older ++ kept
         ∧ Forall (λ m, (msg_timestamp m < now - cfg_messageRetention (topic_config topic))%Z)
                  older
         ∧ (chronological history →
            ∀ m, m ∈ kept →
                 (now - cfg_messageRetention (topic_config topic) ≤ msg_timestamp m)%Z)).
Proof.
  intros Hhistory. split; [done|]. split; [done|]. simpl.
  rewrite map_lookup_imap, Hhistory. simpl. unfold purgedHistory. split.
  - by intros ->.
  - intros topic ->.
    destruct (trimOlder_drop (now - cfg_messageRetention (topic_config topic)) history)
      as (n & Heq & Hpre & Hhead).
    exists (drop n history), (take n history). rewrite Heq.
    split; [done|]. split; [by rewrite take_drop|]. split; [done|].
    intros Hchron m Hm.
    apply (recent_when_chronological _ history n 0 Hchron Hhead). by rewrite drop_0.
Qed.

(** * Further properties of the consumer-group manager *)

Lemma assignPartitions_length (per rem : nat) (members : list ConsumerGroupMember) :
  ∀ i p, length (assignPartitions per rem i p members) = length members.
Proof.
  induction members as [|x rest IH]; intros i p; simpl; [done|]. by rewrite IH.
Qed.

Lemma assignPartitions_idem (per rem : nat) (members : list ConsumerGroupMember) :
  ∀ i p,
    assignPartitions per rem i p (assignPartitions per rem i p members)
    = assignPartitions per rem i p members.
Proof.
  induction members as [|x rest IH]; intros i p; simpl; [done|]. by rewrite IH.
Qed.

Lemma assignPartitions_concat (per rem : nat) (members : list ConsumerGroupMember) :
  ∀ i p,
    concat (mem_assignedPartitions <$> assignPartitions per rem i p members)
    = seq p (length members * per
             + (Nat.min (i + length members) rem - Nat.min i rem)).
Proof.
  induction members as [|x rest IH]; intros i p.
  - simpl. by replace (Nat.min (i + 0) rem - Nat.min i rem)%nat with 0%nat by lia.
  - cbn [assignPartitions fmap list_fmap concat mem_assignedPartitions set_partitions length].
    change (list_fmap _ _ mem_assignedPartitions ?l) with (mem_assignedPartitions <$> l).
    rewrite IH, <- seq_app. f_equal.
    destruct (Nat.ltb_spec i rem); lia.
Qed.

Lemma assignPartitions_sizes (per rem : nat) (members : list ConsumerGroupMember) :
  ∀ i p,
    Forall (λ mem, length (mem_assignedPartitions mem) = per
                   ∨ length (mem_assignedPartitions mem) = (per + 1)%nat)
           (assignPartitions per rem i p members).
Proof.
  induction members as [|x rest IH]; intros i p; simpl; constructor; [|apply IH].
  simpl. rewrite length_seq. destruct (i <? rem)%nat; lia.
Qed.

(** [rebalance] spreads the 16 virtual partitions over the members of the
    group: read member by member, the assigned partitions are 0, 1, ..., 15,
    each exactly once, and every member gets 16/n or 16/n + 1 of them. The
    members themselves, and their order, stay. *)
Theorem rebalance_spreads_partitions (groupName : string) (m : ConsumerGroupManager)
    (group : ConsumerGroup) :
  cgm_groups m !! groupName = Some group →
  grp_members group ≠ [] →
  ∃ group',
    cgm_groups (rebalance groupName m) !! groupName = Some group'
    ∧ concat (mem_assignedPartitions <$> grp_members group') = seq 0 16
    ∧ Forall (λ mem,
                length (mem_assignedPartitions mem) = (16 / length (grp_members group))%nat
                ∨ length (mem_assignedPartitions mem)
                  = (16 / length (grp_members group) + 1)%nat)
             (grp_members group')
    ∧ mem_subscriberId <$> grp_members group' = mem_subscriberId <$> grp_members group.
Proof.
  intros Hgroup Hmembers. unfold rebalance. rewrite Hgroup.
  assert (length (grp_members group) ≠ 0) as Hn by (by destruct (grp_members group)).
  rewrite bool_decide_eq_false_2 by done. simpl. rewrite lookup_insert_eq.
  eexists. split; [done|]. simpl. split; [|split].
  - rewrite assignPartitions_concat. unfold numPartitions.
    pose proof (Nat.div_mod_eq 16 (length (grp_members group))) as Hdiv.
    pose proof (Nat.mod_upper_bound 16 (length (grp_members group)) Hn) as Hmod.
    set (n := length (grp_members group)) in *.
    set (d := (16 / n)%nat) in *. set (r := (16 mod n)%nat) in *.
    by replace (n * d + (Nat.min (0 + n) r - Nat.min 0 r))%nat with 16%nat by lia.
  - apply assignPartitions_sizes.
  - apply assignPartitions_leaders.
Qed.

(** [rebalance] is idempotent: a second call changes nothing. *)
Theorem rebalance_idempotent (groupName : string) (m : ConsumerGroupManager) :
  rebalance groupName (rebalance groupName m) = rebalance groupName m.
Proof.
  unfold rebalance at 2 3. destruct (cgm_groups m !! groupName) as [group|] eqn:Hgroup.
  - case_bool_decide as Hn.
    + unfold rebalance. rewrite Hgroup. by rewrite bool_decide_eq_true_2.
    + unfold rebalance. simpl. rewrite lookup_insert_eq. simpl.
      rewrite assignPartitions_length. rewrite bool_decide_eq_false_2 by done.
      unfold set_group, set_members. simpl.
      by rewrite assignPartitions_idem, insert_insert_eq.
  - unfold rebalance. by rewrite Hgroup.
Qed.

Lemma existsb_member (sid : string) (members : list ConsumerGroupMember) :
  existsb (λ mem, bool_decide (Some (mem_subscriberId mem) = Some sid)) members = true ↔
  sid ∈ mem_subscriberId <$> members.
Proof.
  rewrite existsb_exists, list_elem_of_fmap. split.
  - intros (mem & Hin & Heq). apply bool_decide_eq_true in Heq. injection Heq as <-.
    exists mem. split; [done|]. by apply list_elem_of_In.
  - intros (mem & -> & Hin). exists mem. split; [by apply list_elem_of_In|].
    by apply bool_decide_eq_true.
Qed.

Lemma lookup_member (members : list ConsumerGroupMember) (i : nat)
    (mem : ConsumerGroupMember) :
  members !! i = Some mem → mem_subscriberId mem ∈ mem_subscriberId <$> members.
Proof.
  intros H. apply list_elem_of_fmap. exists mem. split; [done|].
  by eapply list_elem_of_lookup_2.
Qed.

(** [getNextSubscriber] never picks an outsider: the subscriber it returns
    is a member of the group, and the groups are left as they were. It
    returns a member whenever the group has one and its strategy is
    round-robin or sticky; it returns nothing for a missing group, an empty
    group and a broadcast group. *)
Theorem getNextSubscriber_picks_member (random : nat) (groupName : string)
    (message : Message) (m : ConsumerGroupManager) :
  cgm_groups (snd (getNextSubscriber random groupName message m)) = cgm_groups m
  ∧ (∀ chosen, fst (getNextSubscriber random groupName message m) = Some chosen →
       ∃ group, cgm_groups m !! groupName = Some group
                ∧ chosen ∈ mem_subscriberId <$> grp_members group)
  ∧ (∀ group, cgm_groups m !! groupName = Some group → grp_members group ≠ [] →
       grp_strategy group = RoundRobin ∨ grp_strategy group = Sticky →
       is_Some (fst (getNextSubscriber random groupName message m)))
  ∧ ((cgm_groups m !! groupName = None
      ∨ ∃ group, cgm_groups m !! groupName = Some group
                 ∧ (grp_members group = [] ∨ grp_strategy group = Broadcast)) →
     getNextSubscriber random groupName message m = (None, m)).
Proof.
  unfold getNextSubscriber.
  destruct (cgm_groups m !! groupName) as [group|] eqn:Hgroup.
  2:{ split; [done|]. split; [done|]. split; [done|]. done. }
  case_bool_decide as Hn.
  { split; [done|]. split; [done|]. split; [|done].
    intros g [= <-] Hne. by destruct (grp_members group). }
  assert (0 < length (grp_members group))%nat as Hpos by lia.
  assert (∀ h : Z, is_Some (grp_members group
                    !! Z.to_nat (Z.abs h mod Z.of_nat (length (grp_members group)))))
    as Hsticky.
  { intros h. apply lookup_lt_is_Some.
    pose proof (Z.mod_pos_bound (Z.abs h) (Z.of_nat (length (grp_members group)))). lia. }
  assert (is_Some (grp_members group
            !! (default 0 (cgm_roundRobinIndex m !! grp_name group)
                mod length (grp_members group)))) as Hrr.
  { apply lookup_lt_is_Some. apply Nat.mod_upper_bound. lia. }
  destruct (grp_strategy group) eqn:Hstrategy.
  - (* round-robin *)
    unfold roundRobinSelect. simpl. destruct Hrr as [mem Hmem]. rewrite Hmem. simpl.
    split; [done|]. split; [|split].
    + intros chosen [= <-]. exists group. split; [done|]. by eapply lookup_member.
    + intros g _ _ _. by eexists.
    + intros [H|(g & [= <-] & [H|H])]; [done|by destruct (grp_members group)|congruence].
  - (* sticky *)
    unfold stickySelect.
    destruct (truthy (cgm_stickyAssignments m !! getStickyKey message)
              && existsb _ (grp_members group)) eqn:Hmemo.
    + apply andb_true_iff in Hmemo as [Htruthy Hexists].
      destruct (cgm_stickyAssignments m !! getStickyKey message) as [assigned|] eqn:Ha;
        [|done].
      simpl. split; [done|]. split; [|split].
      * intros chosen [= <-]. exists group. split; [done|]. by apply existsb_member.
      * intros g _ _ _. by eexists.
      * intros [H|(g & [= <-] & [H|H])]; [done|by destruct (grp_members group)|congruence].
    + destruct (Hsticky (hashCode (getStickyKey message))) as [mem Hmem]. rewrite Hmem.
      simpl. split; [done|]. split; [|split].
      * intros chosen [= <-]. exists group. split; [done|]. by eapply lookup_member.
      * intros g _ _ _. by eexists.
      * intros [H|(g & [= <-] & [H|H])]; [done|by destruct (grp_members group)|congruence].
  - (* broadcast *)
    simpl. split; [done|]. split; [done|]. split; [|done].
    intros g [= <-] _ [H|H]; congruence.
  - (* random *)
    simpl. split; [done|]. split; [|split].
    + unfold randomSelect. intros chosen H.
      destruct (grp_members group !! random) as [mem|] eqn:Hmem; [|done].
      injection H as <-. exists group. split; [done|]. by eapply lookup_member.
    + intros g [= <-] _ [H|H]; congruence.
    + intros [H|(g & [= <-] & [H|H])]; [done|by destruct (grp_members group)|congruence].
Qed.

(** Sticky selection is sticky: once a selection in a sticky group has
    returned a subscriber for a message, every later selection for a message
    with the same sticky key returns that subscriber, as long as it is a
    member of the group, whoever else joined or left. *)
Theorem sticky_selection_is_kept
    (random random' : nat) (groupName : string) (message message' : Message)
    (m m' : ConsumerGroupManager) (group group' : ConsumerGroup) (chosen : string) :
  cgm_groups m !! groupName = Some group →
  grp_strategy group = Sticky →
  fst (getNextSubscriber random groupName message m) = Some chosen →
  chosen ≠ "" →
  cgm_stickyAssignments m'
  = cgm_stickyAssignments (snd (getNextSubscriber random groupName message m)) →
  cgm_groups m' !! groupName = Some group' →
  grp_strategy group' = Sticky →
  chosen ∈ mem_subscriberId <$> grp_members group' →
  getStickyKey message' = getStickyKey message →
  getNextSubscriber random' groupName message' m' = (Some chosen, m').
Proof.
  intros Hgroup Hstrategy Hchosen Hne Hsame Hgroup' Hstrategy' Hmember Hkey.
  assert (cgm_stickyAssignments m' !! getStickyKey message = Some chosen) as Hmemo.
  { rewrite Hsame. clear Hsame. revert Hchosen. unfold getNextSubscriber.
    rewrite Hgroup, Hstrategy. case_bool_decide; [done|]. unfold stickySelect.
    destruct (truthy (cgm_stickyAssignments m !! getStickyKey message)
              && existsb _ (grp_members group)) eqn:Hm.
    - simpl. done.
    - destruct (grp_members group !! _) as [mem|]; [|done]. simpl.
      intros [= <-]. apply lookup_insert_eq. }
  unfold getNextSubscriber. rewrite Hgroup', Hstrategy'.
  rewrite bool_decide_eq_false_2
    by (destruct (grp_members group'); [by apply elem_of_nil in Hmember|done]).
  unfold stickySelect. rewrite Hkey, Hmemo. simpl.
  rewrite bool_decide_eq_false_2 by done. simpl.
  by rewrite (proj2 (existsb_member chosen (grp_members group')) Hmember).
Qed.

Lemma rebalance_memberToGroup (groupName : string) (m : ConsumerGroupManager) :
  cgm_memberToGroup (rebalance groupName m) = cgm_memberToGroup m.
Proof.
  unfold rebalance. destruct (cgm_groups m !! groupName) as [group|]; [|done].
  by case_bool_decide.
Qed.

(** Consistency only looks at the member ids of the groups and at the mapping. *)
Lemma membersConsistent_same_ids (m m' : ConsumerGroupManager) :
  (∀ g, memberIds <$> cgm_groups m' !! g = memberIds <$> cgm_groups m !! g) →
  cgm_memberToGroup m' = cgm_memberToGroup m →
  membersConsistent m → membersConsistent m'.
Proof.
  intros Hids Hmap [Hnd Hmapped]. split.
  - intros g group' Hg'. specialize (Hids g). rewrite Hg' in Hids.
    destruct (cgm_groups m !! g) as [group|] eqn:Hg; [|done].
    simpl in Hids. injection Hids as ->. by eapply Hnd.
  - intros sid g Hsid. rewrite Hmap in Hsid.
    destruct (Hmapped sid g Hsid) as (group & Hg & Hin).
    specialize (Hids g). rewrite Hg in Hids.
    destruct (cgm_groups m' !! g) as [group'|]; [|done].
    simpl in Hids. injection Hids as Hids. exists group'. split; [done|]. by rewrite Hids.
Qed.

Lemma rebalance_consistent (groupName : string) (m : ConsumerGroupManager) :
  membersConsistent m → membersConsistent (rebalance groupName m).
Proof.
  apply membersConsistent_same_ids; [|apply rebalance_memberToGroup].
  intros g. pose proof (rebalance_groups groupName g m) as H.
  destruct (cgm_groups (rebalance groupName m) !! g) as [grp'|],
           (cgm_groups m !! g) as [grp|]; simpl in *; try done.
  injection H as _ H. unfold memberIds. by rewrite H.
Qed.

Lemma updated_member_ids (f : ConsumerGroupMember → ConsumerGroupMember) (sid : string)
    (members : list ConsumerGroupMember) (index : nat) (member : ConsumerGroupMember) :
  (∀ mem, mem_subscriberId (f mem) = mem_subscriberId mem) →
  findEntry (isMember sid) members = Some (index, member) →
  mem_subscriberId <$> <[index := f member]> members = mem_subscriberId <$> members.
Proof.
  intros Hf Hfind. apply findEntry_Some in Hfind as (before & after & -> & <- & _ & _).
  rewrite insert_middle, !fmap_app, !fmap_cons. by rewrite Hf.
Qed.

Lemma set_group_same_ids (m : ConsumerGroupManager) (groupName : string)
    (group group' : ConsumerGroup) :
  cgm_groups m !! groupName = Some group →
  memberIds group' = memberIds group →
  membersConsistent m → membersConsistent (set_group m groupName group').
Proof.
  intros Hgroup Hids. apply membersConsistent_same_ids; [|done].
  intros g. simpl. destruct (decide (groupName = g)) as [<-|Hne].
  - rewrite lookup_insert_eq, Hgroup. simpl. by rewrite Hids.
  - by rewrite lookup_insert_ne.
Qed.

Lemma updateMember_consistent (f : ConsumerGroupMember → ConsumerGroupMember)
    (sid : string) (m : ConsumerGroupManager) :
  (∀ mem, mem_subscriberId (f mem) = mem_subscriberId mem) →
  membersConsistent m → membersConsistent (updateMember f sid m).
Proof.
  intros Hf Hm. unfold updateMember.
  destruct (cgm_memberToGroup m !! sid) as [groupName|]; [|done].
  case_bool_decide; [done|].
  destruct (cgm_groups m !! groupName) as [group|] eqn:Hgroup; [|done].
  destruct (findEntry (isMember sid) (grp_members group)) as [[index member]|] eqn:Hfind;
    [|done].
  apply (set_group_same_ids m groupName group); [done| |done].
  unfold memberIds. simpl. by eapply updated_member_ids.
Qed.

Lemma createGroup_consistent (now : Z) (name topic : string) (strategy : LoadBalanceStrategy)
    (m : ConsumerGroupManager) :
  membersConsistent m → membersConsistent (state_of (createGroup now name topic strategy m)).
Proof.
  intros [Hnd Hmapped]. unfold createGroup.
  destruct (cgm_groups m !! name) as [existing|] eqn:Hname; [done|]. simpl. split.
  - intros g group. simpl. destruct (decide (name = g)) as [<-|Hne].
    + rewrite lookup_insert_eq. intros [= <-]. apply NoDup_nil_2.
    + rewrite lookup_insert_ne by done. apply Hnd.
  - intros sid g Hsid. simpl in *. destruct (Hmapped sid g Hsid) as (group & Hg & Hin).
    exists group. split; [|done]. rewrite lookup_insert_ne; [done|].
    intros <-. rewrite Hname in Hg. discriminate Hg.
Qed.

Lemma joinGroup_consistent (now : Z) (groupName sid clientId : string)
    (m : ConsumerGroupManager) :
  membersConsistent m → membersConsistent (state_of (joinGroup now groupName sid clientId m)).
Proof.
  intros Hm. unfold joinGroup.
  destruct (cgm_groups m !! groupName) as [group|] eqn:Hgroup; [|done].
  destruct (findEntry (isMember sid) (grp_members group)) as [[index member]|] eqn:Hfind.
  - simpl. apply (set_group_same_ids m groupName group); [done| |done].
    unfold memberIds. simpl. by eapply updated_member_ids.
  - simpl. apply rebalance_consistent. destruct Hm as [Hnd Hmapped].
    apply findEntry_None in Hfind.
    assert (sid ∉ memberIds group) as Hnew.
    { unfold memberIds. rewrite list_elem_of_fmap. intros (mem & -> & Hin).
      rewrite Forall_forall in Hfind. specialize (Hfind mem Hin).
      by apply isMember_false in Hfind. }
    split.
    + intros g grp. simpl. destruct (decide (groupName = g)) as [<-|Hne].
      * rewrite lookup_insert_eq. intros [= <-]. unfold memberIds. simpl.
        rewrite fmap_app. apply NoDup_app. split; [by eapply Hnd|].
        split; [|apply NoDup_singleton].
        intros x Hx Hx'. apply list_elem_of_singleton in Hx' as ->. done.
      * rewrite lookup_insert_ne by done. apply Hnd.
    + intros sid' g. simpl. destruct (decide (sid = sid')) as [<-|Hne].
      * rewrite lookup_insert_eq. intros [= <-]. eexists. rewrite lookup_insert_eq.
        split; [done|]. unfold memberIds. simpl. rewrite fmap_app. apply elem_of_app.
        right. by apply list_elem_of_singleton.
      * rewrite lookup_insert_ne by done. intros Hsid'.
        destruct (Hmapped sid' g Hsid') as (grp & Hg & Hin).
        destruct (decide (groupName = g)) as [<-|Hg'].
        -- eexists. rewrite lookup_insert_eq. split; [done|]. unfold memberIds. simpl.
           rewrite fmap_app. apply elem_of_app. left.
           rewrite Hgroup in Hg. injection Hg as <-. exact Hin.
        -- exists grp. by rewrite lookup_insert_ne.
Qed.

Lemma electHead_ids (members : list ConsumerGroupMember) :
  mem_subscriberId <$> electHead members = mem_subscriberId <$> members.
Proof. by destruct members. Qed.

Lemma leaveGroup_consistent (sid : string) (m : ConsumerGroupManager) :
  membersConsistent m → membersConsistent (leaveGroup sid m).
Proof.
  intros Hm. unfold leaveGroup.
  destruct (cgm_memberToGroup m !! sid) as [groupName|] eqn:Hmap; [|done].
  case_bool_decide; [done|].
  destruct (cgm_groups m !! groupName) as [group|] eqn:Hgroup; [|done].
  destruct (findEntry (isMember sid) (grp_members group)) as [[index member]|] eqn:Hfind;
    [|done].
  apply rebalance_consistent. destruct Hm as [Hnd Hmapped].
  apply findEntry_Some in Hfind as (before & after & Hmembers & <- & Hmember & _).
  apply isMember_true in Hmember.
  rewrite Hmembers, delete_middle.
  set (members2 := if mem_isLeader member && negb (bool_decide (length (before ++ after) = 0))
                   then electHead (before ++ after) else before ++ after).
  assert (mem_subscriberId <$> members2 = mem_subscriberId <$> (before ++ after)) as Hids.
  { unfold members2. destruct (_ && _); [apply electHead_ids|done]. }
  pose proof (Hnd groupName group Hgroup) as Hnd0. unfold memberIds in Hnd0.
  rewrite Hmembers, fmap_app, fmap_cons in Hnd0.
  apply NoDup_app in Hnd0 as (Hb & Hba & Ha). apply NoDup_cons in Ha as [Hma Ha].
  split.
  - intros g grp. simpl. destruct (decide (groupName = g)) as [<-|Hne].
    + rewrite lookup_insert_eq. intros [= <-]. unfold memberIds. simpl.
      rewrite Hids, fmap_app. apply NoDup_app. split; [done|]. split; [|done].
      intros x Hx Hx'. apply (Hba x Hx). by apply elem_of_cons; right.
    + rewrite lookup_insert_ne by done. apply Hnd.
  - intros sid' g. simpl. destruct (decide (sid = sid')) as [<-|Hne].
    + by rewrite lookup_delete_eq.
    + rewrite lookup_delete_ne by done. intros Hsid'.
      destruct (Hmapped sid' g Hsid') as (grp & Hg & Hin).
      destruct (decide (groupName = g)) as [<-|Hg'].
      * eexists. rewrite lookup_insert_eq. split; [done|]. unfold memberIds. simpl.
        rewrite Hids. rewrite Hgroup in Hg. injection Hg as <-.
        unfold memberIds in Hin. rewrite Hmembers, fmap_app, fmap_cons in Hin.
        rewrite fmap_app. apply elem_of_app in Hin as [Hin|Hin].
        -- apply elem_of_app. by left.
        -- apply elem_of_cons in Hin as [Hin|Hin]; [congruence|].
           apply elem_of_app. by right.
      * exists grp. by rewrite lookup_insert_ne.
Qed.

Lemma unmap_members (members : list ConsumerGroupMember) :
  ∀ (mtg : gmap string string) (sid : string),
    foldl (λ mtg member, delete (mem_subscriberId member) mtg) mtg members !! sid
    = if bool_decide (sid ∈ mem_subscriberId <$> members) then None else mtg !! sid.
Proof.
  induction members as [|mem members IH]; intros mtg sid.
  - by rewrite bool_decide_eq_false_2 by apply not_elem_of_nil.
  - cbn [foldl]. rewrite IH, fmap_cons. case_bool_decide as Hin.
    + rewrite bool_decide_eq_true_2; [done|]. by apply elem_of_cons; right.
    + destruct (decide (mem_subscriberId mem = sid)) as [<-|Hne].
      * rewrite lookup_delete_eq. rewrite bool_decide_eq_true_2; [done|].
        apply list_elem_of_here.
      * rewrite lookup_delete_ne by done. rewrite bool_decide_eq_false_2; [done|].
        intros H. apply elem_of_cons in H as [H|H]; [congruence|done].
Qed.

Lemma deleteGroup_consistent (name : string) (m : ConsumerGroupManager) :
  membersConsistent m → membersConsistent (snd (deleteGroup name m)).
Proof.
  intros [Hnd Hmapped]. unfold deleteGroup.
  destruct (cgm_groups m !! name) as [group|] eqn:Hgroup; [|done]. simpl. split.
  - intros g grp. simpl. destruct (decide (name = g)) as [<-|Hne].
    + by rewrite lookup_delete_eq.
    + rewrite lookup_delete_ne by done. apply Hnd.
  - intros sid g. simpl. rewrite unmap_members. case_bool_decide as Hin; [done|].
    intros Hsid. destruct (Hmapped sid g Hsid) as (grp & Hg & Hin').
    exists grp. split; [|done]. rewrite lookup_delete_ne; [done|].
    intros <-. rewrite Hgroup in Hg. injection Hg as <-. done.
Qed.

Lemma getNextSubscriber_state (random : nat) (groupName : string) (message : Message)
    (m : ConsumerGroupManager) :
  cgm_groups (snd (getNextSubscriber random groupName message m)) = cgm_groups m
  ∧ cgm_memberToGroup (snd (getNextSubscriber random groupName message m))
    = cgm_memberToGroup m.
Proof.
  unfold getNextSubscriber. destruct (cgm_groups m !! groupName) as [group|]; [|done].
  case_bool_decide; [done|]. destruct (grp_strategy group); try done.
  unfold stickySelect. destruct (_ && _); [done|].
  by destruct (grp_members group !! _).
Qed.

(** Membership stays consistent: after any run of calls on a new manager, no
    group lists a subscriber twice (joining again only refreshes the
    heartbeat), and every subscriber that is mapped to a group is a member
    of that group, which exists. [getGroupForSubscriber] returns that group,
    except for the group named with the empty string, for which it returns
    nothing. *)
Theorem members_stay_consistent (calls : list GroupCall) :
  (∀ g group, cgm_groups (runGroupCalls calls newGroupManager) !! g = Some group →
              NoDup (mem_subscriberId <$> grp_members group))
  ∧ (∀ sid g, cgm_memberToGroup (runGroupCalls calls newGroupManager) !! sid = Some g →
       ∃ group, cgm_groups (runGroupCalls calls newGroupManager) !! g = Some group
                ∧ sid ∈ mem_subscriberId <$> grp_members group
                ∧ getGroupForSubscriber sid (runGroupCalls calls newGroupManager)
                  = if bool_decide (g = "") then None else Some group).
Proof.
  assert (∀ m, membersConsistent m → membersConsistent (runGroupCalls calls m)) as Hrun.
  { unfold runGroupCalls. induction calls as [|call calls IH]; intros m Hm; simpl; [done|].
    apply IH. destruct call; simpl.
    - by apply createGroup_consistent.
    - by apply joinGroup_consistent.
    - by apply leaveGroup_consistent.
    - by apply deleteGroup_consistent.
    - by apply updateMember_consistent.
    - by apply updateMember_consistent.
    - unfold commitOffset. destruct (cgm_groups m !! groupName) as [group|] eqn:Hgroup;
        [|done]. by apply (set_group_same_ids m groupName group).
    - destruct (getNextSubscriber_state random groupName message m) as [Hg Hmap].
      apply (membersConsistent_same_ids m); [|done|done].
      intros g. by rewrite Hg. }
  destruct (Hrun newGroupManager) as [Hnd Hmapped].
  { split; intros ? ? H; simpl in H; by rewrite lookup_empty in H. }
  split; [exact Hnd|]. intros sid g Hsid.
  destruct (Hmapped sid g Hsid) as (group & Hg & Hin). exists group.
  split; [done|]. split; [done|]. unfold getGroupForSubscriber. rewrite Hsid. simpl.
  by case_bool_decide.
Qed.


(** [leaveGroup] takes the subscriber out of the group it is mapped to and
    drops the mapping; the other members keep their order, the other groups
    are not touched (a subscriber that had joined another group before is
    still listed there), and leaving again changes nothing. The group named
    with the empty string is the exception: the guard [if (!groupName)
    return] takes its name for a missing mapping, and the call changes
    nothing. *)
Theorem leaveGroup_removes_member
    (sid groupName : string) (m : ConsumerGroupManager) (group : ConsumerGroup)
    (before after : list ConsumerGroupMember) (member : ConsumerGroupMember) :
  cgm_memberToGroup m !! sid = Some groupName →
  cgm_groups m !! groupName = Some group →
  grp_members group = before ++ member :: after →
  Forall (λ x, mem_subscriberId x ≠ sid) before →
  mem_subscriberId member = sid →
  (groupName ≠ "" →
   (∃ group',
      cgm_groups (leaveGroup sid m) !! groupName = Some group'
      ∧ mem_subscriberId <$> grp_members group' = mem_subscriberId <$> (before ++ after))
   ∧ cgm_memberToGroup (leaveGroup sid m) !! sid = None
   ∧ (∀ other, other ≠ groupName →
        cgm_groups (leaveGroup sid m) !! other = cgm_groups m !! other)
   ∧ leaveGroup sid (leaveGroup sid m) = leaveGroup sid m)
  ∧ (groupName = "" → leaveGroup sid m = m).
Proof.
  intros Hmap Hgroup Hmembers Hbefore Hmember.
  split; [intros Hname|intros ->; unfold leaveGroup; by rewrite Hmap].
  assert (∃ members2,
            leaveGroup sid m
            = rebalance groupName
                (set_memberToGroup (set_group m groupName (set_members group members2))
                                   (delete sid (cgm_memberToGroup m)))
            ∧ mem_subscriberId <$> members2 = mem_subscriberId <$> (before ++ after))
    as (members2 & Hleave & Hids).
  { unfold leaveGroup. rewrite Hmap, bool_decide_eq_false_2, Hgroup, Hmembers by done.
    rewrite (findEntry_first (isMember sid) before after member).
    - rewrite delete_middle. eexists. split; [reflexivity|].
      destruct (_ && _); [apply electHead_ids|done].
    - eapply Forall_impl; [exact Hbefore|]. intros x Hx. by apply isMember_false.
    - by apply isMember_true. }
  assert (cgm_memberToGroup (leaveGroup sid m) !! sid = None) as Hunmapped.
  { rewrite Hleave, rebalance_memberToGroup. simpl. apply lookup_delete_eq. }
  split; [|split; [|split]].
  - pose proof (rebalance_groups groupName groupName
                  (set_memberToGroup (set_group m groupName (set_members group members2))
                                     (delete sid (cgm_memberToGroup m)))) as Hview.
    rewrite <- Hleave in Hview. simpl in Hview. rewrite lookup_insert_eq in Hview.
    destruct (cgm_groups (leaveGroup sid m) !! groupName) as [group'|]; [|done].
    simpl in Hview. injection Hview as _ Hview. exists group'. split; [done|].
    by rewrite Hview.
  - exact Hunmapped.
  - intros other Hne. rewrite Hleave. unfold rebalance. simpl. rewrite lookup_insert_eq.
    case_bool_decide; simpl; by rewrite ?lookup_insert_ne by done.
  - unfold leaveGroup at 1. by rewrite Hunmapped.
Qed.

(** * Further properties of the broker *)

Lemma untouched_refl (sid : string) (b : MessageBroker) : untouched sid b b.
Proof. by repeat split. Qed.

Lemma untouched_trans (sid : string) (b1 b2 b3 : MessageBroker) :
  untouched sid b1 b2 → untouched sid b2 b3 → untouched sid b1 b3.
Proof.
  intros (H1 & H2 & H3 & H4 & H5 & H6) (G1 & G2 & G3 & G4 & G5 & G6).
  repeat split; congruence.
Qed.

Lemma queueMessage_untouched (now : Z) (sid sid' : string) (m : Message) (next : option Z)
    (b : MessageBroker) :
  sid' ≠ sid → untouched sid b (queueMessage now sid' m next b).
Proof.
  intros Hne. unfold untouched. split; [done|]. split; [done|].
  split; [|split; [|split]].
  - unfold queueMessage. simpl. apply enqueue_limits.
  - unfold queueMessage. simpl. by rewrite lookup_alter_ne.
  - unfold queueMessage. simpl. unfold enqueue. destruct (_ <=? _)%Z.
    + destruct (default [] (mq_queues (messageQueue b) !! sid')); simpl;
        by rewrite lookup_insert_ne.
    + simpl. by rewrite lookup_insert_ne.
  - apply queueMessage_calls.
Qed.

Lemma deliverMessage_untouched (now : Z) (sid sid' : string) (m : Message)
    (next : option Z) (b : MessageBroker) :
  sid' ≠ sid → untouched sid b (deliverMessage now sid' m next b).
Proof.
  intros Hne. unfold deliverMessage.
  destruct (messageCallbacks b !! sid' : option (Message → bool)) as [cb|];
    [|apply untouched_refl].
  assert (untouched sid b (log_sinkCall b sid' m)) as Hlog.
  { unfold untouched. simpl. repeat split. rewrite sinkCallsFor_log. by rewrite decide_False. }
  destruct (cb m).
  - eapply untouched_trans; [exact Hlog|]. unfold untouched. simpl.
    repeat split. by rewrite lookup_alter_ne.
  - eapply untouched_trans; [exact Hlog|]. by apply queueMessage_untouched.
Qed.

Lemma routeTo_untouched (now : Z) (m : Message) (b : MessageBroker) (sid sid' : string) :
  sid' ≠ sid → untouched sid b (routeTo now m b sid').
Proof.
  intros Hne. unfold routeTo. destruct (subscribers b !! sid') as [s|]; [|apply untouched_refl].
  destruct (sub_filter s) as [f|].
  - destruct (negb (matchesFilter m f)); [apply untouched_refl|].
    destruct (sub_isOnline s);
      [by apply deliverMessage_untouched|by apply queueMessage_untouched].
  - destruct (sub_isOnline s);
      [by apply deliverMessage_untouched|by apply queueMessage_untouched].
Qed.

Lemma route_fold_untouched (now : Z) (m : Message) (l : list string) (b : MessageBroker)
    (sid : string) :
  sid ∉ l → untouched sid b (foldl (routeTo now m) b l).
Proof.
  revert b. induction l as [|x l IH]; intros b Hnot; simpl; [apply untouched_refl|].
  apply not_elem_of_cons in Hnot as [Hne Hnot].
  eapply untouched_trans; [by apply routeTo_untouched|by apply IH].
Qed.

(** Routing treats the subscriber once: what it sees is the state as it
    was, as far as the subscriber is concerned, and what is left is what
    that one step made. *)
Lemma route_fold_decompose (now : Z) (m : Message) (l : list string) (b : MessageBroker)
    (sid : string) :
  NoDup l → sid ∈ l →
  ∃ b1, untouched sid b b1
        ∧ untouched sid (routeTo now m b1 sid) (foldl (routeTo now m) b l).
Proof.
  revert b. induction l as [|x l IH]; intros b Hnd Hin; simpl.
  - by apply elem_of_nil in Hin.
  - apply NoDup_cons in Hnd as [Hx Hnd]. destruct (decide (x = sid)) as [->|Hne].
    + exists b. split; [apply untouched_refl|]. by apply route_fold_untouched.
    + apply elem_of_cons in Hin as [->|Hin]; [done|].
      destruct (IH (routeTo now m b x) Hnd Hin) as (b1 & H1 & H2).
      exists b1. split; [|done].
      eapply untouched_trans; [by apply routeTo_untouched|done].
Qed.

Lemma routeMessage_decompose (now : Z) (m : Message) (b : MessageBroker) (sid : string) :
  sid ∈ getSubscribers (msg_topic m) (topicManager b) ++ getSubscribers "#" (topicManager b) →
  ∃ b1, untouched sid b b1 ∧ untouched sid (routeTo now m b1 sid) (routeMessage now m b).
Proof.
  intros Hin. unfold routeMessage.
  apply route_fold_decompose; [apply newSet_NoDup|by apply newSet_elem].
Qed.

Lemma routeMessage_untouched (now : Z) (m : Message) (b : MessageBroker) (sid : string) :
  sid ∉ getSubscribers (msg_topic m) (topicManager b) ++ getSubscribers "#" (topicManager b) →
  untouched sid b (routeMessage now m b).
Proof.
  intros Hnot. unfold routeMessage. apply route_fold_untouched. by rewrite newSet_elem.
Qed.

(** What [publish] does before it routes. *)
Lemma publish_steps (b : MessageBroker) (now : Z) (newId topic : string) (payload : Payload)
    (publisherId : string) (options : PublishOptions) :
  is_Some (tm_topics (topicManager b) !! topic) ∨ validTopicName topic = true →
  ∃ tm1,
    publish now newId topic payload publisherId options b
    = Returned (publishedMessage now newId topic payload publisherId options)
        (count_published now
           (routeMessage now (publishedMessage now newId topic payload publisherId options)
              (trackPublisher now publisherId topic
                 (set_topicManager b
                    (recordMessage now
                       (publishedMessage now newId topic payload publisherId options) tm1)))))
    ∧ is_Some (tm_topics tm1 !! topic)
    ∧ (∀ sid t, subscribedTo sid t (topicManager b) → subscribedTo sid t tm1)
    ∧ (∀ t, t ≠ topic → tm_topicSubscribers tm1 !! t = tm_topicSubscribers (topicManager b) !! t)
    ∧ (is_Some (tm_topics (topicManager b) !! topic) → tm1 = topicManager b).
Proof.
  intros Htopic. unfold publish. destruct (hasTopic topic (topicManager b)) eqn:Hhas.
  - exists (topicManager b). split; [done|]. split; [by apply hasTopic_true|].
    split; [by intros sid t H|]. split; [by intros t H|done].
  - destruct Htopic as [Hex|Hvalid]; [by apply hasTopic_true in Hex; congruence|].
    destruct (createTopic now topic publisherId noOverrides (topicManager b))
      as [tp tm1|e tm1] eqn:Hcreate.
    + exists tm1. split; [done|].
      destruct (createTopic_subscribedTo _ _ _ _ _ _ _ "" "" Hcreate) as (_ & Hex & _).
      split; [done|]. split; [|split].
      * intros sid t. by apply (createTopic_subscribedTo _ _ _ _ _ _ _ sid t Hcreate).
      * intros t Hne. apply createTopic_returned in Hcreate as (_ & _ & ->).
        by rewrite lookup_insert_ne.
      * intros Hex'. apply hasTopic_true in Hex'. congruence.
    + unfold createTopic in Hcreate. by rewrite Hhas, Hvalid in Hcreate.
Qed.

Lemma accepts_untouched (sid : string) (m : Message) (b b' : MessageBroker) :
  untouched sid b b' → accepts sid m b → accepts sid m b'.
Proof.
  intros (_ & Hc & _ & Hs & _ & _) (s & cb & Hsub & Ho & Hf & Hcb).
  exists s, cb. rewrite Hs, Hc. by repeat split.
Qed.


Lemma subscribe_registers (fuel : nat) (now : Z) (newId clientId : string)
    (topics : list string) (callback : Message → bool) (filter : option MessageFilter)
    (b b' : MessageBroker) (s : Subscriber) :
  tmConsistent (topicManager b) →
  subscribe fuel now newId clientId topics callback filter b = Some (Returned s b') →
  (∀ t, t ∈ topics → subscribedTo (subscriberIdFor clientId newId) t (topicManager b'))
  ∧ messageCallbacks b' !! subscriberIdFor clientId newId = Some callback
  ∧ ∃ s', subscribers b' !! subscriberIdFor clientId newId = Some s'
          ∧ sub_isOnline s' = true ∧ sub_filter s' = filter.
Proof.
  intros Hc H. unfold subscribe in H.
  destruct (subscribeTopics now clientId (subscriberIdFor clientId newId) topics _)
    as [[] tm|] eqn:Htopics; [|done].
  simpl in Htopics.
  destruct (drainQueue fuel now _ _) as [b2|] eqn:Hdrain; [|done].
  simpl in H. injection H as _ <-.
  apply drainQueue_routing in Hdrain as (Ht & Hcb & Hview). simpl in *.
  rewrite Ht, Hcb. split; [|split].
  - intros t Hin.
    by destruct (subscribeTopics_subscribedTo _ _ _ _ _ _ t Htopics Hc) as (_ & _ & Hsub);
      apply Hsub.
  - apply lookup_insert_eq.
  - specialize (Hview (subscriberIdFor clientId newId)).
    rewrite lookup_insert_eq in Hview.
    destruct (subscribers b2 !! subscriberIdFor clientId newId) as [s'|]; [|done].
    simpl in Hview. injection Hview as Ho Hf. by exists s'.
Qed.

(** Round trip of subscribe and publish: after [subscribe] to a list of
    topics, a message published to any of them is passed to the
    subscriber's sink exactly once, with the topic, payload and publisher
    given to [publish]. *)
Theorem subscribe_then_publish
    (fuel : nat) (now : Z) (newId clientId : string) (topics : list string)
    (callback : Message → bool) (b b1 : MessageBroker) (s : Subscriber)
    (now' : Z) (newId' topic : string) (payload : Payload) (publisherId : string)
    (options : PublishOptions) :
  tmConsistent (topicManager b) →
  subscribe fuel now newId clientId topics callback None b = Some (Returned s b1) →
  topic ∈ topics →
  ∃ message b2,
    publish now' newId' topic payload publisherId options b1 = Returned message b2
    ∧ msg_topic message = topic ∧ msg_payload message = payload
    ∧ msg_publisherId message = publisherId ∧ msg_id message = newId'
    ∧ sinkCallsFor (subscriberIdFor clientId newId) b2
      = sinkCallsFor (subscriberIdFor clientId newId) b1 ++ [message].
Proof.
  intros Hc Hsubscribe Hin.
  destruct (subscribe_registers _ _ _ _ _ _ _ _ _ _ Hc Hsubscribe)
    as (Hsub & Hcb & s' & Hs' & Honline & Hfilter).
  pose proof (Hsub topic Hin) as [Hex Hmember].
  destruct (publish_steps b1 now' newId' topic payload publisherId options (or_introl Hex))
    as (tm1 & Hpublish & _ & Hkeep & _ & _).
  set (message := publishedMessage now' newId' topic payload publisherId options) in *.
  exists message. eexists. split; [exact Hpublish|]. repeat split.
  change (sinkCallsFor ?sid (count_published now' ?x)) with (sinkCallsFor sid x).
  rewrite routeMessage_once; [done| |].
  - apply elem_of_app. left.
    apply (recordMessage_subscribedTo now' message), Hkeep. by split.
  - exists s', callback. simpl. repeat split; auto. intros f Hf. congruence.
Qed.

(** [publish] to a topic that does not exist and whose name is not valid
    throws InvalidName and changes nothing: no topic, no history entry, no
    publisher statistics, no delivery. *)
Theorem publish_invalid_topic_changes_nothing
    (b : MessageBroker) (now : Z) (newId topic : string) (payload : Payload)
    (publisherId : string) (options : PublishOptions) :
  tm_topics (topicManager b) !! topic = None →
  validTopicName topic = false →
  publish now newId topic payload publisherId options b = Thrown InvalidName b.
Proof.
  intros Hnone Hinvalid. unfold publish, createTopic.
  rewrite (proj2 (hasTopic_false topic (topicManager b)) Hnone), Hinvalid. simpl.
  by destruct b.
Qed.

Lemma publish_unknown_subscriber (b : MessageBroker) (sid : string) (now : Z)
    (newId topic : string) (payload : Payload) (publisherId : string)
    (options : PublishOptions) :
  subscribers b !! sid = None →
  sinkCallsFor sid (state_of (publish now newId topic payload publisherId options b))
  = sinkCallsFor sid b
  ∧ subscribers (state_of (publish now newId topic payload publisherId options b)) !! sid
    = None
  ∧ mq_queues (messageQueue
                 (state_of (publish now newId topic payload publisherId options b))) !! sid
    = mq_queues (messageQueue b) !! sid.
Proof.
  intros Hnone.
  destruct (hasTopic topic (topicManager b) || validTopicName topic) eqn:Hok.
  - assert (is_Some (tm_topics (topicManager b) !! topic) ∨ validTopicName topic = true)
      as Htopic.
    { apply orb_true_iff in Hok as [H|H]; [left; by apply hasTopic_true|by right]. }
    destruct (publish_steps b now newId topic payload publisherId options Htopic)
      as (tm1 & -> & _). simpl.
    set (message := publishedMessage now newId topic payload publisherId options).
    set (b2 := trackPublisher now publisherId topic
                 (set_topicManager b (recordMessage now message tm1))).
    change (sinkCallsFor sid (count_published now ?x)) with (sinkCallsFor sid x).
    assert (untouched sid b2 (routeMessage now message b2)) as (_ & _ & _ & H4 & H5 & H6).
    { destruct (decide (sid ∈ getSubscribers (msg_topic message) (topicManager b2)
                              ++ getSubscribers "#" (topicManager b2))) as [Hin|Hnot].
      - destruct (routeMessage_decompose now message b2 sid Hin) as (b1 & H1 & H2).
        eapply untouched_trans; [exact H1|].
        assert (routeTo now message b1 sid = b1) as Hsame; [|by rewrite Hsame in H2].
        unfold routeTo. destruct H1 as (_ & _ & _ & -> & _). simpl. by rewrite Hnone.
      - by apply routeMessage_untouched. }
    by rewrite H4, H5, H6.
  - apply orb_false_iff in Hok as [Hhas Hinvalid].
    unfold publish, createTopic. by rewrite Hhas, Hinvalid.
Qed.

(** After a full [unsubscribe] the subscriber is gone from the broker and
    from every topic's set, and no later publish calls its sink or queues
    anything for it. Its queue is not cleared: what was queued stays. *)
Theorem unsubscribed_receives_nothing
    (b : MessageBroker) (sid : string) (s : Subscriber)
    (now : Z) (newId topic : string) (payload : Payload) (publisherId : string)
    (options : PublishOptions) :
  subscribers b !! sid = Some s →
  fst (unsubscribe sid None b) = true
  ∧ subscribers (snd (unsubscribe sid None b)) !! sid = None
  ∧ messageCallbacks (snd (unsubscribe sid None b)) !! sid = None
  ∧ (∀ t, sid ∉ getSubscribers t (topicManager (snd (unsubscribe sid None b))))
  ∧ messageQueue (snd (unsubscribe sid None b)) = messageQueue b
  ∧ sinkCallsFor sid
      (state_of (publish now newId topic payload publisherId options
                         (snd (unsubscribe sid None b))))
    = sinkCallsFor sid b
  ∧ mq_queues (messageQueue
                 (state_of (publish now newId topic payload publisherId options
                                    (snd (unsubscribe sid None b))))) !! sid
    = mq_queues (messageQueue b) !! sid.
Proof.
  intros Hs. unfold unsubscribe. rewrite Hs. simpl.
  split; [done|]. split; [apply lookup_delete_eq|]. split; [apply lookup_delete_eq|].
  split; [|split; [done|]].
  - intros t. unfold getSubscribers. simpl. rewrite lookup_fmap.
    destruct (tm_topicSubscribers (topicManager b) !! t) as [subs|]; simpl.
    + rewrite list_elem_of_filter. by intros [Hne _].
    + apply not_elem_of_nil.
  - match goal with |- context [publish _ _ _ _ _ _ ?b1] =>
      destruct (publish_unknown_subscriber b1 sid now newId topic payload publisherId options)
        as (Hcalls & _ & Hqueue) end.
    { simpl. apply lookup_delete_eq. }
    by rewrite Hcalls, Hqueue.
Qed.

(** [subscribe] is not atomic: when the first topic of the list does not
    exist and has no valid name, it throws InvalidName after the subscriber
    and its callback were registered, and they stay registered although the
    subscriber is in no topic's set. *)
Theorem subscribe_invalid_topic_leaves_subscriber
    (fuel : nat) (now : Z) (newId clientId bad : string) (rest : list string)
    (callback : Message → bool) (filter : option MessageFilter) (b : MessageBroker) :
  tm_topics (topicManager b) !! bad = None →
  validTopicName bad = false →
  ∃ b',
    subscribe fuel now newId clientId (bad :: rest) callback filter b
    = Some (Thrown InvalidName b')
    ∧ topicManager b' = topicManager b
    ∧ messageCallbacks b' !! subscriberIdFor clientId newId = Some callback
    ∧ subscribers b' !! subscriberIdFor clientId newId
      = Some (mkSubscriber (subscriberIdFor clientId newId) clientId (newSet (bad :: rest))
                           now now true 0 0 filter).
Proof.
  intros Hnone Hinvalid. unfold subscribe. simpl. unfold createTopic.
  rewrite (proj2 (hasTopic_false bad (topicManager b)) Hnone), Hinvalid. simpl.
  eexists. split; [reflexivity|]. simpl. split; [by destruct (topicManager b)|].
  by rewrite !lookup_insert_eq.
Qed.





Lemma drainLoop_delivers (now : Z) (sid : string) (cb : Message → bool) :
  ∀ (ms : list QueuedMessage) (b : MessageBroker) (fuel : nat),
    getAll sid (messageQueue b) = ms →
    messageCallbacks b !! sid = Some cb →
    Forall (λ m, isReady now m = true ∧ cb (qm_base m) = true) ms →
    (length ms < fuel)%nat →
    ∃ b',
      drainLoop fuel now sid b = Some b'
      ∧ sinkCallsFor sid b' = sinkCallsFor sid b ++ (qm_base <$> ms)
      ∧ getAll sid (messageQueue b') = []
      ∧ ∀ s, subscribers b !! sid = Some s →
             ∃ s', subscribers b' !! sid = Some s'
                   ∧ sub_isOnline s' = sub_isOnline s
                   ∧ sub_deliveredMessages s'
                     = (sub_deliveredMessages s + length ms)%nat.
Proof.
  induction ms as [|m rest IH]; intros b fuel Hall Hcb Hok Hfuel;
    (destruct fuel as [|fuel]; [simpl in Hfuel; lia|]).
  - exists b. simpl. unfold dequeue. unfold getAll in Hall.
    destruct (mq_queues (messageQueue b) !! sid) as [l|] eqn:Hq.
    + simpl in Hall. subst l. simpl. rewrite app_nil_r. repeat split; try done.
      * unfold getAll. by rewrite Hq.
      * intros s Hs. exists s. repeat split; [done|lia].
    + rewrite app_nil_r. repeat split; try done.
      * unfold getAll. by rewrite Hq.
      * intros s Hs. exists s. repeat split; [done|lia].
  - apply Forall_cons in Hok as [[Hready Haccepts] Hok].
    unfold getAll in Hall.
    destruct (mq_queues (messageQueue b) !! sid) as [l|] eqn:Hq; [|done].
    simpl in Hall. subst l.
    cbn [drainLoop]. unfold dequeue. rewrite Hq. cbn [length].
    rewrite bool_decide_eq_false_2 by done. cbn [findEntry]. rewrite Hready. cbn [delete].
    unfold deliverMessage at 1.
    change (messageCallbacks (set_messageQueue b ?q)) with (messageCallbacks b).
    rewrite Hcb, Haccepts.
    match goal with |- ∃ b', drainLoop fuel now sid ?x = _ ∧ _ => set (b1 := x) end.
    destruct (IH b1 fuel) as (b' & Hloop & Hcalls & Hempty & Hsubs).
    + unfold getAll, b1. simpl. by rewrite lookup_insert_eq.
    + exact Hcb.
    + exact Hok.
    + simpl in Hfuel. lia.
    + exists b'. split; [exact Hloop|]. split; [|split; [exact Hempty|]].
      * rewrite Hcalls. unfold b1, sinkCallsFor. simpl.
        rewrite List.filter_app. simpl. rewrite bool_decide_eq_true_2 by done.
        rewrite fmap_app. simpl. by rewrite <- app_assoc.
      * intros s Hs.
        destruct (Hsubs (delivered now s)) as (s' & Hs' & Honline & Hcount).
        { unfold b1. simpl. by rewrite lookup_alter_eq, Hs. }
        exists s'. split; [exact Hs'|]. split; [by rewrite Honline|].
        rewrite Hcount. simpl. lia.
Qed.

(** When a subscriber comes back online, the messages waiting in its queue
    are passed to its sink in the order of the queue (all of them due, the
    sink accepting each): the queue is empty afterwards, the pending count is
    0 and the delivered count has grown by the number of messages. *)
Theorem setSubscriberOnline_drains_in_order
    (b : MessageBroker) (sid : string) (s : Subscriber) (cb : Message → bool)
    (now : Z) (fuel : nat) :
  subscribers b !! sid = Some s →
  messageCallbacks b !! sid = Some cb →
  Forall (λ m, isReady now m = true ∧ cb (qm_base m) = true)
         (getAll sid (messageQueue b)) →
  (getQueueDepth sid (messageQueue b) < fuel)%nat →
  ∃ b' s',
    setSubscriberOnline fuel now sid true b = Some b'
    ∧ sinkCallsFor sid b'
      = sinkCallsFor sid b ++ (qm_base <$> getAll sid (messageQueue b))
    ∧ getAll sid (messageQueue b') = []
    ∧ subscribers b' !! sid = Some s'
    ∧ sub_isOnline s' = true
    ∧ sub_pendingMessages s' = 0%nat
    ∧ sub_deliveredMessages s'
      = (sub_deliveredMessages s + getQueueDepth sid (messageQueue b))%nat.
Proof.
  intros Hs Hcb Hok Hfuel. unfold setSubscriberOnline. rewrite Hs.
  set (b1 := set_subscribers b (<[sid := set_online now true s]> (subscribers b))).
  destruct (drainLoop_delivers now sid cb (getAll sid (messageQueue b)) b1 fuel)
    as (b' & Hloop & Hcalls & Hempty & Hsubs); [done|done|done|exact Hfuel|].
  destruct (Hsubs (set_online now true s)) as (s' & Hs' & Honline & Hcount).
  { unfold b1. simpl. by rewrite lookup_insert_eq. }
  unfold drainQueue. rewrite Hloop. simpl.
  eexists _, (set_pendingMessages 0 s'). split; [reflexivity|].
  split; [exact Hcalls|]. split; [exact Hempty|].
  split.
  { unfold set_subscribers. cbn [subscribers]. rewrite lookup_alter_eq, Hs'. simpl.
    unfold getQueueDepth. unfold getAll in Hempty. by rewrite Hempty. }
  split; [exact Honline|]. split; [done|]. exact Hcount.
Qed.

Lemma queueMessage_puts_back (now : Z) (sid : string) (m : Message) (next : option Z)
    (b : MessageBroker) (P : QueuedMessage → Prop) :
  Forall P (getAll sid (messageQueue b)) →
  P (mkQueuedMessage m sid now 0 (maxRetriesFor (getTopic (msg_topic m) (topicManager b)))
       next) →
  getAll sid (messageQueue (queueMessage now sid m next b)) ≠ []
  ∧ Forall P (getAll sid (messageQueue (queueMessage now sid m next b))).
Proof.
  intros Hall Hnew. unfold queueMessage, enqueue, getAll in *. simpl.
  destruct (mq_maxQueueSize (messageQueue b)
            <=? Z.of_nat (length (default [] (mq_queues (messageQueue b) !! sid))))%Z.
  - destruct (default [] (mq_queues (messageQueue b) !! sid)) as [|evicted rest];
      simpl; rewrite lookup_insert_eq; simpl.
    + split; [done|by apply Forall_singleton].
    + split; [by destruct rest|].
      apply Forall_app. split; [by apply Forall_cons in Hall as [_ ?]|by apply Forall_singleton].
  - simpl. rewrite lookup_insert_eq. simpl. split.
    + by destruct (default [] (mq_queues (messageQueue b) !! sid)).
    + apply Forall_app. split; [done|by apply Forall_singleton].
Qed.

(** Draining a queue does not end when the sink throws on every message
    that waits there and all of them are due: each message that fails is
    put back in the queue, due as before, so the loop finds a message at
    every iteration, however many iterations it is given. *)
Theorem drainQueue_loops_while_sink_throws
    (now : Z) (sid : string) (cb : Message → bool) (fuel : nat) :
  ∀ b : MessageBroker,
    messageCallbacks b !! sid = Some cb →
    getAll sid (messageQueue b) ≠ [] →
    Forall (λ m, isReady now m = true ∧ cb (qm_base m) = false)
           (getAll sid (messageQueue b)) →
    drainQueue fuel now sid b = None.
Proof.
  assert (∀ b : MessageBroker,
            messageCallbacks b !! sid = Some cb →
            getAll sid (messageQueue b) ≠ [] →
            Forall (λ m, isReady now m = true ∧ cb (qm_base m) = false)
                   (getAll sid (messageQueue b)) →
            drainLoop fuel now sid b = None) as Hloop.
  { induction fuel as [|fuel IH]; intros b Hcb Hne Hall; [done|].
    unfold getAll in Hne, Hall.
    destruct (mq_queues (messageQueue b) !! sid) as [[|m rest]|] eqn:Hq; [done| |done].
    simpl in Hall. apply Forall_cons in Hall as [[Hready Hthrows] Hrest].
    cbn [drainLoop]. unfold dequeue. rewrite Hq. cbn [length].
    rewrite bool_decide_eq_false_2 by done. cbn [findEntry]. rewrite Hready. cbn [delete].
    unfold deliverMessage at 1.
    change (messageCallbacks (set_messageQueue b ?q)) with (messageCallbacks b).
    rewrite Hcb, Hthrows.
    match goal with
    | |- drainLoop fuel now sid (queueMessage now sid ?base ?next ?b1) = None =>
        destruct (queueMessage_puts_back now sid base next b1
                    (λ m, isReady now m = true ∧ cb (qm_base m) = false))
          as [Hne' Hall']
    end.
    - unfold getAll. simpl. by rewrite lookup_insert_eq.
    - done.
    - apply IH; [exact Hcb|exact Hne'|exact Hall']. }
  intros b Hcb Hne Hall. unfold drainQueue. by rewrite Hloop.
Qed.

(** * Instances of the theorems on sample states *)

Lemma ack_nack_missing_unchanged_witness :
  (mq_queues (messageQueue (set_messageQueue newMessageBroker sampleQueue)) !! "s" = None
   ∨ ∃ queue,
       mq_queues (messageQueue (set_messageQueue newMessageBroker sampleQueue)) !! "s"
       = Some queue
       ∧ ∀ m, m ∈ queue → qm_id m ≠ "zz")
  ∧ brokerAck "s" "zz" (set_messageQueue newMessageBroker sampleQueue)
    = (false, set_messageQueue newMessageBroker sampleQueue)
  ∧ brokerNack 7 "s" "zz" "failed" (set_messageQueue newMessageBroker sampleQueue)
    = (false, set_messageQueue newMessageBroker sampleQueue).
Proof.
  assert (mq_queues (messageQueue (set_messageQueue newMessageBroker sampleQueue)) !! "s" = None
          ∨ ∃ queue,
              mq_queues (messageQueue (set_messageQueue newMessageBroker sampleQueue)) !! "s"
              = Some queue
              ∧ ∀ m, m ∈ queue → qm_id m ≠ "zz") as H.
  { right. exists [waitingMessage; sampleQueued "m1"]. split; [reflexivity|].
    intros m Hm. apply elem_of_cons in Hm as [->|Hm]; [discriminate|].
    apply list_elem_of_singleton in Hm as ->. discriminate. }
  split; [exact H|].
  destruct (ack_nack_missing_unchanged (set_messageQueue newMessageBroker sampleQueue)
              7 "s" "zz" "failed" H) as (_ & _ & Hack & Hnack).
  split; [exact Hack|exact Hnack].
Defined.

Lemma dequeue_first_due_witness :
  (0 ≤ 5)%Z
  ∧ dequeue 5 "s" sampleQueue
    = (Some (sampleQueued "m1"), set_queue sampleQueue "s" ([waitingMessage] ++ [])).
Proof.
  split; [lia|].
  destruct (dequeue_first_due sampleQueue 5 "s" ltac:(lia)) as (Hfirst & _ & _).
  apply (Hfirst [waitingMessage] (sampleQueued "m1") []).
  - reflexivity.
  - constructor; [|constructor]. exists 2005%Z. split; [reflexivity|lia].
  - exact I.
Defined.

Lemma nack_backoff_or_dead_letter_witness :
  mq_queues sampleQueue !! "s" = Some ([waitingMessage] ++ sampleQueued "m1" :: [])
  ∧ Forall (λ x, qm_id x ≠ "m1") [waitingMessage]
  ∧ qm_id (sampleQueued "m1") = "m1"
  ∧ mq_queues (nackTimes ([1000%Z] ++ [2000%Z]) "s" "m1" "failed" sampleQueue) !! "s"
    = Some ([waitingMessage]
            ++ rescheduled (sampleQueued "m1") 2 (Some (2000 + Z.min (1000 * 2 ^ 2) 60000)%Z)
            :: []).
Proof.
  assert (Forall (λ x, qm_id x ≠ "m1") [waitingMessage]) as Hbefore.
  { constructor; [discriminate|constructor]. }
  split; [reflexivity|]. split; [exact Hbefore|]. split; [reflexivity|].
  destruct (nack_backoff_or_dead_letter sampleQueue 1000 "s" "m1" "failed"
              [waitingMessage] [] (sampleQueued "m1") eq_refl Hbefore eq_refl)
    as (_ & _ & _ & Htimes).
  apply (Htimes [1000%Z] 2000%Z); [reflexivity|]. simpl. lia.
Defined.

Lemma enqueue_bounded_by_queue_limit_witness :
  mq_queues fullQueue !! "s" = Some (sampleQueued "m1" :: [sampleQueued "m2"])
  ∧ (mq_maxQueueSize fullQueue ≤ Z.of_nat (length (sampleQueued "m1" :: [sampleQueued "m2"])))%Z
  ∧ (1 ≤ mq_maxDeadLetterSize fullQueue)%Z
  ∧ mq_queues (enqueue 3 "s" (sampleQueued "m3") fullQueue) !! "s"
    = Some ([sampleQueued "m2"] ++ [sampleQueued "m3"])
  ∧ last (mq_deadLetterQueue (enqueue 3 "s" (sampleQueued "m3") fullQueue))
    = Some (deadLetterOf 3 (sampleQueued "m1") overflowReason).
Proof.
  assert (mq_maxQueueSize fullQueue
          ≤ Z.of_nat (length (sampleQueued "m1" :: [sampleQueued "m2"])))%Z as Hfull.
  { simpl. lia. }
  assert (1 ≤ mq_maxDeadLetterSize fullQueue)%Z as Hdead.
  { simpl. lia. }
  split; [reflexivity|]. split; [exact Hfull|]. split; [exact Hdead|].
  destruct (enqueue_bounded_by_queue_limit 2 1000 [] fullQueue 3 "s"
              (sampleQueued "m1") (sampleQueued "m3") [sampleQueued "m2"]
              eq_refl Hfull Hdead) as (_ & Hevict & _).
  exact Hevict.
Defined.

Lemma recordMessage_history_bounds_witness :
  tm_topics sampleTopicManager !! msg_topic (sampleMessage "m1" 100) = Some sampleTopic
  ∧ ∃ history n,
      tm_messageHistory (recordMessage 100 (sampleMessage "m1" 100) sampleTopicManager)
        !! msg_topic (sampleMessage "m1" 100) = Some history
      ∧ (length history ≤ 1000)%nat
      ∧ history = drop (length (drop n [sampleMessage "m1" 100]) - 1000)
                       (drop n [sampleMessage "m1" 100]).
Proof.
  split; [reflexivity|].
  destruct (recordMessage_history_bounds sampleTopicManager 100 (sampleMessage "m1" 100)
              sampleTopic eq_refl) as (history & n & Hlookup & Hlen & _ & _ & _ & _ & Hdrop).
  exists history, n. split; [exact Hlookup|]. split; [exact Hlen|exact Hdrop].
Defined.

Lemma createTopic_outcomes_witness :
  tm_topics newTopicManager !! "a.b" = None
  ∧ "a.b" ≠ ""
  ∧ (∀ c, c ∈ list_ascii_of_string "a.b" → c ∈ allowedChars)
  ∧ ∃ topic tm',
      createTopic 7 "a.b" "admin" (mkPartialTopicConfig None None (Some 5%Z) None None)
                  newTopicManager = Returned topic tm'
      ∧ topic_config topic = mkTopicConfig 1000 3600000 5 5000 false.
Proof.
  assert (∀ c, c ∈ list_ascii_of_string "a.b" → c ∈ allowedChars) as Hchars.
  { apply Forall_forall.
    repeat constructor; apply (bool_decide_unpack _); vm_compute; exact I. }
  assert ("a.b" ≠ "") as Hne by discriminate.
  split; [reflexivity|]. split; [exact Hne|]. split; [exact Hchars|].
  destruct (createTopic_outcomes newTopicManager 7 "a.b" "admin"
              (mkPartialTopicConfig None None (Some 5%Z) None None)) as (_ & _ & Hok).
  destruct (Hok eq_refl Hne Hchars) as (topic & tm' & Hcreate & Htopic & _).
  exists topic, tm'. split; [exact Hcreate|]. rewrite Htopic. reflexivity.
Defined.



(** ** The message queue *)

Lemma ack_removes_first_match_witness :
  mq_queues sampleQueue !! "s" = Some ([waitingMessage] ++ sampleQueued "m1" :: [])
  ∧ ack "s" "m1" sampleQueue = (true, set_queue sampleQueue "s" ([waitingMessage] ++ [])).
Proof.
  split; [reflexivity|].
  apply (ack_removes_first_match sampleQueue "s" "m1" [waitingMessage] [] (sampleQueued "m1")).
  - reflexivity.
  - constructor; [discriminate|constructor].
  - reflexivity.
Defined.

Lemma enqueue_dequeue_fifo_witness :
  getAll "s" defaultMessageQueue = []
  ∧ fst (dequeueTimes 2 5 "s"
           (enqueueFor "s" [(1%Z, sampleQueued "m1"); (2%Z, sampleQueued "m2")]
                       defaultMessageQueue))
    = [Some (sampleQueued "m1"); Some (sampleQueued "m2")].
Proof.
  split; [reflexivity|].
  destruct (enqueue_dequeue_fifo defaultMessageQueue 5 "s"
              [(1%Z, sampleQueued "m1"); (2%Z, sampleQueued "m2")]) as (Hfifo & _ & _).
  - reflexivity.
  - simpl. lia.
  - repeat constructor.
  - exact Hfifo.
Defined.

Lemma nack_then_retryFromDeadLetter_witness :
  mq_queues lastChanceQueue !! "s" = Some ([waitingMessage] ++ lastChance :: [])
  ∧ (qm_maxRetries lastChance ≤ Z.of_nat (S (qm_attempts lastChance)))%Z
  ∧ retryFromDeadLetter "m9" (snd (nack 7 "s" "m9" "failed" lastChanceQueue))
    = (Some (deadLetterOf 7 (rescheduled lastChance 0 None) "failed"),
       set_queue lastChanceQueue "s" ([waitingMessage] ++ [])).
Proof.
  assert (qm_maxRetries lastChance ≤ Z.of_nat (S (qm_attempts lastChance)))%Z as Hlast.
  { simpl. lia. }
  split; [reflexivity|]. split; [exact Hlast|].
  apply (nack_then_retryFromDeadLetter lastChanceQueue 7 "s" "m9" "failed"
           [waitingMessage] [] lastChance).
  - reflexivity.
  - constructor; [discriminate|constructor].
  - reflexivity.
  - exact Hlast.
  - constructor.
  - simpl. lia.
Defined.


Lemma removeFromDeadLetter_first_match_witness :
  removeFromDeadLetter "m1" (messageQueue deadLetterBroker)
  = (true, set_deadLetterQueue (messageQueue deadLetterBroker) ([] ++ []))
  ∧ deleteDeadLetter "m1" deadLetterBroker
    = (true, set_messageQueue deadLetterBroker
               (set_deadLetterQueue (messageQueue deadLetterBroker) ([] ++ []))).
Proof.
  destruct (removeFromDeadLetter_first_match deadLetterBroker "m1") as [Hpresent _].
  apply (Hpresent [] (deadLetterOf 4 (sampleQueued "m1") "failed") []).
  - reflexivity.
  - constructor.
  - reflexivity.
Defined.

(** ** The topic manager *)

Lemma subscriberCount_in_sync_witness :
  tm_topics (runTopicOps topicRun newTopicManager) !! "t"
  = Some (mkTopic "t" 0 "admin" 0 1 defaultConfig)
  ∧ ∃ subscribers,
      tm_topicSubscribers (runTopicOps topicRun newTopicManager) !! "t" = Some subscribers
      ∧ NoDup subscribers
      ∧ topic_subscriberCount (mkTopic "t" 0 "admin" 0 1 defaultConfig) = length subscribers
      ∧ getSubscribers "t" (runTopicOps topicRun newTopicManager) = subscribers.
Proof.
  assert (tm_topics (runTopicOps topicRun newTopicManager) !! "t"
          = Some (mkTopic "t" 0 "admin" 0 1 defaultConfig)) as Htopic.
  { vm_compute. reflexivity. }
  split; [exact Htopic|].
  exact (subscriberCount_in_sync topicRun "t" _ Htopic).
Defined.

Lemma createTopic_then_deleteTopic_witness :
  tm_messageHistory sampleTopicManager !! "u" = None
  ∧ tm_topicSubscribers sampleTopicManager !! "u" = None
  ∧ deleteTopic "u" (state_of (createTopic 7 "u" "admin" noOverrides sampleTopicManager))
    = (true, sampleTopicManager).
Proof.
  split; [reflexivity|]. split; [reflexivity|].
  apply (createTopic_then_deleteTopic sampleTopicManager _ 7 "u" "admin" noOverrides
           (mkTopic "u" 7 "admin" 0 0 defaultConfig)).
  - reflexivity.
  - reflexivity.
  - reflexivity.
Defined.

Lemma addSubscriber_then_removeSubscriber_witness :
  countsInSync sampleTopicManager
  ∧ tm_topics sampleTopicManager !! "t" = Some sampleTopic
  ∧ removeSubscriber "t" s1 (snd (addSubscriber "t" s1 sampleTopicManager))
    = (true, sampleTopicManager).
Proof.
  assert (countsInSync sampleTopicManager) as Hsync.
  { intros t topic H. unfold sampleTopicManager in H. cbn [tm_topics] in H.
    apply lookup_singleton_Some in H as [<- <-].
    exists []. split; [reflexivity|]. split; [constructor|reflexivity]. }
  split; [exact Hsync|]. split; [reflexivity|].
  destruct (addSubscriber_then_removeSubscriber sampleTopicManager "t" s1 sampleTopic
              Hsync eq_refl) as [Hnew _].
  destruct (Hnew (not_elem_of_nil s1)) as (_ & _ & Hback).
  exact Hback.
Defined.

Lemma recordMessage_then_getMessageHistory_witness :
  tm_topics sampleTopicManager !! msg_topic (sampleMessage "m1" 100) = Some sampleTopic
  ∧ (100 - cfg_messageRetention (topic_config sampleTopic)
     ≤ msg_timestamp (sampleMessage "m1" 100))%Z
  ∧ last (getMessageHistory (msg_topic (sampleMessage "m1" 100)) 10
            (recordMessage 100 (sampleMessage "m1" 100) sampleTopicManager))
    = Some (sampleMessage "m1" 100).
Proof.
  assert (100 - cfg_messageRetention (topic_config sampleTopic)
          ≤ msg_timestamp (sampleMessage "m1" 100))%Z as Hfresh.
  { simpl. lia. }
  split; [reflexivity|]. split; [exact Hfresh|].
  apply (recordMessage_then_getMessageHistory sampleTopicManager 100 (sampleMessage "m1" 100)
           sampleTopic 10 eq_refl Hfresh).
  discriminate.
Defined.

Lemma purgeOldMessages_trims_witness :
  tm_messageHistory historyTopicManager !! "t"
  = Some [sampleMessage "m1" 10; sampleMessage "m2" 100]
  ∧ ∃ kept older,
      tm_messageHistory (snd (purgeOldMessages 100 historyTopicManager)) !! "t" = Some kept
      ∧ [sampleMessage "m1" 10; sampleMessage "m2" 100] = older ++ kept
      ∧ Forall (λ m, (msg_timestamp m
                      < 100 - cfg_messageRetention (topic_config historyTopic))%Z) older.
Proof.
  split; [reflexivity|].
  destruct (purgeOldMessages_trims historyTopicManager 100 "t"
              [sampleMessage "m1" 10; sampleMessage "m2" 100] eq_refl)
    as (_ & _ & _ & Htrim).
  destruct (Htrim historyTopic eq_refl) as (kept & older & Hkept & Hsplit & Hold & _).
  exists kept, older. split; [exact Hkept|]. split; [exact Hsplit|exact Hold].
Defined.

(** ** The consumer-group manager *)

Lemma rebalance_spreads_partitions_witness :
  cgm_groups sampleGroupManager !! "g" = Some sampleGroup
  ∧ grp_members sampleGroup ≠ []
  ∧ ∃ group',
      cgm_groups (rebalance "g" sampleGroupManager) !! "g" = Some group'
      ∧ concat (mem_assignedPartitions <$> grp_members group') = seq 0 16.
Proof.
  assert (grp_members sampleGroup ≠ []) as Hmembers by discriminate.
  split; [reflexivity|]. split; [exact Hmembers|].
  destruct (rebalance_spreads_partitions "g" sampleGroupManager sampleGroup eq_refl Hmembers)
    as (group' & Hgroup & Hall & _).
  exists group'. split; [exact Hgroup|exact Hall].
Defined.

Lemma getNextSubscriber_picks_member_witness :
  cgm_groups sampleGroupManager !! "g" = Some sampleGroup
  ∧ is_Some (fst (getNextSubscriber 0 "g" (sampleMessage "m1" 0) sampleGroupManager)).
Proof.
  split; [reflexivity|].
  destruct (getNextSubscriber_picks_member 0 "g" (sampleMessage "m1" 0) sampleGroupManager)
    as (_ & _ & Hsome & _).
  apply (Hsome sampleGroup); [reflexivity|discriminate|by left].
Defined.

Lemma sticky_selection_is_kept_witness :
  fst (getNextSubscriber 0 "g" (sampleMessage "m1" 0) stickyGroupManager) = Some s2
  ∧ getStickyKey (sampleMessage "m2" 5) = getStickyKey (sampleMessage "m1" 0)
  ∧ getNextSubscriber 1 "g" (sampleMessage "m2" 5)
      (snd (getNextSubscriber 0 "g" (sampleMessage "m1" 0) stickyGroupManager))
    = (Some s2, snd (getNextSubscriber 0 "g" (sampleMessage "m1" 0) stickyGroupManager)).
Proof.
  assert (fst (getNextSubscriber 0 "g" (sampleMessage "m1" 0) stickyGroupManager) = Some s2)
    as Hchosen.
  { vm_compute. reflexivity. }
  split; [exact Hchosen|]. split; [reflexivity|].
  apply (sticky_selection_is_kept 0 1 "g" (sampleMessage "m1" 0) (sampleMessage "m2" 5)
           stickyGroupManager _ stickyGroup stickyGroup s2).
  - reflexivity.
  - reflexivity.
  - exact Hchosen.
  - intros H. vm_compute in H. discriminate H.
  - reflexivity.
  - vm_compute. reflexivity.
  - reflexivity.
  - apply list_elem_of_further, list_elem_of_here.
  - reflexivity.
Defined.


Lemma leaveGroup_removes_member_witness :
  cgm_memberToGroup sampleGroupManager !! s1 = Some "g"
  ∧ cgm_groups sampleGroupManager !! "g" = Some sampleGroup
  ∧ cgm_memberToGroup (leaveGroup s1 sampleGroupManager) !! s1 = None
  ∧ leaveGroup s1 (leaveGroup s1 sampleGroupManager) = leaveGroup s1 sampleGroupManager.
Proof.
  assert (cgm_memberToGroup sampleGroupManager !! s1 = Some "g") as Hmapped.
  { vm_compute. reflexivity. }
  split; [exact Hmapped|]. split; [reflexivity|].
  destruct (leaveGroup_removes_member s1 "g" sampleGroupManager sampleGroup []
              [mkMember s2 "s2" 2 2 (seq 8 8) 0 false]
              (mkMember s1 "s1" 1 1 (seq 0 8) 0 true))
    as [Hleaves _].
  - exact Hmapped.
  - reflexivity.
  - reflexivity.
  - constructor.
  - reflexivity.
  - destruct Hleaves as (_ & Hgone & _ & Hagain); [discriminate|].
    split; [exact Hgone|exact Hagain].
Defined.

(** ** The broker *)


Lemma subscribe_then_publish_witness :
  tmConsistent (topicManager newMessageBroker)
  ∧ ∃ s b1,
      subscribe 1 1 "x1" "cli" ["t"] acceptAll None newMessageBroker = Some (Returned s b1)
      ∧ ∃ message b2,
          publish 2 "m1" "t" (samplePayload "0") "pub" noOptions b1 = Returned message b2
          ∧ msg_topic message = "t"
          ∧ sinkCallsFor (subscriberIdFor "cli" "x1") b2
            = sinkCallsFor (subscriberIdFor "cli" "x1") b1 ++ [message].
Proof.
  assert (tmConsistent (topicManager newMessageBroker)) as Hconsistent.
  { intros t [topic H]. simpl in H. rewrite lookup_empty in H. discriminate H. }
  split; [exact Hconsistent|].
  destruct (subscribe 1 1 "x1" "cli" ["t"] acceptAll None newMessageBroker)
    as [[s b1|e b1]|] eqn:Hsubscribe; [|vm_compute in Hsubscribe; discriminate Hsubscribe..].
  exists s, b1. split; [reflexivity|].
  destruct (subscribe_then_publish 1 1 "x1" "cli" ["t"] acceptAll newMessageBroker b1 s
              2 "m1" "t" (samplePayload "0") "pub" noOptions Hconsistent Hsubscribe)
    as (message & b2 & Hpublish & Htopic & _ & _ & _ & Hcalls).
  - apply list_elem_of_here.
  - exists message, b2. split; [exact Hpublish|]. split; [exact Htopic|exact Hcalls].
Defined.

Lemma publish_invalid_topic_changes_nothing_witness :
  tm_topics (topicManager sampleBroker) !! "bad topic" = None
  ∧ validTopicName "bad topic" = false
  ∧ publish 2 "m1" "bad topic" (samplePayload "0") "pub" noOptions sampleBroker
    = Thrown InvalidName sampleBroker.
Proof.
  split; [reflexivity|]. split; [reflexivity|].
  apply (publish_invalid_topic_changes_nothing sampleBroker 2 "m1" "bad topic"
           (samplePayload "0") "pub" noOptions); reflexivity.
Defined.

Lemma unsubscribed_receives_nothing_witness :
  subscribers sampleBroker !! s1 = Some (sampleSubscriber s1 "s1" ["t"])
  ∧ fst (unsubscribe s1 None sampleBroker) = true
  ∧ sinkCallsFor s1
      (state_of (publish 2 "m1" "t" (samplePayload "0") "pub" noOptions
                         (snd (unsubscribe s1 None sampleBroker))))
    = sinkCallsFor s1 sampleBroker.
Proof.
  split; [reflexivity|].
  destruct (unsubscribed_receives_nothing sampleBroker s1 (sampleSubscriber s1 "s1" ["t"])
              2 "m1" "t" (samplePayload "0") "pub" noOptions eq_refl)
    as (Hfound & _ & _ & _ & _ & Hcalls & _).
  split; [exact Hfound|exact Hcalls].
Defined.

Lemma subscribe_invalid_topic_leaves_subscriber_witness :
  tm_topics (topicManager newMessageBroker) !! "bad topic" = None
  ∧ validTopicName "bad topic" = false
  ∧ ∃ b',
      subscribe 1 1 "x1" "cli" ("bad topic" :: ["t"]) acceptAll None newMessageBroker
      = Some (Thrown InvalidName b')
      ∧ messageCallbacks b' !! subscriberIdFor "cli" "x1" = Some acceptAll.
Proof.
  split; [reflexivity|]. split; [reflexivity|].
  destruct (subscribe_invalid_topic_leaves_subscriber 1 1 "x1" "cli" "bad topic" ["t"]
              acceptAll None newMessageBroker eq_refl eq_refl)
    as (b' & Hthrown & _ & Hcallback & _).
  exists b'. split; [exact Hthrown|exact Hcallback].
Defined.



Lemma setSubscriberOnline_drains_in_order_witness :
  getAll s1 (messageQueue backlogBroker) = [sampleQueued "m1"; sampleQueued "m2"]
  ∧ messageCallbacks backlogBroker !! s1 = Some acceptAll
  ∧ ∃ b' s',
      setSubscriberOnline 3 5 s1 true backlogBroker = Some b'
      ∧ sinkCallsFor s1 b'
        = sinkCallsFor s1 backlogBroker
          ++ (qm_base <$> getAll s1 (messageQueue backlogBroker))
      ∧ getAll s1 (messageQueue b') = []
      ∧ subscribers b' !! s1 = Some s'
      ∧ sub_isOnline s' = true.
Proof.
  assert (getAll s1 (messageQueue backlogBroker) = [sampleQueued "m1"; sampleQueued "m2"])
    as Hwaiting by reflexivity.
  split; [exact Hwaiting|]. split; [reflexivity|].
  destruct (setSubscriberOnline_drains_in_order backlogBroker s1
              (set_online 1 false (sampleSubscriber s1 "s1" ["t"])) acceptAll 5 3)
    as (b' & s' & Hdrained & Hcalls & Hempty & Hs' & Honline & _).
  - reflexivity.
  - reflexivity.
  - rewrite Hwaiting. repeat constructor.
  - unfold getQueueDepth. fold (getAll s1 (messageQueue backlogBroker)).
    rewrite Hwaiting. simpl. lia.
  - exists b', s'. split; [exact Hdrained|]. split; [exact Hcalls|].
    split; [exact Hempty|]. split; [exact Hs'|exact Honline].
Defined.

Lemma drainQueue_loops_while_sink_throws_witness :
  messageCallbacks stuckBroker !! s1 = Some rejectAll
  ∧ getAll s1 (messageQueue stuckBroker) = [sampleQueued "m1"; sampleQueued "m2"]
  ∧ drainQueue 100 5 s1 stuckBroker = None.
Proof.
  assert (getAll s1 (messageQueue stuckBroker) = [sampleQueued "m1"; sampleQueued "m2"])
    as Hwaiting by reflexivity.
  split; [reflexivity|]. split; [exact Hwaiting|].
  apply (drainQueue_loops_while_sink_throws 5 s1 rejectAll 100 stuckBroker).
  - reflexivity.
  - rewrite Hwaiting. discriminate.
  - rewrite Hwaiting. repeat constructor.
Defined.
